(** * homelab-monitoring: interpolation, spool, flush and scheduling

    A shallow embedding of the collector's core
    (src/collector/collector.py, storage.py, scheduler.py and the
    legacy src/unifi_collector/common.py) together with the properties
    its specification states about it.

    Python values are a sum type; a [dict] is an insertion-ordered
    association list, because the order of a dict decides which entry
    wins when two keys collide after [upper()]; exceptions are an error
    result; the clock, the file system, the remote store and the HTTP
    session are explicit arguments and explicit state. *)

From Stdlib Require Import String Ascii List ZArith QArith Lia Bool.
From Stdlib Require Import DecimalString Permutation.
Import ListNotations.

Close Scope Q_scope.
Open Scope string_scope.

(* ================================================================= *)
(** * Python values, dictionaries and exceptions                      *)
(* ================================================================= *)

Module Py.

(** The values YAML and JSON produce. A float is the rational number
    it denotes; infinities and NaN are left out. *)
#[warnings="-register-all"]
Inductive value : Type :=
| VNone
| VBool (b : bool)
| VInt (z : Z)
| VStr (s : string)
| VList (l : list value)
| VDict (d : list (string * value))
| VFloat (q : Q).

Definition dict : Type := list (string * value).

(** The exceptions the modelled code raises or lets through.
    [Unmodelled] marks Python behaviour this development does not
    describe (conversions, format specs, attribute access in a
    replacement field, ...): nothing is proved about such inputs. *)
Inductive exn : Type :=
| KeyError (key : string)
| ValueError
| IndexError
| AttributeError
| TypeError
| OSError
| CollectorError (msg : string)
| SystemExit (msg : string)
| Unmodelled.

Inductive result (A : Type) : Type :=
| Ok (a : A)
| Raise (e : exn).
Arguments Ok {A} a.
Arguments Raise {A} e.

Definition bind {A B} (r : result A) (k : A -> result B) : result B :=
  match r with
  | Ok a => k a
  | Raise e => Raise e
  end.

Definition is_ok {A} (r : result A) : bool :=
  match r with Ok _ => true | Raise _ => false end.

(** ** dict operations *)

(** [d.get(k)] *)
Fixpoint dict_get (k : string) (d : dict) : option value :=
  match d with
  | [] => None
  | (k', v) :: r => if String.eqb k k' then Some v else dict_get k r
  end.

(** [d[k] = v]: an existing key keeps its place, a new key goes last. *)
Fixpoint dict_set (k : string) (v : value) (d : dict) : dict :=
  match d with
  | [] => [(k, v)]
  | (k', v') :: r =>
      if String.eqb k k' then (k', v) :: r else (k', v') :: dict_set k v r
  end.

(** [d.update(e)] *)
Definition dict_update (d e : dict) : dict :=
  fold_left (fun acc kv => dict_set (fst kv) (snd kv) acc) e d.

Definition keys (d : dict) : list string := map fst d.

(** Truthiness, as tested by [if x] and [not x]. *)
Definition truthy (v : value) : bool :=
  match v with
  | VNone => false
  | VBool b => b
  | VInt z => negb (Z.eqb z 0)
  | VStr s => negb (String.eqb s "")
  | VList l => match l with [] => false | _ => true end
  | VDict d => match d with [] => false | _ => true end
  | VFloat q => negb (Qeq_bool q 0%Q)
  end.

(** [d.get(k)] with Python's default [None]. *)
Definition get_or_none (k : string) (d : dict) : value :=
  match dict_get k d with Some v => v | None => VNone end.

End Py.

Import Py.

Notation "x <- r ;; k" := (bind r (fun x => k))
  (at level 61, r at next level, right associativity).

(* ================================================================= *)
(** * Strings                                                         *)
(* ================================================================= *)

Module Str.

Lemma append_nil_r (s : string) : s ++ "" = s.
Proof. induction s as [|c s IH]; simpl; [reflexivity | now rewrite IH]. Qed.

Lemma append_assoc (a b c : string) : (a ++ b) ++ c = a ++ (b ++ c).
Proof. induction a as [|x a IH]; simpl; [reflexivity | now rewrite IH]. Qed.

(** Append one character at the end. *)
Definition snoc (s : string) (c : ascii) : string := s ++ String c "".

Lemma snoc_append (s : string) (c : ascii) (r : string) :
  snoc s c ++ r = s ++ String c r.
Proof. unfold snoc. now rewrite append_assoc. Qed.

(** [s.endswith(suf)] *)
Fixpoint ends_with (suf s : string) : bool :=
  if String.eqb s suf then true
  else match s with
       | EmptyString => false
       | String _ r => ends_with suf r
       end.

(** [s.removesuffix(suf)] *)
Fixpoint removesuffix (suf s : string) : string :=
  if String.eqb s suf then ""
  else match s with
       | EmptyString => ""
       | String c r => String c (removesuffix suf r)
       end.

(** Does [c] occur in [s]? *)
Fixpoint mem (c : ascii) (s : string) : bool :=
  match s with
  | EmptyString => false
  | String x r => Ascii.eqb c x || mem c r
  end.

Definition is_digit (c : ascii) : bool :=
  let n := nat_of_ascii c in (48 <=? n)%nat && (n <=? 57)%nat.

Fixpoint all_digits (s : string) : bool :=
  match s with
  | EmptyString => true
  | String c r => is_digit c && all_digits r
  end.

(** [''.join(l)] *)
Fixpoint join (l : list string) : string :=
  match l with
  | [] => ""
  | s :: r => s ++ join r
  end.

Lemma join_app (l1 l2 : list string) : join (l1 ++ l2) = join l1 ++ join l2.
Proof.
  induction l1 as [|s l1 IH]; simpl; [reflexivity|].
  now rewrite IH, append_assoc.
Qed.

End Str.

(* ================================================================= *)
(** * Interpolation engine (collector.py, ConfigContext)              *)
(* ================================================================= *)

Module Interp.

(** ** Replacement-field scanner

    [str.format] and [string.Formatter.parse] share one scanner: literal
    text runs up to a brace; a doubled brace is an escaped brace; a
    single [{] opens a replacement field whose name runs up to [}], [:]
    or [!] (a [[] skips to the matching []]), optionally followed by a
    one-character conversion and a format spec in which braces nest.
    Every scanning error is a [ValueError]. The scan is lazy in Python:
    fields met before a malformed place are looked up first, which is
    why the scanner returns the pieces read so far together with a flag
    for "stopped on an error". *)

Inductive piece : Type :=
| PChar (c : ascii)
| PField (name : string) (conv : option ascii) (spec : string).

Inductive pstate : Type :=
| SLit
| SName (name : string) (in_bracket : bool)
| SConv (name : string)
| SConvEnd (name : string) (conv : ascii)
| SSpec (name : string) (conv : option ascii) (depth : nat) (spec : string).

Definition emit (p : piece) (r : list piece * bool) : list piece * bool :=
  (p :: fst r, snd r).

Definition stop_error : list piece * bool := ([], true).

Definition lbrace : ascii := "{"%char.
Definition rbrace : ascii := "}"%char.

Fixpoint scan (st : pstate) (s : string) {struct s} : list piece * bool :=
  match s with
  | EmptyString =>
      match st with
      | SLit => ([], false)
      | _ => stop_error
      end
  | String c r =>
      match st with
      | SLit =>
          if Ascii.eqb c lbrace then
            match r with
            | EmptyString => stop_error
            | String c2 r2 =>
                if Ascii.eqb c2 lbrace then emit (PChar c) (scan SLit r2)
                else scan (SName "" false) r
            end
          else if Ascii.eqb c rbrace then
            match r with
            | EmptyString => stop_error
            | String c2 r2 =>
                if Ascii.eqb c2 rbrace then emit (PChar c) (scan SLit r2)
                else stop_error
            end
          else emit (PChar c) (scan SLit r)
      | SName name true =>
          scan (SName (Str.snoc name c) (negb (Ascii.eqb c "]"))) r
      | SName name false =>
          if Ascii.eqb c lbrace then stop_error
          else if Ascii.eqb c "[" then scan (SName (Str.snoc name c) true) r
          else if Ascii.eqb c rbrace then
            emit (PField name None "") (scan SLit r)
          else if Ascii.eqb c ":" then scan (SSpec name None 1 "") r
          else if Ascii.eqb c "!" then scan (SConv name) r
          else scan (SName (Str.snoc name c) false) r
      | SConv name => scan (SConvEnd name c) r
      | SConvEnd name cv =>
          if Ascii.eqb c rbrace then
            emit (PField name (Some cv) "") (scan SLit r)
          else if Ascii.eqb c ":" then scan (SSpec name (Some cv) 1 "") r
          else stop_error
      | SSpec name cv depth spec =>
          if Ascii.eqb c lbrace then
            scan (SSpec name cv (S depth) (Str.snoc spec c)) r
          else if Ascii.eqb c rbrace then
            match depth with
            | 0 | 1 => emit (PField name cv spec) (scan SLit r)
            | S d => scan (SSpec name cv d (Str.snoc spec c)) r
            end
          else scan (SSpec name cv depth (Str.snoc spec c)) r
      end
  end.

Definition parse (text : string) : list piece * bool := scan SLit text.

(** The replacement-field names of a string, in order. *)
Definition placeholders (text : string) : list string :=
  flat_map (fun p => match p with PField n _ _ => [n] | PChar _ => [] end)
           (fst (parse text)).

(** A field this development describes in full: a keyword name with no
    attribute or index access, no conversion and an empty format spec. *)
Definition simple_name (name : string) : bool :=
  negb (String.eqb name "") && negb (Str.mem "." name)
  && negb (Str.mem "[" name) && negb (Str.all_digits name).

Section Builtins.

(** Python builtins taken as given: [str.upper] and [repr]. *)
Variable upper : string -> string.
Variable repr : value -> string.

(** [str(v)], which is also [format(v, '')]. *)
Definition py_str (v : value) : string :=
  match v with
  | VNone => "None"
  | VBool true => "True"
  | VBool false => "False"
  | VInt z => NilZero.string_of_int (Z.to_int z)
  | VStr s => s
  | VList _ | VDict _ | VFloat _ => repr v
  end.

(** One replacement field. [strict = true] is [str.format],
    whose missing key is a [KeyError]; [strict = false] is
    [SafeFormatter.get_value], which answers ["{" + key + "}"].
    An empty name is automatic numbering into the empty positional
    tuple: [IndexError] in both. *)
Definition render_field (strict : bool) (kwargs : dict)
    (name : string) (conv : option ascii) (spec : string) : result string :=
  if String.eqb name "" then Raise IndexError
  else if simple_name name then
    match conv, spec with
    | None, EmptyString =>
        match dict_get name kwargs with
        | Some v => Ok (py_str v)
        | None => if strict then Raise (KeyError name)
                  else Ok ("{" ++ name ++ "}")
        end
    | _, _ => Raise Unmodelled
    end
  else Raise Unmodelled.

Fixpoint render (strict : bool) (kwargs : dict) (ps : list piece)
    (bad_end : bool) : result string :=
  match ps with
  | [] => if bad_end then Raise ValueError else Ok ""
  | PChar c :: r =>
      out <- render strict kwargs r bad_end ;;
      Ok (String c out)
  | PField n cv sp :: r =>
      x <- render_field strict kwargs n cv sp ;;
      out <- render strict kwargs r bad_end ;;
      Ok (x ++ out)
  end.

(** [text.format] and [SafeFormatter().format], both with the context as keyword arguments *)
Definition format (strict : bool) (text : string) (kwargs : dict)
  : result string :=
  let '(ps, bad) := parse text in render strict kwargs ps bad.

(** ** ConfigContext *)

Record ConfigContext : Type := { cfg : dict; base_context : dict }.

(** [{k.upper(): str(v).upper() for k, v in full_ctx.items()}] *)
Definition upper_ctx (full_ctx : dict) : dict :=
  fold_left (fun acc kv =>
               dict_set (upper (fst kv)) (VStr (upper (py_str (snd kv)))) acc)
            full_ctx [].

(** Steps 1 to 3 of [resolve_str]: base, then extra, then upper-cased. *)
Definition merged_context (self : ConfigContext) (extra_ctx : option dict)
  : dict :=
  let full_ctx := base_context self in
  let full_ctx := match extra_ctx with
                  | Some e => dict_update full_ctx e
                  | None => full_ctx
                  end in
  dict_update full_ctx (upper_ctx full_ctx).

Definition missing_message (key text : string) : string :=
  "Configuration variable " ++ repr (VStr key)
  ++ " missing during resolution of string: '" ++ text ++ "'".

Definition resolve_str (self : ConfigContext) (text : value)
    (extra_ctx : option dict) (strict : bool) : result value :=
  match text with
  | VStr t =>
      let full_ctx := merged_context self extra_ctx in
      if strict then
        match format true t full_ctx with
        | Ok s => Ok (VStr s)
        | Raise (KeyError k) => Raise (CollectorError (missing_message k t))
        | Raise e => Raise e
        end
      else
        s <- format false t full_ctx ;; Ok (VStr s)
  | _ => Ok text
  end.

(** [resolve_dict]: the value dispatch of the loop body is
    [resolve_value]; the loop itself is [resolve_items], which fills
    [new_d] entry by entry. *)
Fixpoint resolve_value (self : ConfigContext) (extra_ctx : option dict)
    (strict : bool) (v : value) {struct v} : result value :=
  match v with
  | VStr _ => resolve_str self v extra_ctx strict
  | VDict d =>
      (fix resolve_items (d : list (string * value)) (new_d : dict)
         : result value :=
         match d with
         | [] => Ok (VDict new_d)
         | (k, x) :: r =>
             x' <- resolve_value self extra_ctx strict x ;;
             resolve_items r (dict_set k x' new_d)
         end) d []
  | _ => Ok v
  end.

Definition resolve_dict (self : ConfigContext) (d : dict)
    (extra_ctx : option dict) (strict : bool) : result dict :=
  r <- resolve_value self extra_ctx strict (VDict d) ;;
  match r with
  | VDict new_d => Ok new_d
  | _ => Raise Unmodelled
  end.

(** The loop of [resolve_dict] on its own, as [resolve_value] runs it. *)
Definition resolve_items (self : ConfigContext) (extra_ctx : option dict)
    (strict : bool) : dict -> dict -> result value :=
  fix resolve_items (d : list (string * value)) (new_d : dict)
    : result value :=
    match d with
    | [] => Ok (VDict new_d)
    | (k, x) :: r =>
        x' <- resolve_value self extra_ctx strict x ;;
        resolve_items r (dict_set k x' new_d)
    end.

End Builtins.

End Interp.

(* ================================================================= *)
(** * Templates as the specification speaks of them                   *)
(* ================================================================= *)

(** A template is literal text interleaved with [{key}] placeholders.
    [template_of] writes one down the way a configuration file holds it:
    a brace of the literal text is doubled, a placeholder is its key
    between braces. *)
Module Template.

Import Interp.

Inductive tok : Type :=
| TLit (s : string)
| TVar (k : string).

Definition is_brace (c : ascii) : bool :=
  Ascii.eqb c lbrace || Ascii.eqb c rbrace.

Fixpoint escape (s : string) : string :=
  match s with
  | EmptyString => ""
  | String c r =>
      if is_brace c then String c (String c (escape r))
      else String c (escape r)
  end.

Definition show_tok (t : tok) : string :=
  match t with
  | TLit s => escape s
  | TVar k => "{" ++ k ++ "}"
  end.

Definition template_of (ts : list tok) : string :=
  Str.join (map show_tok ts).

(** Characters that end or redirect the scan of a field name. *)
Definition name_char (c : ascii) : bool :=
  negb (Ascii.eqb c lbrace) && negb (Ascii.eqb c rbrace)
  && negb (Ascii.eqb c ":") && negb (Ascii.eqb c "!")
  && negb (Ascii.eqb c "[").

Fixpoint name_chars (s : string) : bool :=
  match s with
  | EmptyString => true
  | String c r => name_char c && name_chars r
  end.

(** A plain key: what [{key}] means in the configuration files. *)
Definition plain_key (k : string) : bool :=
  simple_name k && name_chars k.

Definition plain_tok (t : tok) : bool :=
  match t with
  | TLit _ => true
  | TVar k => plain_key k
  end.

Definition var_keys (ts : list tok) : list string :=
  flat_map (fun t => match t with TVar k => [k] | TLit _ => [] end) ts.

(** The first placeholder key of [ts] that [ctx] does not hold. *)
Fixpoint first_missing (ctx : dict) (ts : list tok) : option string :=
  match ts with
  | [] => None
  | TLit _ :: r => first_missing ctx r
  | TVar k :: r =>
      match dict_get k ctx with
      | Some _ => first_missing ctx r
      | None => Some k
      end
  end.

(** The pieces the scanner is expected to read from [template_of ts]. *)
Fixpoint chars (s : string) (r : list piece) : list piece :=
  match s with
  | EmptyString => r
  | String c s' => PChar c :: chars s' r
  end.

Fixpoint pieces_of (ts : list tok) : list piece :=
  match ts with
  | [] => []
  | TLit s :: r => chars s (pieces_of r)
  | TVar k :: r => PField k None "" :: pieces_of r
  end.

(** What a token becomes under [ctx]: literal text is kept, a
    placeholder is [str] of the value held for its key, and a
    placeholder whose key is not held stays as it was written. *)
Definition fill (repr : value -> string) (ctx : dict) (t : tok) : string :=
  match t with
  | TLit s => s
  | TVar k =>
      match dict_get k ctx with
      | Some v => py_str repr v
      | None => "{" ++ k ++ "}"
      end
  end.

Definition filled (repr : value -> string) (ctx : dict) (ts : list tok)
  : string :=
  Str.join (map (fill repr ctx) ts).

Fixpoint brace_free (s : string) : bool :=
  match s with
  | EmptyString => true
  | String c r => negb (is_brace c) && brace_free r
  end.

End Template.

(* ================================================================= *)
(** * Documents and their resolved copies                             *)
(* ================================================================= *)

Module Tree.

Import Interp.

Fixpoint distinct (l : list string) : bool :=
  match l with
  | [] => true
  | x :: r => negb (existsb (String.eqb x) r) && distinct r
  end.

(** A Python mapping holds each key once; an association list stands
    for one when its keys are distinct, at every level of nesting that
    is itself a mapping. *)
Fixpoint unique_keys (v : value) : bool :=
  match v with
  | VDict d =>
      distinct (keys d)
      && (fix all (d : list (string * value)) : bool :=
            match d with
            | [] => true
            | (_, x) :: r => unique_keys x && all r
            end) d
  | _ => true
  end.

Definition unique_items : dict -> bool :=
  fix all (d : list (string * value)) : bool :=
    match d with
    | [] => true
    | (_, x) :: r => unique_keys x && all r
    end.

(** Neither a string nor a mapping: numbers, booleans, [None], and
    sequences together with everything inside them. *)
Definition is_leaf (v : value) : bool :=
  match v with
  | VStr _ | VDict _ => false
  | _ => true
  end.

Section Resolved.

Variable upper : string -> string.
Variable repr : value -> string.
Variable self : ConfigContext.
Variable extra_ctx : option dict.
Variable strict : bool.

(** [resolved v v']: [v'] is [v] with every string reached through
    mappings alone replaced by its resolution, and all else as in [v]. *)
Inductive resolved : value -> value -> Prop :=
| resolved_str (s : string) (v' : value) :
    resolve_str upper repr self (VStr s) extra_ctx strict = Ok v' ->
    resolved (VStr s) v'
| resolved_dict (d d' : dict) :
    resolved_items d d' -> resolved (VDict d) (VDict d')
| resolved_leaf (v : value) :
    is_leaf v = true -> resolved v v
with resolved_items : dict -> dict -> Prop :=
| resolved_nil : resolved_items [] []
| resolved_cons (k : string) (v v' : value) (d d' : dict) :
    resolved v v' -> resolved_items d d' ->
    resolved_items ((k, v) :: d) ((k, v') :: d').

End Resolved.

End Tree.

(* ================================================================= *)
(** * Scheduler (scheduler.py)                                        *)
(* ================================================================= *)

Module Scheduler.

(** White space as [int] skips it around a numeral: tab to carriage
    return, the four separators and the space. *)
Definition is_space (c : ascii) : bool :=
  let n := nat_of_ascii c in
  (((9 <=? n) && (n <=? 13)) || ((28 <=? n) && (n <=? 32)))%nat.

Fixpoint lstrip (s : string) : string :=
  match s with
  | String c r => if is_space c then lstrip r else s
  | EmptyString => ""
  end.

Fixpoint rstrip (s : string) : string :=
  match s with
  | String c r =>
      match rstrip r with
      | EmptyString => if is_space c then "" else String c ""
      | r' => String c r'
      end
  | EmptyString => ""
  end.

Definition digit_of (c : ascii) : option Z :=
  let n := nat_of_ascii c in
  if ((48 <=? n) && (n <=? 57))%nat then Some (Z.of_nat (n - 48)) else None.

(** Decimal digits, single underscores allowed between two digits.
    [after_digit] tells whether the character before was a digit. *)
Fixpoint digits (s : string) (acc : Z) (after_digit : bool) : option Z :=
  match s with
  | EmptyString => if after_digit then Some acc else None
  | String c r =>
      match digit_of c with
      | Some d => digits r (10 * acc + d)%Z true
      | None =>
          if Ascii.eqb c "_"%char && after_digit then digits r acc false
          else None
      end
  end.

Definition numeral (s : string) : option Z :=
  match s with
  | String "+"%char r => digits r 0%Z false
  | String "-"%char r => option_map Z.opp (digits r 0%Z false)
  | _ => digits s 0%Z false
  end.

Fixpoint ascii_only (s : string) : bool :=
  match s with
  | EmptyString => true
  | String c r => (nat_of_ascii c <? 128)%nat && ascii_only r
  end.

(** [int(s)] on a string: base ten. Not described: a string with a
    character outside ASCII (Python reads every Unicode decimal digit)
    and a string above the interpreter's limit on the length of a
    numeral (4300 digits). *)
Definition int_of_string (s : string) : result Z :=
  if negb (ascii_only s) || (4300 <? String.length s)%nat
  then Raise Unmodelled
  else match numeral (rstrip (lstrip s)) with
       | Some z => Ok z
       | None => Raise ValueError
       end.

(** [int(x)]: an integer is itself, a boolean is 0 or 1, a float is
    truncated toward zero, a string is read as a numeral. *)
Definition py_int (v : value) : result Z :=
  match v with
  | VInt z => Ok z
  | VBool b => Ok (if b then 1 else 0)%Z
  | VFloat q => Ok (Z.quot (Qnum q) (Zpos (Qden q)))
  | VStr s => int_of_string s
  | VNone | VList _ | VDict _ => Raise TypeError
  end.

(** [cfg.get("schedule", {})] followed by [.get]: only a dict has it. *)
Definition schedule_of (cfg : dict) : result dict :=
  match dict_get "schedule" cfg with
  | None => Ok []
  | Some (VDict d) => Ok d
  | Some _ => Raise AttributeError
  end.

(** [should_run(cfg, last_run_ts)]; [now] is what [time.time()] answers.
    Timestamps are exact rationals (seconds). *)
Definition should_run (cfg : dict) (last_run_ts : option Q) (now : Q)
  : result bool :=
  sched <- schedule_of cfg ;;
  let interval := get_or_none "interval_seconds" sched in
  if negb (truthy interval) then Ok true
  else match last_run_ts with
       | None => Ok true
       | Some t =>
           i <- py_int interval ;;
           Ok (Qle_bool (inject_Z i) (now - t)%Q)
       end.

End Scheduler.

(* ================================================================= *)
(** * Spool and flush engine (storage.py)                             *)
(* ================================================================= *)

Module Storage.

Definition bytes : Type := string.

(** A spool directory: file name to content. The spool: path of a
    directory relative to the spool root (a normalised relative path) to
    that directory. *)
Definition directory : Type := list (string * bytes).
Definition spool : Type := list (string * directory).

(** The remote container, as far as the SDK calls used here can tell:
    a blob has a type and the blocks appended to it so far. *)
Inductive blob_type : Type := AppendBlob | BlockBlob | PageBlob.

Record blob : Type := { btype : blob_type; blocks : list bytes }.

Definition container : Type := list (string * blob).

Record world : Type :=
  { fs : spool; remote : container; stdout : list string }.

(** What the environment decides: the process environment and whether
    the Azure SDK imported. *)
Record env : Type :=
  { AZURE_STORAGE_CONNECTION_STRING : option string;
    sdk_installed : bool;
    client_error : option string }.

(** Operations that fail for reasons outside the program. *)
Record faults : Type :=
  { mkdir_fails : bool;
    exists_fails : string -> bool;
    create_fails : string -> bool;
    read_fails : string -> string -> bool;
    append_fails : string -> string -> bool;
    unlink_fails : string -> string -> bool }.

Definition no_faults : faults :=
  {| mkdir_fails := false;
     exists_fails := fun _ => false;
     create_fails := fun _ => false;
     read_fails := fun _ _ => false;
     append_fails := fun _ _ => false;
     unlink_fails := fun _ _ => false |}.

(** ** Association lists keyed by strings *)

Fixpoint lookup {A} (k : string) (m : list (string * A)) : option A :=
  match m with
  | [] => None
  | (k', a) :: r => if String.eqb k k' then Some a else lookup k r
  end.

Fixpoint store {A} (k : string) (a : A) (m : list (string * A))
  : list (string * A) :=
  match m with
  | [] => [(k, a)]
  | (k', a') :: r =>
      if String.eqb k k' then (k', a) :: r else (k', a') :: store k a r
  end.

Definition remove {A} (k : string) (m : list (string * A))
  : list (string * A) :=
  filter (fun e => negb (String.eqb k (fst e))) m.

(** ** The file system calls *)

Definition dir_exists (d : string) (s : spool) : bool :=
  match lookup d s with Some _ => true | None => false end.

(** [mkdir(parents=True, exist_ok=True)] *)
Definition mkdir (d : string) (s : spool) : spool :=
  if dir_exists d s then s else store d [] s.

Definition write_file (d name : string) (data : bytes) (s : spool) : spool :=
  match lookup d s with
  | Some files => store d (store name data files) s
  | None => s
  end.

Definition unlink (d name : string) (s : spool) : spool :=
  match lookup d s with
  | Some files => store d (remove name files) s
  | None => s
  end.

(** [_cleanup_dir]: [rmdir] removes an empty directory; on a missing or
    non-empty one it raises [OSError], which is passed over. *)
Definition cleanup_dir (d : string) (s : spool) : spool :=
  match lookup d s with
  | Some [] => remove d s
  | _ => s
  end.

(** [glob("*.jsonl.part")] and [rglob("*.jsonl.parts")] select by the
    last path component, which ends in the pattern's tail exactly when
    the whole relative path does. *)
Definition is_part (name : string) : bool := Str.ends_with ".jsonl.part" name.
Definition is_parts_dir (d : string) : bool := Str.ends_with ".jsonl.parts" d.

(** [sorted]: insertion into an ordered list, by [String.leb]. *)
Fixpoint insert (x : string) (l : list string) : list string :=
  match l with
  | [] => [x]
  | y :: r => if String.leb x y then x :: l else y :: insert x r
  end.

Fixpoint sorted (l : list string) : list string :=
  match l with
  | [] => []
  | x :: r => insert x (sorted r)
  end.

(** [sorted([p for p in parts_dir.glob("*.jsonl.part") if p.is_file()])] *)
Definition list_parts (d : string) (s : spool) : list string :=
  match lookup d s with
  | Some files => sorted (filter is_part (map fst files))
  | None => []
  end.

(** ** write_to_spool *)

(** [write_to_spool(blob_path, record)]: [stamp] is the formatted
    [utc_now()], [uid] is [uuid.uuid4().hex], [line] is the record as
    [json.dumps] gives it followed by a newline. *)
Definition part_name (stamp uid : string) : string :=
  stamp ++ "_" ++ uid ++ ".jsonl.part".

(** The components of a path: the pieces between its slashes. *)
Fixpoint split_slash (p : string) : list string :=
  match p with
  | EmptyString => [""]
  | String c r =>
      if Ascii.eqb c "/"%char then "" :: split_slash r
      else match split_slash r with
           | x :: xs => String c x :: xs
           | [] => [String c ""]
           end
  end.

Fixpoint join_slash (l : list string) : string :=
  match l with
  | [] => ""
  | [x] => x
  | x :: r => x ++ "/" ++ join_slash r
  end.

Definition stays (component : string) : bool :=
  negb (String.eqb component "") && negb (String.eqb component ".").

(** [root / p] as pathlib prints it: relative to the root for a
    relative [p], and [p] itself, leaving the root, for an absolute
    one.  Empty components and [.] are dropped and [..] is kept; with
    no component left the path is the root itself; of the slashes an
    absolute path starts with, one is kept, or two when there are
    exactly two. *)
Definition pure_path (p : string) : string :=
  let kept := filter stays (split_slash p) in
  if String.prefix "//" p && negb (String.prefix "///" p)
  then "//" ++ join_slash kept
  else if String.prefix "/" p then "/" ++ join_slash kept
  else match kept with
       | [] => "."
       | l => join_slash l
       end.

(** A path in normal form: relative, with no empty component (so no
    leading, trailing or doubled slash), no [.] and no [..]. *)
Definition normal_path (p : string) : bool :=
  forallb (fun c => stays c && negb (String.eqb c "..")) (split_slash p).

(** [root / f"{blob_path}.parts"], as a path relative to the spool
    root. For a blob path in normal form this is the blob path followed
    by [.parts], which is how it is written here. Other blob paths are
    rewritten by pathlib ([a//b] and [a/./b] become [a/b]) or lead out
    of the root (an absolute path, a path through [..]); what is stated
    about the directories of several blob paths, or about the blob name
    the sweep derives from a directory, is stated for blob paths in
    normal form. *)
Definition parts_dir_of (blob_path : string) : string := blob_path ++ ".parts".

Definition write_to_spool (blob_path stamp uid : string) (line : bytes)
    (s : spool) : spool :=
  let parts_dir := parts_dir_of blob_path in
  write_file parts_dir (part_name stamp uid) line (mkdir parts_dir s).

(** ** The blob client calls *)

Definition empty_append_blob : blob := {| btype := AppendBlob; blocks := [] |}.

Definition is_append (b : blob) : bool :=
  match btype b with AppendBlob => true | _ => false end.

(** [append_block]: the service rejects a missing blob and a blob that
    is not an append blob. *)
Definition append_block (path : string) (data : bytes) (c : container)
  : option container :=
  match lookup path c with
  | Some b =>
      if is_append b
      then Some (store path {| btype := AppendBlob;
                               blocks := blocks b ++ [data] |} c)
      else None
  | None => None
  end.

Definition blob_exists (path : string) (c : container) : bool :=
  match lookup path c with Some _ => true | None => false end.

(** ** flush_spool *)

Abbreviation counts := (nat * nat)%type (only parsing).

Definition add_flushed (n : counts) : counts := (S (fst n), snd n).
Definition add_failed (n : counts) : counts := (fst n, S (snd n)).

(** The body of [for part in parts]: read, append, unlink, count. Any
    exception of the three calls lands in the one [except]. *)
Definition flush_part (F : faults) (blob_path parts_dir : string)
    (acc : world * counts) (part : string) : world * counts :=
  let '(w, n) := acc in
  if read_fails F parts_dir part then (w, add_failed n)
  else
    match lookup parts_dir (fs w) with
    | None => (w, add_failed n)
    | Some files =>
        match lookup part files with
        | None => (w, add_failed n)
        | Some data =>
            if append_fails F blob_path part then (w, add_failed n)
            else
              match append_block blob_path data (remote w) with
              | None => (w, add_failed n)
              | Some c =>
                  let w1 := {| fs := fs w; remote := c;
                               stdout := stdout w |} in
                  if unlink_fails F parts_dir part then (w1, add_failed n)
                  else ({| fs := unlink parts_dir part (fs w);
                           remote := c; stdout := stdout w |},
                        add_flushed n)
              end
        end
    end.

Definition target_given (target_path : option string) : bool :=
  match target_path with
  | Some t => negb (String.eqb t "")
  | None => false
  end.

(** The body of [for parts_dir in parts_dirs]. *)
Definition flush_dir (F : faults) (target_path : option string)
    (acc : world * counts) (parts_dir : string) : world * counts :=
  let '(w, n) := acc in
  let blob_path :=
    match target_path with
    | Some t => if String.eqb t "" then Str.removesuffix ".parts" parts_dir
                else t
    | None => Str.removesuffix ".parts" parts_dir
    end in
  match list_parts parts_dir (fs w) with
  | [] => ({| fs := cleanup_dir parts_dir (fs w); remote := remote w;
              stdout := stdout w |}, n)
  | parts =>
      if exists_fails F blob_path then (w, add_failed n)
      else
        let created :=
          if blob_exists blob_path (remote w) then Some (remote w)
          else if create_fails F blob_path then None
          else Some (store blob_path empty_append_blob (remote w)) in
        match created with
        | None => (w, add_failed n)
        | Some c =>
            let '(w2, n2) :=
              fold_left (flush_part F blob_path parts_dir) parts
                        ({| fs := fs w; remote := c; stdout := stdout w |}, n)
            in
            ({| fs := cleanup_dir parts_dir (fs w2); remote := remote w2;
                stdout := stdout w2 |}, n2)
        end
  end.

(** Which directories one invocation visits. *)
Definition parts_dirs (target_path : option string) (s : spool)
  : list string :=
  match target_path with
  | Some t =>
      if String.eqb t "" then filter is_parts_dir (map fst s)
      else if dir_exists (parts_dir_of t) s then [parts_dir_of t] else []
  | None => filter is_parts_dir (map fst s)
  end.

Definition conn_str_set (e : env) : bool :=
  match AZURE_STORAGE_CONNECTION_STRING e with
  | Some c => negb (String.eqb c "")
  | None => false
  end.

(** [flush_spool(timeout, target_path)]; the answer is the pair
    [(flushed, failed)] and the world it leaves. [get_spool_dir] may
    raise when the spool root cannot be created. *)
Definition flush_spool (E : env) (F : faults) (target_path : option string)
    (w : world) : result (counts * world) :=
  if negb (conn_str_set E) then Ok ((0, 0), w)
  else if negb (sdk_installed E) then Ok ((0, 0), w)
  else
    match client_error E with
    | Some e =>
        Ok ((0, 1), {| fs := fs w; remote := remote w;
                       stdout := stdout w ++ ["Storage Init Error: " ++ e] |})
    | None =>
        if mkdir_fails F then Raise OSError
        else
          let '(w', n) :=
            fold_left (flush_dir F target_path)
                      (parts_dirs target_path (fs w)) (w, (0, 0)) in
          Ok (n, w')
    end.

(** ** The legacy path (unifi_collector/common.py) *)

(** [ensure_append_blob]: [die] prints to stderr and exits. *)
Definition ensure_append_blob (c : container) (blob_name : string)
  : result container :=
  match lookup blob_name c with
  | Some b =>
      if is_append b then Ok c
      else Raise (SystemExit ("ERROR: Blob exists but is not AppendBlob: "
                              ++ blob_name))
  | None => Ok (store blob_name empty_append_blob c)
  end.

End Storage.

(* ================================================================= *)
(** * Loop-mode collection (collector.py, run_collector)              *)
(* ================================================================= *)

Module Collector.

Import Interp.

Section Run.

Variable upper : string -> string.
Variable repr : value -> string.

(** [str(e)] for an exception caught by the loop. *)
Variable exn_str : exn -> string.

(** The HTTP client: its state (session, cookies, the requests made so
    far) and what [HttpClient.get] answers: the decoded JSON, or the
    exception it raises. *)
Variable client : Type.
Variable client_get : client -> value -> result value * client.

Record run : Type :=
  { http : client; records : list value; printed : list string }.

(** [{k: str(v) for k, v in item.items()}] *)
Definition safe_item (item : dict) : dict :=
  fold_left (fun acc kv => dict_set (fst kv) (VStr (py_str repr (snd kv))) acc)
            item [].

Definition failed_message (item_id : value) (e : exn) : string :=
  "Failed to fetch item " ++ py_str repr item_id ++ ": " ++ exn_str e.

(** The body of [for item in items]. An item that is not a dict has no
    [get]: the [AttributeError] is outside the [try] and ends the run.
    The [try] catches [Exception]: a [SystemExit] is no [Exception] and
    ends the run as well. *)
Definition collect_item (ctx : ConfigContext) (id_field : string)
    (template : value) (st : run) (item : value) : result run :=
  match item with
  | VDict d =>
      let item_id := get_or_none id_field d in
      if negb (truthy item_id) then Ok st
      else
        let item_ctx := dict_update [("id", item_id)] (safe_item d) in
        match resolve_str upper repr ctx template (Some item_ctx) true with
        | Raise Unmodelled => Raise Unmodelled
        | Raise (SystemExit m) => Raise (SystemExit m)
        | Raise e =>
            Ok {| http := http st; records := records st;
                  printed := printed st ++ [failed_message item_id e] |}
        | Ok item_url =>
            let '(r, c) := client_get (http st) item_url in
            match r with
            | Ok detail_data =>
                Ok {| http := c; records := records st ++ [detail_data];
                      printed := printed st |}
            | Raise (SystemExit m) => Raise (SystemExit m)
            | Raise e =>
                Ok {| http := c; records := records st;
                      printed := printed st ++ [failed_message item_id e] |}
            end
        end
  | _ => Raise AttributeError
  end.

Fixpoint collect_items (ctx : ConfigContext) (id_field : string)
    (template : value) (st : run) (items : list value) : result run :=
  match items with
  | [] => Ok st
  | item :: rest =>
      st' <- collect_item ctx id_field template st item ;;
      collect_items ctx id_field template st' rest
  end.

End Run.

End Collector.

(* ================================================================= *)
(** * Blob paths (storage.py, build_bronze_path)                      *)
(* ================================================================= *)

Module BronzePath.

(** [d.get(k, {})] whose answer is then asked for [.get]: a missing key
    gives the empty mapping, and a value that is not a mapping has no
    such method. *)
Definition get_mapping (k : string) (d : dict) : result dict :=
  match dict_get k d with
  | None => Ok []
  | Some (VDict m) => Ok m
  | Some _ => Raise AttributeError
  end.

(** [x or y] *)
Definition py_or (x y : value) : value := if truthy x then x else y.

(** [d.get(k, default)] *)
Definition get_default (k : string) (default : value) (d : dict) : value :=
  match dict_get k d with Some v => v | None => default end.

Section WithRepr.

Variable repr : value -> string.

Local Abbreviation str := (Interp.py_str repr).

(** [build_bronze_path(cfg, dt)]; a replacement field of an f-string
    with no format spec is [str] of its value. *)
Definition build_bronze_path (cfg : dict) (dt : string) : result string :=
  storage <- get_mapping "storage" cfg ;;
  let prefix := get_default "bronze_prefix" (VStr "bronze") storage in
  let system := py_or (get_or_none "system" storage)
                      (get_or_none "source" cfg) in
  let dataset := py_or (get_or_none "dataset" storage)
                       (get_or_none "entity" cfg) in
  let entity := get_or_none "entity" cfg in
  collect <- get_mapping "collect" cfg ;;
  let unique_id := get_or_none "node" collect in
  let filename :=
    if truthy unique_id
    then str entity ++ "_" ++ str unique_id ++ "_" ++ dt ++ ".jsonl"
    else str entity ++ "_" ++ dt ++ ".jsonl" in
  Ok (str prefix ++ "/" ++ str system ++ "/" ++ str dataset
      ++ "/dt=" ++ dt ++ "/" ++ filename).

End WithRepr.

End BronzePath.

(* ================================================================= *)
(** * Record wrapper (common.py)                                      *)
(* ================================================================= *)

Module Wrapper.

(** What the host decides: the clock reading as [isoformat] prints it,
    what [socket.gethostname] answers, and the process environment. *)
Record host : Type :=
  { iso_utc_now : string;
    gethostname : result string;
    ENVIRONMENT : option string }.

(** [get_collector_host]: any exception gives ["unknown"]. *)
Definition get_collector_host (h : host) : string :=
  match gethostname h with
  | Ok name => name
  | Raise _ => "unknown"
  end.

(** [os.getenv(name, default)] *)
Definition getenv_default (v : option string) (default : string) : string :=
  match v with Some s => s | None => default end.

(** [meta_tags or {}] *)
Definition tags_or_empty (meta_tags : option dict) : dict :=
  match meta_tags with
  | Some t => t
  | None => []
  end.

(** [build_wrapper]: a dict display fills its keys in order, and the
    unpacked [meta_tags] come last. *)
Definition build_wrapper (h : host) (source entity schema_version : value)
    (host_name : value) (payload : value) (meta_tags : option dict) : dict :=
  [("meta",
    VDict (dict_update
             [("source", source);
              ("entity", entity);
              ("schema_version", schema_version);
              ("host", host_name);
              ("collected_at_utc", VStr (iso_utc_now h));
              ("collector_host", VStr (get_collector_host h));
              ("environment",
               VStr (getenv_default (ENVIRONMENT h) "homelab"))]
             (tags_or_empty meta_tags)));
   ("payload", payload)].

(** The ["meta"] block of a wrapped record. *)
Definition meta_of (record : dict) : dict :=
  match dict_get "meta" record with
  | Some (VDict m) => m
  | _ => []
  end.

End Wrapper.


(* ================================================================= *)
(** * The context of one loop item (collector.py, run_collector)      *)
(* ================================================================= *)

Module LoopContext.

(** [item_ctx = {"id": item_id}] followed by
    [item_ctx.update(safe_item)], as [collect_item] builds it. *)
Definition item_ctx (repr : value -> string) (item_id : value) (item : dict)
  : dict :=
  dict_update [("id", item_id)] (Collector.safe_item repr item).

End LoopContext.


(* ================================================================= *)
(** * HTTP client (http_client.py)                                    *)
(* ================================================================= *)

Module Http.

Import BronzePath.

Inductive verb : Type := GET | POST.

(** One call of [session.get] or [session.post]. *)
Record request : Type :=
  { method : verb;
    url : string;
    json_body : option value;
    verify_arg : bool;
    timeout_arg : Z }.

(** What comes back: [json] is [None] when [r.json()] raises
    [ValueError]; [header] is the case-insensitive [r.headers.get]. *)
Record response : Type :=
  { status_code : Z;
    text : string;
    json : option value;
    header : string -> option string }.

(** [requests]' header store: the lower-cased name is the key, the name
    as written and the value are kept under it. *)
Definition headers : Type := list (string * (string * string)).

Record HttpClient : Type :=
  { http_cfg : dict;
    auth_cfg : dict;
    base_url : string;
    verify : bool;
    timeout : Z;
    session_headers : headers;
    sent : list request }.

(** [s.rstrip("/")] *)
Fixpoint rstrip_slash (s : string) : string :=
  match s with
  | EmptyString => ""
  | String c r =>
      match rstrip_slash r with
      | EmptyString => if Ascii.eqb c "/" then "" else String c ""
      | r' => String c r'
      end
  end.

(** [s[:n]] *)
Definition truncate (n : nat) (s : string) : string := String.substring 0 n s.

Section WithBuiltins.

Variable repr : value -> string.
Variable exn_str : exn -> string.

(** [str.strip] and [str.lower], taken as given. *)
Variable strip : string -> string.
Variable lower : string -> string.

(** The process environment. *)
Variable environ : string -> option string.

(** The network: what a request is answered with, given the requests
    sent before it on the same session. *)
Variable network : list request -> request -> result response.

Local Abbreviation str := (Interp.py_str repr).

(** [os.getenv(name)]: the name must be a string. *)
Definition getenv (name : value) : result (option string) :=
  match name with
  | VStr n => Ok (environ n)
  | _ => Raise TypeError
  end.

(** [not x] for what [os.getenv] answers. *)
Definition unset (x : option string) : bool :=
  match x with
  | Some s => String.eqb s ""
  | None => true
  end.

Definition env_str (x : option string) : string :=
  match x with Some s => s | None => "None" end.

(** [session.headers.update({name: v})] *)
Definition set_header (name v : string) (h : headers) : headers :=
  Storage.store (lower name) (name, v) h.

Definition get_header (name : string) (h : headers) : option string :=
  match Storage.lookup (lower name) h with
  | Some (_, v) => Some v
  | None => None
  end.

(** One round trip on the session; the request is on record whether
    or not it is answered. *)
Definition send (c : HttpClient) (rq : request)
  : result response * HttpClient :=
  (network (sent c) rq,
   {| http_cfg := http_cfg c; auth_cfg := auth_cfg c;
      base_url := base_url c; verify := verify c; timeout := timeout c;
      session_headers := session_headers c;
      sent := sent c ++ [rq] |}).

Definition with_header (name v : string) (c : HttpClient) : HttpClient :=
  {| http_cfg := http_cfg c; auth_cfg := auth_cfg c;
     base_url := base_url c; verify := verify c; timeout := timeout c;
     session_headers := set_header name v (session_headers c);
     sent := sent c |}.

Definition fail {A} (e : exn) (c : HttpClient)
  : result A * list request := (Raise e, sent c).

Definition done (c : HttpClient)
  : result HttpClient * list request := (Ok c, sent c).

(** A step that talks to nobody. *)
Definition quietly (r : result HttpClient) (c : HttpClient)
  : result HttpClient * list request := (r, sent c).

(** [_auth_proxmox] *)
Definition auth_proxmox (c : HttpClient) : result HttpClient :=
  let token_id_env :=
    get_default "token_id_env" (VStr "PROXMOX_API_TOKEN_ID") (auth_cfg c) in
  token_id <- getenv token_id_env ;;
  let token_secret_env := get_or_none "token_secret_env" (auth_cfg c) in
  token_secret <- (if truthy token_secret_env then getenv token_secret_env
                   else Ok None) ;;
  if unset token_id || unset token_secret
  then Raise (CollectorError
                ("Missing Proxmox credentials. Checked " ++ str token_id_env
                 ++ " and " ++ str token_secret_env))
  else Ok (with_header "Authorization"
             ("PVEAPIToken=" ++ env_str token_id ++ "=" ++ env_str token_secret)
             c).

(** [_auth_unifi_api_key] *)
Definition auth_unifi_api_key (c : HttpClient) : result HttpClient :=
  let key_env := get_default "api_key_env" (VStr "UNIFI_API_KEY") (auth_cfg c) in
  key <- getenv key_env ;;
  if unset key
  then Raise (CollectorError ("Missing Unifi API Key in env: " ++ str key_env))
  else Ok (with_header "X-API-KEY" (env_str key) c).

(** [a or b] on two header look-ups. *)
Definition first_set (a b : option string) : option string :=
  if unset a then b else a.

(** [_auth_unifi_os_session]; an exception of the [post] that is not an
    [Exception] (a [SystemExit]) is not caught. *)
Definition auth_unifi_os_session (c : HttpClient)
  : result HttpClient * list request :=
  let user_env :=
    get_default "username_env" (VStr "UNIFI_OS_USERNAME") (auth_cfg c) in
  let pass_env :=
    get_default "password_env" (VStr "UNIFI_OS_PASSWORD") (auth_cfg c) in
  match getenv user_env with
  | Raise e => fail e c
  | Ok username =>
  match getenv pass_env with
  | Raise e => fail e c
  | Ok password =>
  if unset username || unset password
  then fail (CollectorError ("Missing Unifi OS credentials in "
                             ++ str user_env ++ "/" ++ str pass_env)) c
  else
    let login_path :=
      get_default "login_path" (VStr "/api/auth/login") (auth_cfg c) in
    if String.eqb (base_url c) ""
    then fail (CollectorError
                 "http.base_url is required for unifi_os_session auth") c
    else
      let rq := {| method := POST;
                   url := base_url c ++ str login_path;
                   json_body :=
                     Some (VDict [("username", VStr (env_str username));
                                  ("password", VStr (env_str password))]);
                   verify_arg := verify c;
                   timeout_arg := timeout c |} in
      let '(r, c1) := send c rq in
      match r with
      | Raise (SystemExit m) => fail (SystemExit m) c1
      | Raise e =>
          fail (CollectorError
                  ("Unifi Login Connection Failed: " ++ exn_str e)) c1
      | Ok resp =>
          if (400 <=? status_code resp)%Z
          then fail (CollectorError
                       ("UniFi OS login failed: HTTP "
                        ++ str (VInt (status_code resp)) ++ " " ++ text resp))
                    c1
          else
            let csrf := first_set (header resp "x-csrf-token")
                                  (header resp "X-Csrf-Token") in
            if unset csrf then done c1
            else done (with_header "X-CSRF-Token" (env_str csrf) c1)
      end
  end
  end.

(** [_authenticate] *)
Definition authenticate (c : HttpClient) : result HttpClient * list request :=
  match get_default "mode" (VStr "none") (auth_cfg c) with
  | VStr m =>
      let mode := strip m in
      if String.eqb mode "none" then done c
      else if String.eqb mode "proxmox_token" then quietly (auth_proxmox c) c
      else if String.eqb mode "unifi_api_key"
           then quietly (auth_unifi_api_key c) c
      else if String.eqb mode "unifi_os_session" then auth_unifi_os_session c
      else fail (CollectorError ("Unknown auth.mode: " ++ mode)) c
  | _ => fail AttributeError c
  end.


(** [HttpClient(cfg)]: [default_headers] are the headers a fresh
    [requests.Session] carries. The answer is the client or the
    exception, with the requests sent while constructing it. *)
Definition init (default_headers : headers) (cfg : dict)
  : result HttpClient * list request :=
  match get_mapping "http" cfg with
  | Raise e => (Raise e, [])
  | Ok http =>
      match Scheduler.py_int
              (get_default "timeout_seconds" (VInt 20) http) with
      | Raise e => (Raise e, [])
      | Ok seconds =>
          match get_mapping "auth" cfg with
          | Raise e => (Raise e, [])
          | Ok auth =>
              authenticate
                {| http_cfg := http;
                   auth_cfg := auth;
                   base_url :=
                     rstrip_slash (str (get_default "base_url" (VStr "") http));
                   verify := truthy (get_default "verify_tls" (VBool true) http);
                   timeout := seconds;
                   session_headers := default_headers;
                   sent := [] |}
          end
      end
  end.

(** The URL [get] asks for. *)
Definition url_of (c : HttpClient) (endpoint : string) : string :=
  if String.prefix "http://" endpoint || String.prefix "https://" endpoint
  then endpoint
  else base_url c ++ (if String.prefix "/" endpoint then endpoint
                      else "/" ++ endpoint).

(** [HttpClient.get(endpoint)]; an endpoint that is not a string has no
    [startswith]. *)
Definition get (c : HttpClient) (endpoint : value)
  : result value * HttpClient :=
  match endpoint with
  | VStr e =>
      let u := url_of c e in
      let '(r, c1) := send c {| method := GET; url := u; json_body := None;
                                verify_arg := verify c;
                                timeout_arg := timeout c |} in
      match r with
      | Raise (SystemExit m) => (Raise (SystemExit m), c1)
      | Raise x =>
          (Raise (CollectorError
                    ("Request failed: " ++ u ++ " - " ++ exn_str x)), c1)
      | Ok resp =>
          if (400 <=? status_code resp)%Z
          then (Raise (CollectorError
                         ("HTTP " ++ str (VInt (status_code resp))
                          ++ " calling " ++ u ++ ": "
                          ++ truncate 200 (text resp))), c1)
          else match json resp with
               | Some v => (Ok v, c1)
               | None =>
                   (Raise (CollectorError
                             ("Non-JSON response calling " ++ u ++ ": "
                              ++ truncate 200 (text resp))), c1)
               end
      end
  | _ => (Raise AttributeError, c)
  end.


End WithBuiltins.

End Http.


(* ================================================================= *)
(** * Picking the items of a list response (collector.py)             *)
(* ================================================================= *)

Module Items.

Import BronzePath.

(** [s.split(c)] *)
Fixpoint split_on (c : ascii) (s : string) : list string :=
  match s with
  | EmptyString => [""]
  | String x r =>
      if Ascii.eqb x c then "" :: split_on c r
      else match split_on c r with
           | h :: t => String x h :: t
           | [] => [String x ""]
           end
  end.

(** The [for key in json_path.split(".")] loop: a mapping is asked for
    the key, with [[]] for a missing one; anything else ends the loop. *)
Fixpoint descend (path : list string) (items : value) : value :=
  match path with
  | [] => items
  | key :: rest =>
      match items with
      | VDict d => descend rest (get_default key (VList []) d)
      | _ => items
      end
  end.

(** [type(v)] as an f-string prints it. *)
Definition type_name (v : value) : string :=
  match v with
  | VNone => "<class 'NoneType'>"
  | VBool _ => "<class 'bool'>"
  | VInt _ => "<class 'int'>"
  | VStr _ => "<class 'str'>"
  | VList _ => "<class 'list'>"
  | VDict _ => "<class 'dict'>"
  | VFloat _ => "<class 'float'>"
  end.

Section WithRepr.

Variable repr : value -> string.

(** From [json_path = collect.get("list_json_path", "")] to the list
    the loop runs over, with the warning printed on the way, if any.
    A truthy path that is not a string has no [split]. *)
Definition select_items (json_path list_data : value)
  : result (list value * list string) :=
  items <- (if truthy json_path
            then match json_path with
                 | VStr p => Ok (descend (split_on "." p) list_data)
                 | _ => Raise AttributeError
                 end
            else Ok list_data) ;;
  match items with
  | VList l => Ok (l, [])
  | _ => Ok ([], ["Warning: Expected list at '" ++ Interp.py_str repr json_path
                  ++ "', got " ++ type_name items ++ ". skipping."])
  end.

End WithRepr.

End Items.


(* ================================================================= *)
(** * One collection run (collector.py, run_collector)                *)
(* ================================================================= *)

Module Runner.

Import BronzePath.

(** What a run leaves behind: the spool, the container and the lines
    printed, and the requests sent. *)
Record machine : Type :=
  { disk : Storage.world; wire : list Http.request }.

Definition say (line : string) (w : Storage.world) : Storage.world :=
  {| Storage.fs := Storage.fs w; Storage.remote := Storage.remote w;
     Storage.stdout := (Storage.stdout w ++ [line])%list |}.

Definition says (lines : list string) (w : Storage.world) : Storage.world :=
  {| Storage.fs := Storage.fs w; Storage.remote := Storage.remote w;
     Storage.stdout := (Storage.stdout w ++ lines)%list |}.

Definition with_fs (s : Storage.spool) (w : Storage.world) : Storage.world :=
  {| Storage.fs := s; Storage.remote := Storage.remote w;
     Storage.stdout := Storage.stdout w |}.

(** The line feed that ends a spooled record. *)
Definition newline : string := String "010"%char "".

(** An exception leaves the run with the state reached so far. *)
Definition stop (e : exn) (w : Storage.world) (log : list Http.request)
  : result unit * option machine :=
  (Raise e, Some {| disk := w; wire := log |}).

(** [ConfigContext(cfg)]: the context is seeded with a copy of the
    [collect] block. A list has a [copy] too and fails later; that
    case is not described. *)
Definition context_of (cfg : dict) : result Interp.ConfigContext :=
  match dict_get "collect" cfg with
  | None => Ok {| Interp.cfg := cfg; Interp.base_context := [] |}
  | Some (VDict d) => Ok {| Interp.cfg := cfg; Interp.base_context := d |}
  | Some (VList _) => Raise Unmodelled
  | Some _ => Raise AttributeError
  end.

(** [str(n)] for a counter. *)
Definition show_nat (repr : value -> string) (n : nat) : string :=
  Interp.py_str repr (VInt (Z.of_nat n)).

Section Run.

Variable upper : string -> string.
Variable repr : value -> string.
Variable exn_str : exn -> string.
Variable strip : string -> string.
Variable lower : string -> string.
Variable environ : string -> option string.
Variable network : list Http.request -> Http.request -> result Http.response.

(** [json.dumps(record, separators=(",", ":"), ensure_ascii=False)] *)
Variable dumps : value -> string.

(** The headers of a fresh session; the storage environment and what
    fails in it. *)
Variable default_headers : Http.headers.
Variable E : Storage.env.
Variable F : Storage.faults.

(** The clock and the random source: the date [run_collector] reads, and
    for the record written at each position the time stamp and the
    identifier of its file and the host readings of its wrapper. *)
Variable today : string.
Variable stamp_at : nat -> string.
Variable uid_at : nat -> string.
Variable host_at : nat -> Wrapper.host.

(** Whether creating the parts directory, or writing the file, fails
    for the record at a position. *)
Variable parts_mkdir_fails : nat -> bool.
Variable write_fails : nat -> bool.

Local Abbreviation str := (Interp.py_str repr).
Local Abbreviation http_get := (Http.get repr exn_str network).

(** What the mode branches give: the records or the exception, the
    client after its requests, and the lines printed. An exception that
    leaves the item loop takes the loop's state with it. *)
Definition gathered : Type :=
  result (list value) * option Http.HttpClient * list string.

(** [mode == "single"] *)
Definition gather_single (ctx : Interp.ConfigContext)
    (resolved_cfg collect : dict) (client : Http.HttpClient) : gathered :=
  let endpoint := py_or (get_or_none "endpoint" resolved_cfg)
                        (get_or_none "endpoint" collect) in
  if negb (truthy endpoint)
  then (Raise (CollectorError "Mode 'single' requires 'endpoint' in config"),
        Some client, [])
  else
    match Interp.resolve_str upper repr ctx endpoint None true with
    | Raise e => (Raise e, Some client, [])
    | Ok endpoint' =>
        let '(r, c1) := http_get client endpoint' in
        match r with
        | Raise e => (Raise e, Some c1, [])
        | Ok data => (Ok [data], Some c1, [])
        end
    end.

(** [mode == "loop"] *)
Definition gather_loop (ctx : Interp.ConfigContext) (collect : dict)
    (client : Http.HttpClient) : gathered :=
  let list_endpoint := get_or_none "list_endpoint" collect in
  if negb (truthy list_endpoint)
  then (Raise (CollectorError "Mode 'loop' requires 'list_endpoint'"),
        Some client, [])
  else
    match Interp.resolve_str upper repr ctx list_endpoint None true with
    | Raise e => (Raise e, Some client, [])
    | Ok list_endpoint' =>
        let '(r, c1) := http_get client list_endpoint' in
        match r with
        | Raise e => (Raise e, Some c1, [])
        | Ok list_data =>
            let json_path := get_default "list_json_path" (VStr "") collect in
            match Items.select_items repr json_path list_data with
            | Raise e => (Raise e, Some c1, [])
            | Ok (items, warning) =>
                let id_field := get_default "id_field" (VStr "id") collect in
                let template := get_or_none "item_endpoint_template" collect in
                if negb (truthy template)
                then (Raise (CollectorError
                               "Mode 'loop' requires 'item_endpoint_template'"),
                      Some c1, warning)
                else
                  match id_field with
                  | VStr field =>
                      match Collector.collect_items upper repr exn_str
                              Http.HttpClient http_get ctx field template
                              {| Collector.http := c1;
                                 Collector.records := [];
                                 Collector.printed := warning |} items with
                      | Ok st => (Ok (Collector.records _ st),
                                  Some (Collector.http _ st),
                                  Collector.printed _ st)
                      | Raise e => (Raise e, None, [])
                      end
                  | _ => (Raise Unmodelled, None, [])
                  end
            end
        end
    end.

(** The mode dispatch: a mode that is neither gathers nothing. *)
Definition gather (ctx : Interp.ConfigContext) (resolved_cfg collect : dict)
    (mode : value) (client : Http.HttpClient) : gathered :=
  match mode with
  | VStr m =>
      if String.eqb m "single"
      then gather_single ctx resolved_cfg collect client
      else if String.eqb m "loop" then gather_loop ctx collect client
      else (Ok [], Some client, [])
  | _ => (Ok [], Some client, [])
  end.

(** The wrapper of the record at position [i]. *)
Definition wrap (resolved_cfg : dict) (client : Http.HttpClient) (i : nat)
    (rec : value) : dict :=
  Wrapper.build_wrapper (host_at i)
    (get_or_none "source" resolved_cfg)
    (get_or_none "entity" resolved_cfg)
    (get_default "schema_version" (VInt 1) resolved_cfg)
    (VStr (Http.base_url client)) rec None.

(** The line [write_to_spool] writes for a record. *)
Definition line_of (record : dict) : string := dumps (VDict record) ++ newline.

(** [write_to_spool(blob_path, wrapped)] for the record at position
    [i], with what can fail in it: the spool root, the parts directory,
    the file. *)
Definition spool_record (blob_path : string) (i : nat) (record : dict)
    (s : Storage.spool) : result unit * Storage.spool :=
  if Storage.mkdir_fails F then (Raise OSError, s)
  else if parts_mkdir_fails i then (Raise OSError, s)
  else if write_fails i
       then (Raise OSError, Storage.mkdir (Storage.parts_dir_of blob_path) s)
       else (Ok tt,
             Storage.write_to_spool blob_path (stamp_at i) (uid_at i)
               (line_of record) s).

(** The [for rec in records] loop; the answer is [count]. *)
Fixpoint spool_all (blob_path : string) (resolved_cfg : dict)
    (client : Http.HttpClient) (records : list value) (i : nat)
    (s : Storage.spool) : result nat * Storage.spool :=
  match records with
  | [] => (Ok i, s)
  | rec :: rest =>
      match spool_record blob_path i (wrap resolved_cfg client i rec) s with
      | (Raise e, s1) => (Raise e, s1)
      | (Ok _, s1) => spool_all blob_path resolved_cfg client rest (S i) s1
      end
  end.

Definition finished (resolved_cfg : dict) (count flushed failed : nat)
  : string :=
  "Finished " ++ str (get_or_none "entity" resolved_cfg) ++ ": collected "
  ++ show_nat repr count ++ ", flushed " ++ show_nat repr flushed
  ++ ", failed " ++ show_nat repr failed.

(** Steps 4 and 5: spool the records, flush the path they went to. *)
Definition store_records (resolved_cfg : dict) (client : Http.HttpClient)
    (records : list value) (w : Storage.world)
  : result unit * option machine :=
  match build_bronze_path repr resolved_cfg today with
  | Raise e => stop e w (Http.sent client)
  | Ok blob_path =>
      match spool_all blob_path resolved_cfg client records 0
              (Storage.fs w) with
      | (Raise e, s) => stop e (with_fs s w) (Http.sent client)
      | (Ok count, s) =>
          match Storage.flush_spool E F (Some blob_path) (with_fs s w) with
          | Raise e => stop e (with_fs s w) (Http.sent client)
          | Ok ((flushed, failed), w') =>
              (Ok tt,
               Some {| disk := say (finished resolved_cfg count flushed failed)
                                   w';
                       wire := Http.sent client |})
          end
      end
  end.

(** [run_collector(cfg)] *)
Definition run_collector (cfg : dict) (w : Storage.world)
  : result unit * option machine :=
  match context_of cfg with
  | Raise e => stop e w []
  | Ok ctx =>
  match Interp.resolve_dict upper repr ctx cfg None false with
  | Raise e => stop e w []
  | Ok resolved_cfg =>
  match Http.init repr exn_str strip lower environ network default_headers
          resolved_cfg with
  | (Raise e, log) => stop e w log
  | (Ok client, _) =>
  match get_mapping "collect" resolved_cfg with
  | Raise e => stop e w (Http.sent client)
  | Ok collect =>
      let mode := get_default "mode" (VStr "single") collect in
      let w1 := say ("Running " ++ str (get_or_none "entity" resolved_cfg)
                     ++ " in mode: " ++ str mode) w in
      match gather ctx resolved_cfg collect mode client with
      | (Raise e, Some c, lines) => stop e (says lines w1) (Http.sent c)
      | (Raise e, None, _) => (Raise e, None)
      | (Ok records, Some c, lines) =>
          store_records resolved_cfg c records (says lines w1)
      | (Ok _, None, _) => (Raise Unmodelled, None)
      end
  end
  end
  end
  end.


End Run.


End Runner.


(* ================================================================= *)
(** * One tick of the scheduler (scheduler.py, tick)                  *)
(* ================================================================= *)

Module Ticker.

(** What a tick works on: the time each configuration file was last
    triggered, the jobs handed to the thread pool, the lines printed. *)
Record state : Type :=
  { last_runs : list (string * Q);
    submitted : list (string * value);
    out : list string }.

Definition print_lines (lines : list string) (st : state) : state :=
  {| last_runs := last_runs st; submitted := submitted st;
     out := (out st ++ lines)%list |}.

(** [configs_dir.glob("*.yaml")], on the names found in the directory. *)
Definition glob_yaml (names : list string) : list string :=
  filter (Str.ends_with ".yaml") names.

Section Tick.

Variable exn_str : exn -> string.

(** [yaml.safe_load(path.read_text())] for each path: the document, or
    the exception of reading or parsing. *)
Variable load : string -> result value.

(** The two readings of [time.time()] a file can cause: the one
    [should_run] takes and the one stored after the job is submitted. *)
Variable now_check : string -> Q.
Variable now_mark : string -> Q.

(** [load_yaml]: an empty document is the empty mapping, and so is
    one that cannot be loaded, after a line is printed. *)
Definition load_yaml (path : string) : result value * list string :=
  match load path with
  | Ok v => (Ok (if truthy v then v else VDict []), [])
  | Raise (SystemExit m) => (Raise (SystemExit m), [])
  | Raise e => (Ok (VDict []), ["Error loading " ++ path ++ ": " ++ exn_str e])
  end.

(** The body of the loop of [tick] for the file [name] of directory
    [dir]; only a mapping has the [get] that [should_run] calls. *)
Definition tick_file (dir name : string) (st : state) : result unit * state :=
  let p := dir ++ "/" ++ name in
  match load_yaml p with
  | (Raise e, lines) => (Raise e, print_lines lines st)
  | (Ok cfg, lines) =>
      let st1 := print_lines lines st in
      if negb (truthy cfg) then (Ok tt, st1)
      else
        match cfg with
        | VDict d =>
            match Scheduler.should_run d (Storage.lookup p (last_runs st1))
                    (now_check p) with
            | Raise e => (Raise e, st1)
            | Ok false => (Ok tt, st1)
            | Ok true =>
                (Ok tt,
                 {| last_runs := Storage.store p (now_mark p) (last_runs st1);
                    submitted := (submitted st1 ++ [(p, cfg)])%list;
                    out := (out st1
                            ++ [("Triggering " ++ name ++ "...")%string])%list
                 |})
            end
        | _ => (Raise AttributeError, st1)
        end
  end.

Fixpoint tick_files (dir : string) (names : list string) (st : state)
  : result unit * state :=
  match names with
  | [] => (Ok tt, st)
  | name :: rest =>
      match tick_file dir name st with
      | (Raise e, st1) => (Raise e, st1)
      | (Ok _, st1) => tick_files dir rest st1
      end
  end.

(** [tick(configs_dir, last_runs, pool)]: [dir] is the directory as
    [str] prints it, [names] the names of its entries. *)
Definition tick (dir : string) (names : list string) (st : state)
  : result unit * state :=
  tick_files dir (Storage.sorted (glob_yaml names)) st.

End Tick.

End Ticker.


(* ================================================================= *)
(** * Concrete builtins for the worked examples                       *)
(* ================================================================= *)

Module Example.

(** [str.upper] on ASCII letters; other bytes are kept. *)
Definition upper_char (c : ascii) : ascii :=
  let n := nat_of_ascii c in
  if ((97 <=? n) && (n <=? 122))%nat then ascii_of_nat (n - 32) else c.

Fixpoint upper (s : string) : string :=
  match s with
  | EmptyString => ""
  | String c r => String (upper_char c) (upper r)
  end.

(** [repr] of a string without quotes, backslashes or control
    characters; the examples apply it to nothing else. *)
Definition repr (v : value) : string :=
  match v with
  | VStr s => "'" ++ s ++ "'"
  | _ => "<object>"
  end.

Definition context (base : dict) : Interp.ConfigContext :=
  {| Interp.cfg := [("collect", VDict base)]; Interp.base_context := base |}.

Definition resolve_str := Interp.resolve_str upper repr.
Definition resolve_dict := Interp.resolve_dict upper repr.

End Example.

(* ================================================================= *)
(** * Properties: scheduler                                           *)
(* ================================================================= *)

Module SchedulerFacts.

Import Scheduler.

(** [int] of a float drops the fraction: the result lies between zero
    and the float, less than one away from it. *)
Lemma py_int_truncates (q : Q) :
  exists I, py_int (VFloat q) = Ok I
    /\ ((0 <= q)%Q -> (inject_Z I <= q)%Q /\ (q < inject_Z I + 1)%Q)
    /\ ((q <= 0)%Q -> (q <= inject_Z I)%Q /\ (inject_Z I - 1 < q)%Q).
Proof.
  exists (Z.quot (Qnum q) (Zpos (Qden q))). split; [reflexivity|].
  destruct q as [n d]. unfold Qle, Qlt. cbn.
  pose proof (Z.quot_rem' n (Zpos d)) as Hqr.
  split; intros Hs.
  - assert (Hn : (0 <= n)%Z) by lia.
    pose proof (Z.rem_bound_pos n (Zpos d) Hn ltac:(lia)). nia.
  - assert (Hn : (n <= 0)%Z) by lia.
    pose proof (Z.rem_bound_pos (- n) (Zpos d) ltac:(lia) ltac:(lia)) as Hr.
    rewrite Z.rem_opp_l in Hr by lia. nia.
Qed.


Definition hourly : dict :=
  [("entity", VStr "nodes");
   ("schedule", VDict [("interval_seconds", VInt 3600)])].


(** An interval of ninety and a half seconds, last dispatched at 0. *)
Definition ninety_and_a_half : dict :=
  [("entity", VStr "nodes");
   ("schedule", VDict [("interval_seconds", VFloat (181 # 2))])].


(** [int] on the strings a YAML file can hold as an interval. *)
Example int_of_numerals :
  py_int (VStr "60") = Ok 60%Z
  /\ py_int (VStr " +3_600 ") = Ok 3600%Z
  /\ py_int (VStr "1h") = Raise ValueError
  /\ py_int (VStr "") = Raise ValueError.
Proof. repeat split. Qed.

End SchedulerFacts.

(* ================================================================= *)
(** * Properties: spool and flush engine                              *)
(* ================================================================= *)

Module StorageFacts.

Import Storage.

(** ** Association lists *)

Section Assoc.

Context {A : Type}.
Implicit Types (m : list (string * A)) (k : string) (a : A).

Lemma lookup_store_same k a m : lookup k (store k a m) = Some a.
Proof.
  induction m as [|[k' a'] m IH]; simpl.
  - now rewrite String.eqb_refl.
  - destruct (String.eqb k k') eqn:E; simpl; rewrite E; [reflexivity|exact IH].
Qed.

Lemma lookup_store_other k k' a m :
  k <> k' -> lookup k (store k' a m) = lookup k m.
Proof.
  intros Hne. induction m as [|[k2 a2] m IH]; simpl.
  - destruct (String.eqb_spec k k'); [contradiction|reflexivity].
  - destruct (String.eqb_spec k' k2) as [->|Hk]; simpl.
    + destruct (String.eqb_spec k k2); [contradiction|reflexivity].
    + destruct (String.eqb k k2); [reflexivity|exact IH].
Qed.

Lemma store_store k a b m : store k a (store k b m) = store k a m.
Proof.
  induction m as [|[k' a'] m IH]; simpl.
  - now rewrite String.eqb_refl.
  - destruct (String.eqb k k') eqn:E; simpl; rewrite E; [reflexivity|].
    now rewrite IH.
Qed.

Lemma store_unchanged k a m : lookup k m = Some a -> store k a m = m.
Proof.
  induction m as [|[k' a'] m IH]; simpl; [discriminate|].
  destruct (String.eqb_spec k k') as [->|Hk].
  - now injection 1 as ->.
  - intros H. now rewrite IH.
Qed.

Lemma lookup_remove_other k k' m :
  k <> k' -> lookup k (remove k' m) = lookup k m.
Proof.
  intros Hne. unfold remove.
  induction m as [|[k2 a2] m IH]; simpl; [reflexivity|].
  destruct (String.eqb_spec k' k2) as [->|Hk]; simpl.
  - destruct (String.eqb_spec k k2); [contradiction|exact IH].
  - destruct (String.eqb k k2); [reflexivity|exact IH].
Qed.

Lemma lookup_In k m : lookup k m <> None <-> In k (map fst m).
Proof.
  induction m as [|[k' a'] m IH]; simpl; [tauto|].
  destruct (String.eqb_spec k k') as [->|Hk].
  - split; [now left|discriminate].
  - rewrite IH. split; [now right|]. intros [H|H]; [congruence|exact H].
Qed.

Lemma map_fst_remove k m :
  map fst (remove k m) = filter (fun x => negb (String.eqb k x)) (map fst m).
Proof.
  unfold remove. induction m as [|[k' a'] m IH]; simpl; [reflexivity|].
  destruct (String.eqb k k'); simpl; now rewrite IH.
Qed.

End Assoc.

(** ** The service is unavailable *)

(** C8. Without a connection string, or without the SDK, [flush_spool]
    answers [(0, 0)], touches nothing and does not raise, whatever the
    spool holds and whatever would fail; when the client cannot be
    built it answers [(0, 1)], one failure for the whole invocation
    however many parts wait. *)
Theorem flush_spool_unavailable (E : env) (F : faults)
    (target_path : option string) (w : world) :
  (conn_str_set E = false \/ sdk_installed E = false ->
   flush_spool E F target_path w = Ok ((0, 0), w))
  /\ (forall e, conn_str_set E = true -> sdk_installed E = true ->
      client_error E = Some e ->
      exists w', flush_spool E F target_path w = Ok ((0, 1), w')
                 /\ fs w' = fs w /\ remote w' = remote w).
Proof.
  unfold flush_spool. split.
  - intros [H|H]; rewrite H; cbn [negb]; [reflexivity|].
    now destruct (negb (conn_str_set E)).
  - intros e Hc Hs He. rewrite Hc, Hs, He. cbn [negb].
    eexists. split; [reflexivity|]. now split.
Qed.

Definition waiting : world :=
  {| fs := [("bronze/pve/nodes.jsonl.parts",
             [("20240101T000000_aa.jsonl.part", "{1}");
              ("20240101T000001_bb.jsonl.part", "{2}");
              ("20240101T000002_cc.jsonl.part", "{3}")])];
     remote := []; stdout := [] |}.

Definition all_faults : faults :=
  {| mkdir_fails := true;
     exists_fails := fun _ => true;
     create_fails := fun _ => true;
     read_fails := fun _ _ => true;
     append_fails := fun _ _ => true;
     unlink_fails := fun _ _ => true |}.

Definition azure (conn : option string) (sdk : bool) (err : option string)
  : env :=
  {| AZURE_STORAGE_CONNECTION_STRING := conn; sdk_installed := sdk;
     client_error := err |}.

Lemma flush_spool_unavailable_witness :
  flush_spool (azure None true None) all_faults None waiting
    = Ok ((0, 0), waiting)
  /\ exists w', flush_spool (azure (Some "UseDevelopmentStorage=true") true
                                   (Some "bad connection string"))
                            all_faults None waiting = Ok ((0, 1), w')
                /\ fs w' = fs waiting /\ remote w' = remote waiting.
Proof.
  split.
  - apply (flush_spool_unavailable (azure None true None)).
    left. reflexivity.
  - apply (flush_spool_unavailable
             (azure (Some "UseDevelopmentStorage=true") true
                    (Some "bad connection string")))
      with (e := "bad connection string"); reflexivity.
Defined.
(** ** A part that is appended but cannot be deleted *)

Definition ready : env := azure (Some "UseDevelopmentStorage=true") true None.

Definition one_part : world :=
  {| fs := [("bronze/pve/nodes.jsonl.parts",
             [("20240101T000000_aa.jsonl.part", "{1}")])];
     remote := []; stdout := [] |}.

Definition unlink_faults : faults :=
  {| mkdir_fails := false;
     exists_fails := fun _ => false;
     create_fails := fun _ => false;
     read_fails := fun _ _ => false;
     append_fails := fun _ _ => false;
     unlink_fails := fun _ _ => true |}.

(** C1, as stated, fails: one part whose append succeeds and whose
    [unlink] raises is answered as [(0, 1)], not [(1, 0)], although its
    bytes are in the remote blob. *)
Lemma delete_failure_not_flushed :
  flush_spool ready unlink_faults (Some "bronze/pve/nodes.jsonl") one_part
  = Ok ((0, 1),
        {| fs := fs one_part;
           remote := [("bronze/pve/nodes.jsonl",
                       {| btype := AppendBlob; blocks := ["{1}"] |})];
           stdout := [] |}).
Proof. reflexivity. Qed.

(** C1, amended. A part whose bytes are appended and whose deletion
    fails is counted as failed, not as flushed; its file stays, the
    blob has its bytes, and a later pass over the same part, with
    nothing failing, appends the same bytes a second time and counts it
    flushed: delivery is at least once. *)
Theorem delete_failure_counts_failed (F : faults) (blob_path parts_dir
    part : string) (w : world) (n : counts) (files : directory)
    (data : bytes) (b : blob) :
  lookup parts_dir (fs w) = Some files ->
  lookup part files = Some data ->
  lookup blob_path (remote w) = Some b ->
  is_append b = true ->
  read_fails F parts_dir part = false ->
  append_fails F blob_path part = false ->
  unlink_fails F parts_dir part = true ->
  exists w1,
    flush_part F blob_path parts_dir (w, n) part = (w1, add_failed n)
    /\ fs w1 = fs w
    /\ lookup blob_path (remote w1)
       = Some {| btype := AppendBlob; blocks := blocks b ++ [data] |}
    /\ exists w2,
         flush_part no_faults blob_path parts_dir (w1, add_failed n) part
         = (w2, add_flushed (add_failed n))
         /\ lookup blob_path (remote w2)
            = Some {| btype := AppendBlob;
                      blocks := blocks b ++ [data; data] |}.
Proof.
  intros Hdir Hfile Hblob Happ Hread Happend Hunlink.
  unfold flush_part at 1.
  rewrite Hread, Hdir, Hfile, Happend. unfold append_block.
  rewrite Hblob, Happ, Hunlink.
  eexists. split; [reflexivity|]. cbn [fs remote].
  split; [reflexivity|]. split; [apply lookup_store_same|].
  unfold flush_part. cbn [fs remote stdout no_faults read_fails append_fails
                          unlink_fails].
  rewrite Hdir, Hfile. unfold append_block. rewrite lookup_store_same.
  cbn [is_append btype blocks].
  eexists. split; [reflexivity|]. cbn [remote].
  rewrite lookup_store_same, <- app_assoc. reflexivity.
Qed.

Lemma delete_failure_counts_failed_witness :
  exists w1,
    flush_part unlink_faults "b.jsonl" "b.jsonl.parts"
      ({| fs := [("b.jsonl.parts", [("a.jsonl.part", "{1}")])];
          remote := [("b.jsonl", empty_append_blob)]; stdout := [] |},
       (0, 0)) "a.jsonl.part" = (w1, (0, 1))
    /\ fs w1 = [("b.jsonl.parts", [("a.jsonl.part", "{1}")])]
    /\ lookup "b.jsonl" (remote w1)
       = Some {| btype := AppendBlob; blocks := ["{1}"] |}
    /\ exists w2,
         flush_part no_faults "b.jsonl" "b.jsonl.parts" (w1, (0, 1))
                    "a.jsonl.part" = (w2, (1, 1))
         /\ lookup "b.jsonl" (remote w2)
            = Some {| btype := AppendBlob; blocks := ["{1}"; "{1}"] |}.
Proof.
  apply (delete_failure_counts_failed unlink_faults "b.jsonl" "b.jsonl.parts"
           "a.jsonl.part"
           {| fs := [("b.jsonl.parts", [("a.jsonl.part", "{1}")])];
              remote := [("b.jsonl", empty_append_blob)]; stdout := [] |}
           (0, 0) [("a.jsonl.part", "{1}")] "{1}" empty_append_blob);
    reflexivity.
Defined.

(** ** Sorting and listing *)

Lemma insert_perm (x : string) (l : list string) :
  Permutation (insert x l) (x :: l).
Proof.
  induction l as [|y l IH]; simpl; [reflexivity|].
  destruct (String.leb x y); [reflexivity|].
  rewrite IH. apply perm_swap.
Qed.

Lemma sorted_perm (l : list string) : Permutation (sorted l) l.
Proof.
  induction l as [|x l IH]; simpl; [reflexivity|].
  rewrite insert_perm. now constructor.
Qed.

Lemma filter_comm {A} (p q : A -> bool) (l : list A) :
  filter p (filter q l) = filter q (filter p l).
Proof.
  induction l as [|x l IH]; simpl; [reflexivity|].
  destruct (p x) eqn:Ep, (q x) eqn:Eq; simpl; rewrite ?Ep, ?Eq, IH; reflexivity.
Qed.

Lemma filter_none {A} (q : A -> bool) (l : list A) :
  (forall x, In x l -> q x = false) -> filter q l = [].
Proof.
  induction l as [|y l IH]; intros H; simpl; [reflexivity|].
  rewrite (H y (or_introl eq_refl)). apply IH.
  intros x Hx. apply H. now right.
Qed.

(** In a duplicate-free list, a test that only [k] passes selects [k]. *)
Lemma filter_only (k : string) (q : string -> bool) (l : list string) :
  NoDup l -> In k l ->
  (forall x, In x l -> q x = true <-> x = k) ->
  filter q l = [k].
Proof.
  induction l as [|y l IH]; intros Hnd Hin Hq; [contradiction|].
  inversion Hnd as [|? ? Hy Hnd']; subst. simpl.
  destruct (q y) eqn:Ey.
  - assert (y = k) as -> by (apply Hq; [now left|exact Ey]).
    f_equal. apply filter_none.
    intros x Hx. destruct (q x) eqn:Ex; [|reflexivity].
    assert (x = k) as -> by (apply Hq; [now right|exact Ex]). contradiction.
  - destruct Hin as [->|Hin].
    + assert (q k = true) by (apply Hq; [now left|reflexivity]). congruence.
    + apply IH; [exact Hnd'|exact Hin|].
      intros x Hx. apply Hq. now right.
Qed.

Fixpoint inb (x : string) (l : list string) : bool :=
  match l with
  | [] => false
  | y :: r => String.eqb x y || inb x r
  end.

Lemma inb_In (x : string) (l : list string) : inb x l = true <-> In x l.
Proof.
  induction l as [|y l IH]; simpl; [split; [discriminate|contradiction]|].
  rewrite orb_true_iff, IH, String.eqb_eq. split; intros [H|H]; auto.
Qed.

(** Deleting the files [ps] one after the other. *)
Definition remove_all (ps : list string) (files : directory) : directory :=
  fold_left (fun fl p => remove p fl) ps files.

Lemma map_fst_remove_all (ps : list string) (files : directory) :
  map fst (remove_all ps files)
  = filter (fun x => negb (inb x ps)) (map fst files).
Proof.
  unfold remove_all. revert files.
  induction ps as [|p ps IH]; intros files; simpl.
  - symmetry. apply filter_true.
  - rewrite IH, map_fst_remove, filter_comm.
    clear IH. induction (map fst files) as [|x l IHl]; simpl; [reflexivity|].
    rewrite (String.eqb_sym x p).
    destruct (inb x ps), (String.eqb p x) eqn:E; simpl; rewrite ?E; simpl;
      now rewrite IHl.
Qed.

Lemma lookup_remove_all (ps : list string) (files : directory) (k : string) :
  ~ In k ps -> lookup k (remove_all ps files) = lookup k files.
Proof.
  unfold remove_all. revert files.
  induction ps as [|p ps IH]; intros files Hk; simpl; [reflexivity|].
  rewrite IH by (intros H; apply Hk; now right).
  apply lookup_remove_other. intros ->. apply Hk. now left.
Qed.

(** ** One pass over the parts of one directory *)

Definition content (files : directory) (p : string) : bytes :=
  match lookup p files with Some d => d | None => "" end.

Lemma append_blob_eta (b : blob) :
  is_append b = true -> b = {| btype := AppendBlob; blocks := blocks b |}.
Proof. destruct b as [[] bl]; simpl; [reflexivity|discriminate|discriminate]. Qed.

Section OnePath.

Variables (F : faults) (blob_path parts_dir : string).
Hypothesis Hread : forall p, read_fails F parts_dir p = false.
Hypothesis Hunlink : forall p, unlink_fails F parts_dir p = false.

Definition rejected (p : string) : bool := append_fails F blob_path p.
Definition accepted (p : string) : bool := negb (rejected p).

Lemma flush_part_rejected (w : world) (n : counts) (files : directory)
    (p : string) (data : bytes) :
  lookup parts_dir (fs w) = Some files ->
  lookup p files = Some data ->
  rejected p = true ->
  flush_part F blob_path parts_dir (w, n) p = (w, add_failed n).
Proof.
  intros Hdir Hfile Hbad. unfold flush_part, rejected in *.
  now rewrite Hread, Hdir, Hfile, Hbad.
Qed.

Lemma flush_part_accepted (w : world) (n : counts) (files : directory)
    (p : string) (data : bytes) (b : blob) :
  lookup parts_dir (fs w) = Some files ->
  lookup p files = Some data ->
  lookup blob_path (remote w) = Some b ->
  is_append b = true ->
  rejected p = false ->
  flush_part F blob_path parts_dir (w, n) p
  = ({| fs := store parts_dir (remove p files) (fs w);
        remote := store blob_path
                    {| btype := AppendBlob; blocks := blocks b ++ [data] |}
                    (remote w);
        stdout := stdout w |}, add_flushed n).
Proof.
  intros Hdir Hfile Hblob Happ Hok. unfold flush_part, rejected in *.
  rewrite Hread, Hdir, Hfile, Hok. unfold append_block.
  rewrite Hblob, Happ, Hunlink. unfold unlink. now rewrite Hdir.
Qed.

(** With reads and deletions working and the blob appendable, a pass
    over [ps] appends the parts whose append is accepted, in the order
    of [ps], deletes exactly those, and counts the others as failed. *)
Lemma fold_flush_part (ps : list string) :
  forall (w : world) (n : counts) (files : directory) (b : blob),
  lookup parts_dir (fs w) = Some files ->
  lookup blob_path (remote w) = Some b ->
  is_append b = true ->
  NoDup ps ->
  (forall p, In p ps -> lookup p files <> None) ->
  exists w',
    fold_left (flush_part F blob_path parts_dir) ps (w, n)
    = (w', (fst n + length (filter accepted ps),
            snd n + length (filter rejected ps)))
    /\ lookup parts_dir (fs w') = Some (remove_all (filter accepted ps) files)
    /\ lookup blob_path (remote w')
       = Some {| btype := AppendBlob;
                 blocks := blocks b ++ map (content files)
                                           (filter accepted ps) |}
    /\ stdout w' = stdout w.
Proof.
  unfold accepted.
  induction ps as [|p ps IH]; intros w n files b Hdir Hblob Happ Hnd Hin.
  - exists w. simpl. rewrite !Nat.add_0_r, app_nil_r, <- append_blob_eta by easy.
    destruct n. auto.
  - inversion Hnd as [|? ? Hp Hnd']; subst.
    destruct (lookup p files) as [data|] eqn:Hfile;
      [|exfalso; apply (Hin p); [now left|exact Hfile]].
    cbn [fold_left filter].
    destruct (rejected p) eqn:Hbad; cbn [negb].
    + rewrite (flush_part_rejected w n files p data Hdir Hfile Hbad).
      destruct (IH w (add_failed n) files b Hdir Hblob Happ Hnd')
        as (w' & Hfold & Hfs & Hrem & Hout).
      { intros q Hq. apply Hin. now right. }
      exists w'. rewrite Hfold. cbn [add_failed fst snd length].
      rewrite Nat.add_succ_r. auto.
    + rewrite (flush_part_accepted w n files p data b Hdir Hfile Hblob Happ
                 Hbad).
      set (b1 := {| btype := AppendBlob; blocks := blocks b ++ [data] |}).
      set (w1 := {| fs := store parts_dir (remove p files) (fs w);
                    remote := store blob_path b1 (remote w);
                    stdout := stdout w |}).
      destruct (IH w1 (add_flushed n) (remove p files) b1)
        as (w' & Hfold & Hfs & Hrem & Hout);
        [apply lookup_store_same|apply lookup_store_same|reflexivity
        |exact Hnd'| |].
      { intros q Hq. rewrite lookup_remove_other; [apply Hin; now right|].
        intros ->. contradiction. }
      exists w'. rewrite Hfold. cbn [add_flushed fst snd length].
      rewrite Nat.add_succ_r. split; [reflexivity|].
      split; [exact Hfs|]. split; [|exact Hout].
      rewrite Hrem. cbn [blocks b1 map]. rewrite <- app_assoc. cbn [app].
      unfold content at 2. rewrite Hfile. do 4 f_equal.
      apply map_ext_in. intros q Hq. unfold content.
      rewrite lookup_remove_other; [reflexivity|].
      intros ->. apply filter_In in Hq. apply Hp, Hq.
Qed.

End OnePath.

(** ** One pass over one target *)

Definition old_blocks (t : string) (c : container) : list bytes :=
  match lookup t c with Some b => blocks b | None => [] end.

(** The target path is free, or holds an append blob. *)
Definition appendable (t : string) (c : container) : bool :=
  match lookup t c with Some b => is_append b | None => true end.

Lemma lookup_remove_same {A} (k : string) (m : list (string * A)) :
  lookup k (remove k m) = None.
Proof.
  unfold remove. induction m as [|[k' a] m IH]; simpl; [reflexivity|].
  destruct (String.eqb k k') eqn:E; simpl; [exact IH|now rewrite E].
Qed.

Lemma list_parts_cleanup (d : string) (s : spool) :
  list_parts d (cleanup_dir d s) = list_parts d s.
Proof.
  unfold cleanup_dir, list_parts.
  destruct (lookup d s) as [[|f fl]|] eqn:E; rewrite ?E; [|reflexivity..].
  now rewrite lookup_remove_same.
Qed.

Lemma lookup_cleanup (d : string) (s : spool) (files : directory) :
  lookup d s = Some files -> files <> [] ->
  lookup d (cleanup_dir d s) = Some files.
Proof.
  intros H Hne. unfold cleanup_dir. rewrite H.
  destruct files; [contradiction|exact H].
Qed.

Section OneTarget.

Variables (F : faults) (t : string).
Let dir := parts_dir_of t.

Hypothesis Ht : t <> "".
Hypothesis Hread : forall p, read_fails F dir p = false.
Hypothesis Hunlink : forall p, unlink_fails F dir p = false.
Hypothesis Hexists : exists_fails F t = false.
Hypothesis Hcreate : create_fails F t = false.

Lemma flush_dir_pass (w : world) (n : counts) (files : directory)
    (p : string) (ps : list string) :
  lookup dir (fs w) = Some files ->
  NoDup (map fst files) ->
  list_parts dir (fs w) = p :: ps ->
  appendable t (remote w) = true ->
  let files' := remove_all (filter (accepted F t) (p :: ps)) files in
  exists w' b',
    flush_dir F (Some t) (w, n) dir
    = (w', (fst n + length (filter (accepted F t) (p :: ps)),
            snd n + length (filter (rejected F t) (p :: ps))))
    /\ list_parts dir (fs w') = sorted (filter is_part (map fst files'))
    /\ (files' <> [] -> lookup dir (fs w') = Some files')
    /\ lookup t (remote w') = Some b'
    /\ is_append b' = true
    /\ blocks b' = (old_blocks t (remote w)
                    ++ map (content files)
                           (filter (accepted F t) (p :: ps)))%list.
Proof.
  intros Hdir Hnd Hparts Happ files'.
  assert (Hperm : Permutation (p :: ps) (filter is_part (map fst files))).
  { rewrite <- Hparts. unfold list_parts. rewrite Hdir. apply sorted_perm. }
  assert (Hnd2 : NoDup (p :: ps)).
  { eapply Permutation_NoDup; [symmetry; exact Hperm|].
    now apply NoDup_filter. }
  assert (Hin : forall q, In q (p :: ps) -> lookup q files <> None).
  { intros q Hq. apply lookup_In.
    eapply Permutation_in in Hq; [|exact Hperm].
    now apply filter_In in Hq. }
  unfold flush_dir.
  destruct (String.eqb_spec t "") as [->|_]; [contradiction|].
  fold dir. rewrite Hparts, Hexists.
  set (c := if blob_exists t (remote w) then Some (remote w)
            else if create_fails F t then None
            else Some (store t empty_append_blob (remote w))).
  assert (Hc : exists c0 b0, c = Some c0 /\ lookup t c0 = Some b0
                             /\ is_append b0 = true
                             /\ blocks b0 = old_blocks t (remote w)).
  { subst c. unfold blob_exists, appendable, old_blocks in *.
    destruct (lookup t (remote w)) as [b0|] eqn:Hb.
    - exists (remote w), b0. auto.
    - rewrite Hcreate. exists (store t empty_append_blob (remote w)),
        empty_append_blob. rewrite lookup_store_same. auto. }
  destruct Hc as (c0 & b0 & -> & Hb0 & Happ0 & Hold).
  destruct (fold_flush_part F t dir Hread Hunlink (p :: ps)
              {| fs := fs w; remote := c0; stdout := stdout w |} n files b0
              Hdir Hb0 Happ0 Hnd2 Hin)
    as (w2 & Hfold & Hfs & Hrem & _).
  rewrite Hfold. eexists. eexists. split; [reflexivity|].
  cbn [fs remote]. split; [|split; [|split; [exact Hrem|split]]].
  - rewrite list_parts_cleanup. unfold list_parts. now rewrite Hfs.
  - intros Hne. now apply lookup_cleanup.
  - reflexivity.
  - cbn [blocks]. now rewrite Hold.
Qed.

End OneTarget.

(** ** The append of the K-th part fails *)

(** Only the append of part [k] fails. *)
Definition fail_append (k : string) : faults :=
  {| mkdir_fails := false;
     exists_fails := fun _ => false;
     create_fails := fun _ => false;
     read_fails := fun _ _ => false;
     append_fails := fun _ p => String.eqb p k;
     unlink_fails := fun _ _ => false |}.

Definition available (E : env) : Prop :=
  conn_str_set E = true /\ sdk_installed E = true /\ client_error E = None.

Lemma flush_spool_target (E : env) (F : faults) (t : string) (w : world) :
  available E -> t <> "" -> mkdir_fails F = false ->
  dir_exists (parts_dir_of t) (fs w) = true ->
  flush_spool E F (Some t) w
  = Ok (snd (flush_dir F (Some t) (w, (0, 0)) (parts_dir_of t)),
        fst (flush_dir F (Some t) (w, (0, 0)) (parts_dir_of t))).
Proof.
  intros (Hc & Hs & He) Ht Hm Hd. unfold flush_spool, parts_dirs.
  rewrite Hc, Hs, He, Hm, Hd. cbn [negb].
  destruct (String.eqb_spec t "") as [->|_]; [contradiction|].
  cbn [fold_left].
  now destruct (flush_dir F (Some t) (w, (0, 0)) (parts_dir_of t)).
Qed.

Lemma filter_all_but (k : string) (l : list string) :
  ~ In k l -> filter (fun p => negb (String.eqb p k)) l = l.
Proof.
  induction l as [|x l IH]; intros Hk; simpl; [reflexivity|].
  destruct (String.eqb_spec x k) as [->|_]; simpl.
  - exfalso. apply Hk. now left.
  - rewrite IH; [reflexivity|]. intros H. apply Hk. now right.
Qed.

Lemma filter_just (k : string) (l : list string) :
  ~ In k l -> filter (fun p => String.eqb p k) l = [].
Proof.
  intros Hk. apply filter_none. intros x Hx.
  destruct (String.eqb_spec x k) as [->|_]; [contradiction|reflexivity].
Qed.

Lemma accepted_but_k (t k : string) (l1 l2 : list string) :
  NoDup (l1 ++ k :: l2) ->
  filter (accepted (fail_append k) t) (l1 ++ k :: l2) = (l1 ++ l2)%list
  /\ filter (rejected (fail_append k) t) (l1 ++ k :: l2) = [k].
Proof.
  intros Hnd. apply NoDup_remove_2 in Hnd.
  assert (H1 : ~ In k l1) by (intros H; apply Hnd, in_or_app; now left).
  assert (H2 : ~ In k l2) by (intros H; apply Hnd, in_or_app; now right).
  unfold accepted, rejected. cbn [fail_append append_fails].
  rewrite !filter_app. cbn [filter]. rewrite String.eqb_refl. cbn [negb].
  now rewrite !filter_all_but, !filter_just by assumption.
Qed.

(** C2, as stated, fails: of two parts, the append of the first fails;
    the second is uploaded and deleted all the same, and only the first
    stays on disk. *)
Lemma later_parts_still_uploaded :
  flush_spool ready (fail_append "20240101T000000_aa.jsonl.part")
    (Some "bronze/pve/nodes.jsonl")
    {| fs := [("bronze/pve/nodes.jsonl.parts",
               [("20240101T000000_aa.jsonl.part", "{1}");
                ("20240101T000001_bb.jsonl.part", "{2}")])];
       remote := []; stdout := [] |}
  = Ok ((1, 1),
        {| fs := [("bronze/pve/nodes.jsonl.parts",
                   [("20240101T000000_aa.jsonl.part", "{1}")])];
           remote := [("bronze/pve/nodes.jsonl",
                       {| btype := AppendBlob; blocks := ["{2}"] |})];
           stdout := [] |}).
Proof. reflexivity. Qed.

(** C2, amended. One target holds the parts [l1 ++ k :: l2] in sorted
    name order; the append of [k] fails and nothing else does. Then the
    pass answers [(N - 1, 1)]: every part but [k] is appended, in the
    sorted order, and deleted; only [k] is left in the directory. A
    second pass in which nothing fails appends exactly [k] and leaves no
    part behind, so [k] ends up after the parts that followed it. *)
Theorem kth_append_failure (E : env) (t : string) (w : world)
    (files : directory) (l1 l2 : list string) (k : string) :
  available E ->
  t <> "" ->
  lookup (parts_dir_of t) (fs w) = Some files ->
  NoDup (map fst files) ->
  list_parts (parts_dir_of t) (fs w) = (l1 ++ k :: l2)%list ->
  appendable t (remote w) = true ->
  exists w1 b1,
    flush_spool E (fail_append k) (Some t) w
    = Ok ((length l1 + length l2, 1), w1)
    /\ list_parts (parts_dir_of t) (fs w1) = [k]
    /\ lookup t (remote w1) = Some b1
    /\ blocks b1 = (old_blocks t (remote w)
                    ++ map (content files) (l1 ++ l2))%list
    /\ exists w2 b2,
         flush_spool E no_faults (Some t) w1 = Ok ((1, 0), w2)
         /\ list_parts (parts_dir_of t) (fs w2) = []
         /\ lookup t (remote w2) = Some b2
         /\ blocks b2 = (old_blocks t (remote w)
                         ++ map (content files) (l1 ++ l2)
                         ++ [content files k])%list.
Proof.
  intros HE Ht Hdir Hnd Hparts Happ.
  set (dir := parts_dir_of t) in *.
  set (L := filter is_part (map fst files)).
  assert (Hperm : Permutation (l1 ++ k :: l2)%list L).
  { rewrite <- Hparts. unfold list_parts. rewrite Hdir. apply sorted_perm. }
  assert (HndL : NoDup L) by now apply NoDup_filter.
  assert (Hnd2 : NoDup (l1 ++ k :: l2)%list).
  { eapply Permutation_NoDup; [symmetry; exact Hperm|exact HndL]. }
  assert (Hk : ~ In k (l1 ++ l2)%list) by now apply NoDup_remove_2.
  destruct (accepted_but_k t k l1 l2 Hnd2) as [Hacc Hrej].
  (* what is left after the first pass *)
  set (files1 := remove_all (l1 ++ l2)%list files).
  assert (Hleft : filter is_part (map fst files1) = [k]).
  { unfold files1. rewrite map_fst_remove_all, filter_comm. fold L.
    apply filter_only; [exact HndL| |].
    - eapply Permutation_in; [exact Hperm|]. apply in_elt.
    - intros x Hx. rewrite negb_true_iff. split.
      + intros Hnot. apply Permutation_in with (l' := (l1 ++ k :: l2)%list) in Hx;
          [|now symmetry].
        apply in_app_or in Hx. destruct Hx as [Hx|[Hx|Hx]]; [|now subst|].
        * assert (inb x (l1 ++ l2)%list = true)
            by (apply inb_In, in_or_app; now left). congruence.
        * assert (inb x (l1 ++ l2)%list = true)
            by (apply inb_In, in_or_app; now right). congruence.
      + intros ->. destruct (inb k (l1 ++ l2)%list) eqn:Eb; [|reflexivity].
        apply inb_In in Eb. contradiction. }
  assert (Hkfile : lookup k files1 = lookup k files)
    by (apply lookup_remove_all; exact Hk).
  assert (Hkin : lookup k files <> None).
  { apply lookup_In. eapply Permutation_in in Hperm; [|apply in_elt].
    now apply filter_In in Hperm. }
  assert (Hne1 : files1 <> []).
  { intros Heq. rewrite Heq in Hkfile. simpl in Hkfile. congruence. }
  (* first pass *)
  assert (Hexists : dir_exists dir (fs w) = true)
    by (unfold dir_exists; now rewrite Hdir).
  rewrite (flush_spool_target E (fail_append k) t w HE Ht eq_refl Hexists).
  destruct (l1 ++ k :: l2)%list as [|p ps] eqn:Epp;
    [now destruct l1|].
  destruct (flush_dir_pass (fail_append k) t Ht (fun _ => eq_refl)
              (fun _ => eq_refl) eq_refl eq_refl w (0, 0) files p ps
              Hdir Hnd Hparts Happ)
    as (w1 & b1 & Hrun & Hlist & Hfs & Hb1 & Happ1 & Hbl1).
  rewrite Hacc, Hrej in Hrun. rewrite Hacc in Hlist, Hfs, Hbl1.
  fold files1 in Hlist, Hfs.
  rewrite Hleft in Hlist. cbn in Hlist.
  specialize (Hfs Hne1).
  exists w1, b1. unfold dir in *. rewrite Hrun.
  cbn [fst snd length Nat.add].
  rewrite length_app. split; [reflexivity|].
  split; [exact Hlist|]. split; [exact Hb1|]. split; [exact Hbl1|].
  (* second pass *)
  assert (Hexists1 : dir_exists (parts_dir_of t) (fs w1) = true)
    by (unfold dir_exists; now rewrite Hfs).
  rewrite (flush_spool_target E no_faults t w1 HE Ht eq_refl Hexists1).
  assert (Hnd1 : NoDup (map fst files1)).
  { unfold files1. rewrite map_fst_remove_all. now apply NoDup_filter. }
  assert (Happ1' : appendable t (remote w1) = true)
    by (unfold appendable; now rewrite Hb1).
  destruct (flush_dir_pass no_faults t Ht (fun _ => eq_refl)
              (fun _ => eq_refl) eq_refl eq_refl w1 (0, 0) files1 k []
              Hfs Hnd1 Hlist Happ1')
    as (w2 & b2 & Hrun2 & Hlist2 & _ & Hb2 & _ & Hbl2).
  exists w2, b2. rewrite Hrun2. split; [reflexivity|].
  split; [|split; [exact Hb2|]].
  - rewrite Hlist2. cbn [filter accepted rejected no_faults append_fails negb].
    rewrite map_fst_remove_all, filter_comm, Hleft. cbn.
    now rewrite String.eqb_refl.
  - rewrite Hbl2. unfold old_blocks at 1. rewrite Hb1, Hbl1.
    cbn [filter accepted rejected no_faults append_fails negb map].
    unfold content at 2. rewrite Hkfile. fold (content files k).
    now rewrite <- app_assoc.
Qed.

Lemma kth_append_failure_witness :
  exists w1 b1,
    flush_spool ready (fail_append "20240101T000001_bb.jsonl.part")
                (Some "bronze/pve/nodes.jsonl") waiting
    = Ok ((2, 1), w1)
    /\ list_parts "bronze/pve/nodes.jsonl.parts" (fs w1)
       = ["20240101T000001_bb.jsonl.part"]
    /\ lookup "bronze/pve/nodes.jsonl" (remote w1) = Some b1
    /\ blocks b1 = ["{1}"; "{3}"]
    /\ exists w2 b2,
         flush_spool ready no_faults (Some "bronze/pve/nodes.jsonl") w1
         = Ok ((1, 0), w2)
         /\ list_parts "bronze/pve/nodes.jsonl.parts" (fs w2) = []
         /\ lookup "bronze/pve/nodes.jsonl" (remote w2) = Some b2
         /\ blocks b2 = ["{1}"; "{3}"; "{2}"].
Proof.
  apply (kth_append_failure ready "bronze/pve/nodes.jsonl" waiting
           [("20240101T000000_aa.jsonl.part", "{1}");
            ("20240101T000001_bb.jsonl.part", "{2}");
            ("20240101T000002_cc.jsonl.part", "{3}")]
           ["20240101T000000_aa.jsonl.part"]
           ["20240101T000002_cc.jsonl.part"]
           "20240101T000001_bb.jsonl.part").
  - repeat split; reflexivity.
  - discriminate.
  - reflexivity.
  - repeat constructor; simpl; intuition discriminate.
  - reflexivity.
  - reflexivity.
Defined.

(** ** Suffixes *)

Lemma length_append (a b : string) :
  String.length (a ++ b) = String.length a + String.length b.
Proof. induction a as [|c a IH]; simpl; [reflexivity|now rewrite IH]. Qed.

Lemma append_cancel_r (a b c : string) : a ++ c = b ++ c -> a = b.
Proof.
  revert b. induction a as [|x a IH]; intros [|y b] H; simpl in H.
  - reflexivity.
  - apply (f_equal String.length) in H. simpl in H.
    rewrite length_append in H. lia.
  - apply (f_equal String.length) in H. simpl in H.
    rewrite length_append in H. lia.
  - injection H as -> H. f_equal. now apply IH.
Qed.

Lemma ends_with_iff (suf s : string) :
  Str.ends_with suf s = true <-> exists pre, s = pre ++ suf.
Proof.
  induction s as [|c s IH]; cbn [Str.ends_with].
  - destruct (String.eqb_spec "" suf) as [<-|Hne].
    + split; [now exists ""|reflexivity].
    + split; [intros H; discriminate H|]. intros [[|x pre] H]; simpl in H;
        [congruence|discriminate].
  - destruct (String.eqb_spec (String c s) suf) as [<-|Hne].
    + split; [now exists ""|reflexivity].
    + rewrite IH. split.
      * intros [pre ->]. now exists (String c pre).
      * intros [[|x pre] H]; simpl in H; [congruence|].
        injection H as -> ->. now exists pre.
Qed.

Lemma removesuffix_append (suf p : string) :
  Str.removesuffix suf (p ++ suf) = p.
Proof.
  induction p as [|c p IH]; cbn [append Str.removesuffix].
  - destruct suf; cbn [Str.removesuffix]; now rewrite String.eqb_refl.
  - destruct (String.eqb_spec (String c (p ++ suf)) suf) as [H|_].
    + apply (f_equal String.length) in H. simpl in H.
      rewrite length_append in H. lia.
    + now rewrite IH.
Qed.

Lemma parts_dir_matches (blob_path : string) :
  is_parts_dir (parts_dir_of blob_path) = Str.ends_with ".jsonl" blob_path.
Proof.
  unfold is_parts_dir, parts_dir_of.
  apply eq_true_iff_eq. rewrite !ends_with_iff. split.
  - intros [pre H]. exists pre.
    apply (append_cancel_r _ _ ".parts"). now rewrite Str.append_assoc.
  - intros [pre ->]. exists pre. now rewrite Str.append_assoc.
Qed.

Lemma blob_path_recovered (blob_path : string) :
  Str.removesuffix ".parts" (parts_dir_of blob_path) = blob_path.
Proof. apply removesuffix_append. Qed.

Lemma dir_exists_after_write (blob_path stamp uid : string) (line : bytes)
    (s : spool) :
  In (parts_dir_of blob_path)
     (map fst (write_to_spool blob_path stamp uid line s)).
Proof.
  apply lookup_In. unfold write_to_spool, write_file, mkdir, dir_exists.
  destruct (lookup (parts_dir_of blob_path) s) as [files|] eqn:E.
  - rewrite E, lookup_store_same. discriminate.
  - rewrite !lookup_store_same. discriminate.
Qed.

(** ** A pass over one directory leaves the others alone *)

Definition blob_of (target_path : option string) (parts_dir : string)
  : string :=
  match target_path with
  | Some t => if String.eqb t "" then Str.removesuffix ".parts" parts_dir
              else t
  | None => Str.removesuffix ".parts" parts_dir
  end.

Definition same_elsewhere (d b : string) (w w' : world) : Prop :=
  (forall d0, d0 <> d -> lookup d0 (fs w') = lookup d0 (fs w))
  /\ (forall b0, b0 <> b -> lookup b0 (remote w') = lookup b0 (remote w)).

Lemma same_elsewhere_refl (d b : string) (w : world) : same_elsewhere d b w w.
Proof. now split. Qed.

Lemma same_elsewhere_trans (d b : string) (w1 w2 w3 : world) :
  same_elsewhere d b w1 w2 -> same_elsewhere d b w2 w3 ->
  same_elsewhere d b w1 w3.
Proof.
  intros [H1 H2] [H3 H4]. split; intros x Hx.
  - now rewrite H3, H1.
  - now rewrite H4, H2.
Qed.

Lemma flush_part_frame (F : faults) (b d : string) (w : world) (n : counts)
    (p : string) :
  same_elsewhere d b w (fst (flush_part F b d (w, n) p)).
Proof.
  unfold flush_part.
  destruct (read_fails F d p); [apply same_elsewhere_refl|].
  destruct (lookup d (fs w)) as [files|] eqn:Hd; [|apply same_elsewhere_refl].
  destruct (lookup p files); [|apply same_elsewhere_refl].
  destruct (append_fails F b p); [apply same_elsewhere_refl|].
  unfold append_block.
  destruct (lookup b (remote w)) as [bl|]; [|apply same_elsewhere_refl].
  destruct (is_append bl); [|apply same_elsewhere_refl].
  destruct (unlink_fails F d p); split; cbn [fst fs remote]; intros x Hx;
    try reflexivity; try (now apply lookup_store_other).
  unfold unlink. rewrite Hd. now apply lookup_store_other.
Qed.

Lemma fold_flush_part_frame (F : faults) (b d : string) (ps : list string) :
  forall (w : world) (n : counts),
  same_elsewhere d b w (fst (fold_left (flush_part F b d) ps (w, n))).
Proof.
  induction ps as [|p ps IH]; intros w n; cbn [fold_left].
  - apply same_elsewhere_refl.
  - pose proof (flush_part_frame F b d w n p) as H1.
    destruct (flush_part F b d (w, n) p) as [w1 n1].
    eapply same_elsewhere_trans; [exact H1|apply IH].
Qed.

Lemma cleanup_frame (d : string) (w : world) (c : container)
    (out : list string) (b : string) :
  same_elsewhere d b w
    {| fs := cleanup_dir d (fs w); remote := remote w; stdout := out |}.
Proof.
  split; cbn [fs remote]; intros x Hx; [|reflexivity].
  unfold cleanup_dir. destruct (lookup d (fs w)) as [[|f fl]|]; try reflexivity.
  now apply lookup_remove_other.
Qed.

Lemma flush_dir_frame (F : faults) (target_path : option string) (w : world)
    (n : counts) (d : string) :
  same_elsewhere d (blob_of target_path d) w
    (fst (flush_dir F target_path (w, n) d)).
Proof.
  unfold flush_dir. fold (blob_of target_path d).
  set (b := blob_of target_path d).
  destruct (list_parts d (fs w)) as [|p ps].
  - apply (cleanup_frame d w (remote w)).
  - destruct (exists_fails F b); [apply same_elsewhere_refl|].
    set (c := if blob_exists b (remote w) then Some (remote w)
              else if create_fails F b then None
              else Some (store b empty_append_blob (remote w))).
    assert (Hc : match c with
                 | Some c0 => forall b0, b0 <> b ->
                                lookup b0 c0 = lookup b0 (remote w)
                 | None => True
                 end).
    { subst c. destruct (blob_exists b (remote w)); [reflexivity|].
      destruct (create_fails F b); [exact I|].
      intros b0 Hb0. now apply lookup_store_other. }
    destruct c as [c0|]; [|apply same_elsewhere_refl].
    pose proof (fold_flush_part_frame F b d (p :: ps)
                  {| fs := fs w; remote := c0; stdout := stdout w |} n) as H.
    destruct (fold_left (flush_part F b d) (p :: ps)
                ({| fs := fs w; remote := c0; stdout := stdout w |}, n))
      as [w2 n2].
    cbn [fst] in *. destruct H as [H1 H2]. cbn [fs remote] in *.
    split; cbn [fs remote]; intros x Hx.
    + rewrite <- H1 by exact Hx. unfold cleanup_dir.
      destruct (lookup d (fs w2)) as [[|f fl]|]; try reflexivity.
      now apply lookup_remove_other.
    + rewrite H2 by exact Hx. now apply Hc.
Qed.

(** A sweep over directories other than [d], none of which feeds the
    blob [b], changes neither [d] nor [b]. *)
Lemma sweep_frame (F : faults) (d b : string) (l : list string) :
  forall (w : world) (n : counts),
  (forall d', In d' l -> d' <> d /\ Str.removesuffix ".parts" d' <> b) ->
  lookup d (fs (fst (fold_left (flush_dir F None) l (w, n))))
  = lookup d (fs w)
  /\ lookup b (remote (fst (fold_left (flush_dir F None) l (w, n))))
     = lookup b (remote w).
Proof.
  induction l as [|d' l IH]; intros w n Hl; cbn [fold_left]; [now split|].
  pose proof (flush_dir_frame F None w n d') as [H1 H2].
  destruct (flush_dir F None (w, n) d') as [w1 n1]. cbn [fst] in *.
  destruct (Hl d' (or_introl eq_refl)) as [Hd Hb].
  destruct (IH w1 n1) as [H3 H4]; [intros x Hx; apply Hl; now right|].
  rewrite H3, H4. split; [apply H1|apply H2]; cbn [blob_of]; congruence.
Qed.

(** ** The full sweep *)

Lemma list_parts_ext (d : string) (s s' : spool) :
  lookup d s = lookup d s' -> list_parts d s = list_parts d s'.
Proof. unfold list_parts. now intros ->. Qed.

Lemma flush_dir_untargeted (F : faults) (t : string) (acc : world * counts) :
  flush_dir F None acc (parts_dir_of t)
  = flush_dir F (Some t) acc (parts_dir_of t).
Proof.
  unfold flush_dir. rewrite blob_path_recovered.
  destruct (String.eqb_spec t "") as [->|_]; reflexivity.
Qed.

Lemma parts_dir_shape (d : string) :
  is_parts_dir d = true -> d = parts_dir_of (Str.removesuffix ".parts" d).
Proof.
  unfold is_parts_dir, parts_dir_of. intros H.
  apply ends_with_iff in H. destruct H as [pre ->].
  change ".jsonl.parts" with (".jsonl" ++ ".parts").
  now rewrite <- Str.append_assoc, removesuffix_append.
Qed.

Lemma filter_everything (l L : list string) :
  (forall x, In x L -> In x l) ->
  filter (fun x => negb (inb x l)) L = [].
Proof.
  intros H. apply filter_none. intros x Hx.
  apply H, inb_In in Hx. now rewrite Hx.
Qed.

Lemma sweep_flushes_directory (E : env) (w : world) (t : string)
    (files : directory) (p : string) (ps : list string) :
  available E ->
  Str.ends_with ".jsonl" t = true ->
  NoDup (map fst (fs w)) ->
  lookup (parts_dir_of t) (fs w) = Some files ->
  NoDup (map fst files) ->
  list_parts (parts_dir_of t) (fs w) = p :: ps ->
  appendable t (remote w) = true ->
  exists n w' b',
    flush_spool E no_faults None w = Ok (n, w')
    /\ list_parts (parts_dir_of t) (fs w') = []
    /\ lookup t (remote w') = Some b'
    /\ blocks b' = (old_blocks t (remote w)
                    ++ map (content files) (p :: ps))%list.
Proof.
  intros (Hc & Hs & He) Hsuf HndS Hdir Hnd Hparts Happ.
  set (d := parts_dir_of t) in *.
  assert (Ht : t <> "") by (intros ->; discriminate Hsuf).
  assert (HinD : In d (parts_dirs None (fs w))).
  { apply filter_In. split.
    - apply lookup_In. rewrite Hdir. discriminate.
    - unfold d. now rewrite parts_dir_matches. }
  assert (HndD : NoDup (parts_dirs None (fs w))) by now apply NoDup_filter.
  destruct (in_split _ _ HinD) as (A & B & HD).
  rewrite HD in HndD.
  assert (Hother : forall d', In d' (A ++ B)%list ->
            d' <> d /\ Str.removesuffix ".parts" d' <> t).
  { intros d' Hd'. assert (Hne : d' <> d).
    { intros ->. now apply NoDup_remove_2 in HndD. }
    split; [exact Hne|]. intros Heq. apply Hne.
    assert (Hin' : In d' (parts_dirs None (fs w))).
    { rewrite HD. apply in_app_or in Hd'. apply in_or_app.
      destruct Hd'; [now left|right; now right]. }
    apply filter_In in Hin'. destruct Hin' as [_ Hshape].
    apply parts_dir_shape in Hshape. now rewrite Hshape, Heq. }
  unfold flush_spool. rewrite Hc, Hs, He. cbn [negb].
  change (mkdir_fails no_faults) with false. cbv iota.
  rewrite HD, fold_left_app. cbn [fold_left].
  destruct (sweep_frame no_faults d t A w (0, 0)) as [HA1 HA2].
  { intros d' Hd'. apply Hother, in_or_app. now left. }
  destruct (fold_left (flush_dir no_faults None) A (w, (0, 0)))
    as [wA nA] eqn:EA.
  cbn [fst] in HA1, HA2.
  unfold d at 1. rewrite flush_dir_untargeted. fold d.
  destruct (flush_dir_pass no_faults t Ht (fun _ => eq_refl)
              (fun _ => eq_refl) eq_refl eq_refl wA nA files p ps)
    as (w1 & b1 & Hrun & Hlist & _ & Hb1 & _ & Hbl1).
  { fold d. now rewrite HA1. }
  { exact Hnd. }
  { fold d. rewrite <- Hparts. now apply list_parts_ext. }
  { unfold appendable in *. now rewrite HA2. }
  fold d in Hrun, Hlist. rewrite Hrun.
  destruct (sweep_frame no_faults d t B w1
              (fst nA + length (filter (accepted no_faults t) (p :: ps)),
               snd nA + length (filter (rejected no_faults t) (p :: ps))))
    as [HB1 HB2].
  { intros d' Hd'. apply Hother, in_or_app. now right. }
  destruct (fold_left (flush_dir no_faults None) B _) as [w' n'] eqn:EB.
  cbn [fst] in HB1, HB2.
  exists n', w', b1. split; [reflexivity|].
  assert (Hall : filter (accepted no_faults t) (p :: ps) = p :: ps).
  { apply forallb_filter_id, forallb_forall. reflexivity. }
  rewrite Hall in *.
  split; [|split].
  - rewrite (list_parts_ext d (fs w') (fs w1) HB1), Hlist.
    rewrite map_fst_remove_all, filter_comm, filter_everything; [reflexivity|].
    intros x Hx. rewrite <- Hparts. unfold list_parts. rewrite Hdir.
    eapply Permutation_in; [symmetry; apply sorted_perm|exact Hx].
  - now rewrite HB2.
  - rewrite Hbl1. unfold old_blocks. now rewrite HA2.
Qed.

(** ** A blob of another type at the target path *)

Lemma flush_part_mismatch (F : faults) (t dir : string) (w : world)
    (n : counts) (b : blob) (part : string) :
  lookup t (remote w) = Some b -> is_append b = false ->
  flush_part F t dir (w, n) part = (w, add_failed n).
Proof.
  intros Hb Hna. unfold flush_part.
  destruct (read_fails F dir part); [reflexivity|].
  destruct (lookup dir (fs w)) as [files|]; [|reflexivity].
  destruct (lookup part files) as [data|]; [|reflexivity].
  destruct (append_fails F t part); [reflexivity|].
  unfold append_block. now rewrite Hb, Hna.
Qed.

Lemma flush_parts_mismatch (F : faults) (t dir : string) (w : world)
    (b : blob) (parts : list string) (n : counts) :
  lookup t (remote w) = Some b -> is_append b = false ->
  fold_left (flush_part F t dir) parts (w, n)
  = (w, (fst n, snd n + length parts)).
Proof.
  intros Hb Hna. revert n.
  induction parts as [|part parts IH]; intros n; cbn [fold_left length].
  - rewrite Nat.add_0_r. now destruct n.
  - rewrite (flush_part_mismatch F t dir w n b part Hb Hna), IH.
    unfold add_failed. cbn [fst snd]. f_equal. f_equal. lia.
Qed.

Lemma cleanup_dir_with_parts (d : string) (s : spool) (p : string)
    (ps : list string) :
  list_parts d s = p :: ps -> cleanup_dir d s = s.
Proof.
  unfold list_parts, cleanup_dir.
  destruct (lookup d s) as [[|f files]|]; [discriminate|reflexivity|reflexivity].
Qed.

(** The number of failures a directory pass reports for a blob it
    cannot append to: one when the existence check itself fails, one
    for each waiting part otherwise. *)
Definition mismatch_failures (F : faults) (t : string) (parts : list string) : nat :=
  if exists_fails F t then 1 else length parts.

Lemma flush_dir_mismatch (F : faults) (target_path : option string)
    (t dir : string) (w : world) (n : counts) (b : blob) (p : string)
    (ps : list string) :
  blob_of target_path dir = t ->
  lookup t (remote w) = Some b -> is_append b = false ->
  list_parts dir (fs w) = p :: ps ->
  flush_dir F target_path (w, n) dir
  = (w, (fst n, snd n + mismatch_failures F t (p :: ps))).
Proof.
  intros Ht Hb Hna Hparts. unfold flush_dir, mismatch_failures.
  fold (blob_of target_path dir). rewrite Ht, Hparts.
  destruct (exists_fails F t).
  - unfold add_failed. now rewrite Nat.add_1_r.
  - unfold blob_exists. rewrite Hb.
    replace {| fs := fs w; remote := remote w; stdout := stdout w |}
      with w by now destruct w.
    rewrite (flush_parts_mismatch F t dir w b (p :: ps) n Hb Hna).
    rewrite (cleanup_dir_with_parts _ _ _ _ Hparts). now destruct w.
Qed.


(** One part waiting, and a block blob at its target path. *)
Definition block_blob_there : world :=
  {| fs := fs one_part;
     remote := [("bronze/pve/nodes.jsonl",
                 {| btype := BlockBlob; blocks := ["old"] |})];
     stdout := [] |}.


(** ** What write_to_spool creates *)

(** Names are unique in a file system. *)
Definition well_formed (s : spool) : Prop :=
  NoDup (map fst s)
  /\ forall d files, lookup d s = Some files -> NoDup (map fst files).

Lemma map_fst_store {A} (k : string) (a : A) (m : list (string * A)) :
  map fst (store k a m)
  = match lookup k m with
    | Some _ => map fst m
    | None => (map fst m ++ [k])%list
    end.
Proof.
  induction m as [|[k' a'] m IH]; simpl; [reflexivity|].
  destruct (String.eqb k k'); simpl; [reflexivity|].
  rewrite IH. now destruct (lookup k m).
Qed.

Lemma NoDup_store {A} (k : string) (a : A) (m : list (string * A)) :
  NoDup (map fst m) -> NoDup (map fst (store k a m)).
Proof.
  intros H. rewrite map_fst_store.
  destruct (lookup k m) eqn:E; [exact H|].
  apply NoDup_app; [exact H|repeat constructor; intros []|].
  intros x Hx [<-|[]]. apply lookup_In in Hx. contradiction.
Qed.

Lemma part_name_is_part (stamp uid : string) :
  is_part (part_name stamp uid) = true.
Proof.
  apply ends_with_iff. exists (stamp ++ "_" ++ uid).
  unfold part_name. now rewrite !Str.append_assoc.
Qed.

Lemma written_directory (t stamp uid : string) (line : bytes) (s : spool) :
  well_formed s ->
  exists files,
    lookup (parts_dir_of t) (write_to_spool t stamp uid line s) = Some files
    /\ NoDup (map fst files)
    /\ lookup (part_name stamp uid) files = Some line
    /\ NoDup (map fst (write_to_spool t stamp uid line s)).
Proof.
  intros [Hs Hf]. unfold write_to_spool, write_file, mkdir, dir_exists.
  destruct (lookup (parts_dir_of t) s) as [files|] eqn:E.
  - rewrite E. eexists. rewrite lookup_store_same. split; [reflexivity|].
    split; [apply NoDup_store, (Hf _ _ E)|].
    split; [apply lookup_store_same|now apply NoDup_store].
  - rewrite lookup_store_same, store_store. eexists.
    rewrite lookup_store_same. split; [reflexivity|].
    split; [repeat constructor; intros []|].
    split; [cbn; now rewrite String.eqb_refl|now apply NoDup_store].
Qed.

(** ** Paths in normal form *)

Fixpoint no_slash (s : string) : bool :=
  match s with
  | EmptyString => true
  | String c r => negb (Ascii.eqb c "/"%char) && no_slash r
  end.

Lemma split_slash_cons (p : string) :
  exists x xs, split_slash p = x :: xs.
Proof.
  destruct p as [|c r]; cbn [split_slash]; [now eexists _, _|].
  destruct (Ascii.eqb c "/"); [now eexists _, _|].
  destruct (split_slash r); now eexists _, _.
Qed.

Lemma join_slash_cons (x y : string) (l : list string) :
  join_slash (x :: y :: l) = x ++ "/" ++ join_slash (y :: l).
Proof. reflexivity. Qed.

Lemma join_split (p : string) : join_slash (split_slash p) = p.
Proof.
  induction p as [|c r IH]; [reflexivity|]. cbn [split_slash].
  destruct (split_slash_cons r) as (x & xs & E). rewrite E in *.
  destruct (Ascii.eqb_spec c "/"%char) as [->|Hc].
  - now rewrite join_slash_cons, IH.
  - destruct xs as [|y ys].
    + cbn [join_slash] in *. now rewrite IH.
    + rewrite join_slash_cons in *. now rewrite <- IH.
Qed.

Lemma split_slash_append (p suffix : string) :
  no_slash suffix = true -> suffix <> "" ->
  exists pre x,
    split_slash p = (pre ++ [x])%list
    /\ split_slash (p ++ suffix) = (pre ++ [(x ++ suffix)%string])%list.
Proof.
  intros Hns Hne. induction p as [|c r IH].
  - exists [], "". split; [reflexivity|]. cbn [String.append app].
    clear Hne. induction suffix as [|a s IHs]; [reflexivity|].
    cbn [no_slash] in Hns. apply andb_true_iff in Hns. destruct Hns as [Ha Hs].
    cbn [split_slash]. apply negb_true_iff in Ha. rewrite Ha.
    now rewrite (IHs Hs).
  - destruct IH as (pre & x & E1 & E2). cbn [String.append split_slash].
    rewrite E1, E2. destruct (Ascii.eqb c "/").
    + exists ("" :: pre), x. split; reflexivity.
    + destruct pre as [|y pre]; cbn [app].
      * exists [], (String c x). split; reflexivity.
      * exists (String c y :: pre), x. split; reflexivity.
Qed.

(** pathlib leaves the directory of a blob path in normal form as it is
    written: [root / f"{t}.parts"] is the path [t.parts] below the root,
    and [str(parts_dir.relative_to(root))] gives [t.parts] back. *)
Lemma normal_path_kept (t : string) :
  normal_path t = true -> pure_path (parts_dir_of t) = parts_dir_of t.
Proof.
  unfold normal_path, pure_path, parts_dir_of. intros Hn.
  assert (Hrel : String.prefix "/" (t ++ ".parts") = false).
  { destruct t as [|c r]; [discriminate|]. cbn [split_slash] in Hn.
    cbn [String.append String.prefix].
    destruct (ascii_dec "/" c) as [<-|_]; [|reflexivity].
    cbn [Ascii.eqb Bool.eqb forallb stays String.eqb negb andb] in Hn.
    discriminate. }
  assert (Hrel2 : String.prefix "//" (t ++ ".parts") = false).
  { revert Hrel. generalize (t ++ ".parts"). intros [|c r]; [reflexivity|].
    cbn [String.prefix]. destruct (ascii_dec "/" c); [|reflexivity].
    now destruct r. }
  rewrite Hrel, Hrel2. cbn [andb].
  destruct (split_slash_append t ".parts" eq_refl ltac:(discriminate))
    as (pre & x & E1 & E2).
  rewrite E1, forallb_app in Hn. apply andb_true_iff in Hn.
  destruct Hn as [Hpre _].
  assert (Hall : filter stays (split_slash (t ++ ".parts"))
                 = split_slash (t ++ ".parts")).
  { rewrite E2. rewrite filter_app.
    assert (Hf : filter stays pre = pre).
    { clear E1 E2. induction pre as [|y pre IH]; [reflexivity|].
      cbn [forallb] in Hpre. apply andb_true_iff in Hpre.
      destruct Hpre as [Hy Hpre]. apply andb_true_iff in Hy.
      destruct Hy as [Hy _]. cbn [filter]. rewrite Hy. now rewrite IH. }
    rewrite Hf. f_equal. cbn [filter].
    assert (Hx : stays (x ++ ".parts") = true).
    { unfold stays. destruct x as [|a [|b x]]; cbn; try reflexivity;
        now destruct (Ascii.eqb a "."). }
    now rewrite Hx. }
  rewrite Hall. rewrite <- (join_split (t ++ ".parts")) at 2.
  destruct (split_slash_cons (t ++ ".parts")) as (y & ys & E). now rewrite E.
Qed.

(** C9, as stated, fails: a record spooled under a target path that
    does not end in [.jsonl] sits in a directory the sweep's pattern
    [*.jsonl.parts] does not match; the sweep answers [(0, 0)] and the
    part stays, while a flush naming the target uploads it. *)
Lemma sweep_misses_other_targets :
  let w := {| fs := write_to_spool "bronze/pve/nodes" "20240101T000000"
                      "aa" "{1}" [];
              remote := []; stdout := [] |} in
  fs w = [("bronze/pve/nodes.parts",
           [("20240101T000000_aa.jsonl.part", "{1}")])]
  /\ parts_dirs None (fs w) = []
  /\ flush_spool ready no_faults None w = Ok ((0, 0), w)
  /\ flush_spool ready no_faults (Some "bronze/pve/nodes") w
     = Ok ((1, 0),
           {| fs := [];
              remote := [("bronze/pve/nodes",
                          {| btype := AppendBlob; blocks := ["{1}"] |})];
              stdout := [] |}).
Proof. repeat split. Qed.

(** C9, amended. [flush_spool] without a target visits exactly the
    directories under the spool root whose name ends in [.jsonl.parts].
    For a target path in normal form (relative, with no empty, [.] or
    [..] component) the directory [write_to_spool] creates is the path
    followed by [.parts] below the root; it is among the directories
    visited exactly when the path ends in [.jsonl], and then the sweep,
    with the store reachable and nothing failing, appends the written
    record to the blob of that very path and leaves no part in the
    directory. *)
Theorem sweep_covers_jsonl_targets (E : env) (s : spool) (c : container)
    (out : list string) (t stamp uid : string) (line : bytes) :
  available E ->
  well_formed s ->
  appendable t c = true ->
  normal_path t = true ->
  let w := {| fs := write_to_spool t stamp uid line s; remote := c;
              stdout := out |} in
  pure_path (parts_dir_of t) = parts_dir_of t
  /\ (In (parts_dir_of t) (parts_dirs None (fs w))
   <-> Str.ends_with ".jsonl" t = true)
  /\ (Str.ends_with ".jsonl" t = true ->
      exists n w' b',
        flush_spool E no_faults None w = Ok (n, w')
        /\ list_parts (parts_dir_of t) (fs w') = []
        /\ lookup t (remote w') = Some b'
        /\ In line (blocks b')).
Proof.
  intros HE Hwf Happ Hnormal w.
  destruct (written_directory t stamp uid line s Hwf)
    as (files & Hdir & Hnd & Hline & HndS).
  split; [now apply normal_path_kept|]. split.
  - unfold parts_dirs. rewrite filter_In, parts_dir_matches. cbn [fs w].
    split; [now intros [_ H]|]. intros H. split; [|exact H].
    apply dir_exists_after_write.
  - intros Hsuf.
    assert (Hin : In (part_name stamp uid) (list_parts (parts_dir_of t) (fs w))).
    { unfold list_parts. cbn [fs w]. rewrite Hdir.
      eapply Permutation_in; [symmetry; apply sorted_perm|].
      apply filter_In. split; [|apply part_name_is_part].
      apply lookup_In. rewrite Hline. discriminate. }
    destruct (list_parts (parts_dir_of t) (fs w)) as [|p ps] eqn:Hparts;
      [contradiction|].
    destruct (sweep_flushes_directory E w t files p ps HE Hsuf HndS Hdir Hnd
                Hparts Happ) as (n & w' & b' & Hrun & Hlist & Hb & Hbl).
    exists n, w', b'. repeat (split; [assumption|]).
    rewrite Hbl. apply in_or_app. right.
    replace line with (content files (part_name stamp uid))
      by (unfold content; now rewrite Hline).
    now apply in_map.
Qed.

Lemma sweep_covers_jsonl_targets_witness :
  let w := {| fs := write_to_spool "bronze/pve/nodes.jsonl" "20240101T000000"
                      "aa" "{1}" (fs waiting);
              remote := []; stdout := [] |} in
  pure_path "bronze/pve/nodes.jsonl.parts" = "bronze/pve/nodes.jsonl.parts"
  /\ (In "bronze/pve/nodes.jsonl.parts" (parts_dirs None (fs w))
   <-> Str.ends_with ".jsonl" "bronze/pve/nodes.jsonl" = true)
  /\ (Str.ends_with ".jsonl" "bronze/pve/nodes.jsonl" = true ->
      exists n w' b',
        flush_spool ready no_faults None w = Ok (n, w')
        /\ list_parts "bronze/pve/nodes.jsonl.parts" (fs w') = []
        /\ lookup "bronze/pve/nodes.jsonl" (remote w') = Some b'
        /\ In "{1}" (blocks b')).
Proof.
  apply (sweep_covers_jsonl_targets ready (fs waiting) [] []
           "bronze/pve/nodes.jsonl" "20240101T000000" "aa" "{1}").
  - repeat split; reflexivity.
  - split.
    + repeat constructor; simpl; intuition discriminate.
    + intros d files. simpl.
      destruct (String.eqb d "bronze/pve/nodes.jsonl.parts"); [|discriminate].
      injection 1 as <-. repeat constructor; simpl; intuition discriminate.
  - reflexivity.
  - reflexivity.
Defined.

(** What pathlib makes of blob paths that are not in normal form. *)
Example paths_not_normal :
  pure_path (parts_dir_of "bronze//x.jsonl") = "bronze/x.jsonl.parts"
  /\ pure_path (parts_dir_of "./bronze/x.jsonl") = "bronze/x.jsonl.parts"
  /\ pure_path (parts_dir_of "/system/x.jsonl") = "/system/x.jsonl.parts"
  /\ normal_path "bronze//x.jsonl" = false
  /\ normal_path "./bronze/x.jsonl" = false
  /\ normal_path "/system/dataset/dt=2024-01-01/x.jsonl" = false
  /\ normal_path "bronze/../x.jsonl" = false
  /\ normal_path "bronze/pve/nodes/dt=2024-01-01/nodes_2024-01-01.jsonl"
     = true.
Proof. repeat split. Qed.

End StorageFacts.

(* ================================================================= *)
(** * Properties: loop-mode collection                                *)
(* ================================================================= *)

Module CollectorFacts.

Import Collector.

Section Skip.

Variable upper : string -> string.
Variable repr : value -> string.
Variable exn_str : exn -> string.
Variable client : Type.
Variable client_get : client -> value -> result value * client.

Local Abbreviation item_step :=
  (collect_item upper repr exn_str client client_get).
Local Abbreviation item_loop :=
  (collect_items upper repr exn_str client client_get).

(** C10. An item (a mapping) whose id field is missing, or holds a
    falsy value such as [None], [0] or the empty string, leaves the run
    as it was: the client is not called, no record is added, nothing is
    printed and nothing is raised; the loop over a list of items gives
    the same result with the item as without it. *)
Theorem falsy_id_skipped (ctx : Interp.ConfigContext) (id_field : string)
    (template : value) (st : run client) (item : dict)
    (before after : list value) :
  truthy (get_or_none id_field item) = false ->
  item_step ctx id_field template st (VDict item) = Ok st
  /\ item_loop ctx id_field template st (before ++ VDict item :: after)
     = item_loop ctx id_field template st (before ++ after).
Proof.
  intros Hfalsy.
  assert (Hstep : forall s, item_step ctx id_field template s (VDict item)
                            = Ok s).
  { intros s. unfold collect_item. now rewrite Hfalsy. }
  split; [apply Hstep|].
  revert st. induction before as [|x before IH]; intros st;
    cbn [app collect_items].
  - now rewrite Hstep.
  - destruct (item_step ctx id_field template st x) as [st'|e];
      [|reflexivity].
    cbn [bind]. apply IH.
Qed.

End Skip.

(** A client that records the endpoints it is asked for. *)
Definition recording_get (asked : list value) (endpoint : value)
  : result value * list value :=
  (Ok (VDict [("data", endpoint)]), (asked ++ [endpoint])%list).

Definition fresh : run (list value) :=
  {| http := []; records := []; printed := [] |}.

Definition loop :=
  collect_items Example.upper Example.repr (fun _ => "error") (list value)
                recording_get (Example.context []) "id"
                (VStr "/items/{id}").

Lemma falsy_id_skipped_witness :
  collect_item Example.upper Example.repr (fun _ => "error") (list value)
               recording_get (Example.context []) "id" (VStr "/items/{id}")
               fresh (VDict [("id", VInt 0); ("name", VStr "zero")])
  = Ok fresh
  /\ loop fresh [VDict [("id", VInt 7)];
                 VDict [("id", VInt 0); ("name", VStr "zero")];
                 VDict [("id", VInt 8)]]
     = loop fresh [VDict [("id", VInt 7)]; VDict [("id", VInt 8)]].
Proof.
  apply (falsy_id_skipped Example.upper Example.repr (fun _ => "error")
           (list value) recording_get (Example.context []) "id"
           (VStr "/items/{id}") fresh
           [("id", VInt 0); ("name", VStr "zero")]
           [VDict [("id", VInt 7)]] [VDict [("id", VInt 8)]]).
  reflexivity.
Defined.

(** The spec's example: one item with id 7 gives one fetch of
    [/items/7]; items without a usable id give none. *)
Example loop_fetches :
  loop fresh [VDict [("name", VStr "none")]; VDict [("id", VNone)];
              VDict [("id", VStr "")]; VDict [("id", VInt 7)]]
  = Ok {| http := [VStr "/items/7"];
          records := [VDict [("data", VStr "/items/7")]];
          printed := [] |}.
Proof. reflexivity. Qed.

End CollectorFacts.

(* ================================================================= *)
(** * Properties: interpolation engine                                *)
(* ================================================================= *)

Module InterpFacts.

Import Interp Template.

(** ** The scanner on well-formed templates *)

Lemma scan_escape (s rest : string) :
  scan SLit (escape s ++ rest)
  = (chars s (fst (scan SLit rest)), snd (scan SLit rest)).
Proof.
  induction s as [|c s IH]; cbn [escape append chars].
  - now destruct (scan SLit rest).
  - unfold is_brace.
    destruct (Ascii.eqb c lbrace) eqn:El; cbn [orb].
    + cbn [append scan]. rewrite El, IH. reflexivity.
    + destruct (Ascii.eqb c rbrace) eqn:Er.
      * cbn [append scan]. rewrite El, Er, IH. reflexivity.
      * cbn [append scan]. rewrite El, Er, IH. reflexivity.
Qed.

Lemma scan_name (k acc rest : string) :
  name_chars k = true ->
  scan (SName acc false) (k ++ String rbrace rest)
  = emit (PField (acc ++ k) None "") (scan SLit rest).
Proof.
  revert acc. induction k as [|c k IH]; intros acc Hk.
  - cbn [append scan]. now rewrite Str.append_nil_r.
  - cbn [name_chars] in Hk. apply andb_true_iff in Hk. destruct Hk as [Hc Hk].
    unfold name_char in Hc. rewrite !andb_true_iff, !negb_true_iff in Hc.
    destruct Hc as ((((H1 & H2) & H3) & H4) & H5).
    cbn [append scan]. rewrite H1, H2, H3, H4, H5, IH by exact Hk.
    now rewrite Str.snoc_append.
Qed.

Lemma plain_key_shape (k : string) :
  plain_key k = true ->
  String.eqb k "" = false /\ simple_name k = true /\ name_chars k = true.
Proof.
  unfold plain_key. rewrite andb_true_iff. intros [Hs Hn].
  repeat split; try assumption.
  unfold simple_name in Hs. rewrite !andb_true_iff in Hs.
  destruct Hs as (((Hs & _) & _) & _). now apply negb_true_iff.
Qed.

Lemma scan_var (k rest : string) :
  plain_key k = true ->
  scan SLit (String lbrace (k ++ String rbrace rest))
  = emit (PField k None "") (scan SLit rest).
Proof.
  intros Hk. destruct (plain_key_shape k Hk) as (Hne & _ & Hn).
  destruct k as [|c k]; [discriminate|].
  pose proof Hn as Hn'. cbn [name_chars] in Hn'.
  apply andb_true_iff in Hn'. destruct Hn' as [Hc _].
  unfold name_char in Hc. rewrite !andb_true_iff, !negb_true_iff in Hc.
  destruct Hc as ((((H1 & _) & _) & _) & _).
  change (scan SLit (String lbrace (String c k ++ String rbrace rest)))
    with (if Ascii.eqb c lbrace
          then emit (PChar lbrace) (scan SLit (k ++ String rbrace rest))
          else scan (SName "" false) (String c k ++ String rbrace rest)).
  rewrite H1. now rewrite scan_name.
Qed.

Lemma parse_template (ts : list tok) :
  forallb plain_tok ts = true ->
  parse (template_of ts) = (pieces_of ts, false).
Proof.
  unfold parse, template_of.
  induction ts as [|[s|k] ts IH]; intros Hp; cbn [map Str.join pieces_of].
  - reflexivity.
  - cbn [forallb plain_tok andb] in Hp. cbn [show_tok].
    now rewrite scan_escape, IH.
  - cbn [forallb plain_tok] in Hp. apply andb_true_iff in Hp.
    destruct Hp as [Hk Hp]. cbn [show_tok].
    change ("{" ++ k ++ "}") with (String lbrace (k ++ String rbrace "")).
    cbn [append]. rewrite Str.append_assoc. cbn [append].
    rewrite scan_var by exact Hk. now rewrite IH.
Qed.

Lemma scan_brace_free (s : string) :
  brace_free s = true -> scan SLit s = (chars s [], false).
Proof.
  induction s as [|c s IH]; cbn [brace_free chars]; [reflexivity|].
  rewrite andb_true_iff, negb_true_iff. unfold is_brace.
  rewrite orb_false_iff. intros [[El Er] Hs].
  cbn [scan]. rewrite El, Er, IH by exact Hs. reflexivity.
Qed.

Lemma placeholders_chars (s : string) :
  flat_map (fun p => match p with PField n _ _ => [n] | PChar _ => [] end)
           (chars s []) = [].
Proof. induction s as [|c s IH]; cbn [chars flat_map app]; auto. Qed.

Lemma placeholders_brace_free (s : string) :
  brace_free s = true -> placeholders s = [].
Proof.
  intros Hs. unfold placeholders, parse. rewrite scan_brace_free by exact Hs.
  apply placeholders_chars.
Qed.

Lemma brace_free_append (s t : string) :
  brace_free (s ++ t) = brace_free s && brace_free t.
Proof.
  induction s as [|c s IH]; cbn [append brace_free]; [reflexivity|].
  now rewrite IH, andb_assoc.
Qed.

Lemma brace_free_join (l : list string) :
  (forall s, In s l -> brace_free s = true) -> brace_free (Str.join l) = true.
Proof.
  induction l as [|x l IH]; intros H; cbn [Str.join]; [reflexivity|].
  rewrite brace_free_append, (H x (or_introl eq_refl)), IH; [reflexivity|].
  intros s Hs. apply H. now right.
Qed.

(** ** Rendering the pieces of a well-formed template *)

Section Rendering.

Variable upper : string -> string.
Variable repr : value -> string.

Lemma render_chars (strict : bool) (ctx : dict) (s : string)
    (ps : list piece) (bad : bool) :
  render repr strict ctx (chars s ps) bad
  = (out <- render repr strict ctx ps bad ;; Ok (s ++ out)).
Proof.
  induction s as [|c s IH]; cbn [chars render append].
  - now destruct (render repr strict ctx ps bad).
  - rewrite IH. now destruct (render repr strict ctx ps bad).
Qed.

Lemma render_field_plain (strict : bool) (ctx : dict) (k : string) :
  plain_key k = true ->
  render_field repr strict ctx k None ""
  = match dict_get k ctx with
    | Some v => Ok (py_str repr v)
    | None => if strict then Raise (KeyError k) else Ok ("{" ++ k ++ "}")
    end.
Proof.
  intros Hk. destruct (plain_key_shape k Hk) as (Hne & Hs & _).
  unfold render_field. now rewrite Hne, Hs.
Qed.

Lemma render_lenient (ctx : dict) (ts : list tok) :
  forallb plain_tok ts = true ->
  render repr false ctx (pieces_of ts) false = Ok (filled repr ctx ts).
Proof.
  unfold filled.
  induction ts as [|[s|k] ts IH]; intros Hp;
    cbn [pieces_of map Str.join fill].
  - reflexivity.
  - cbn [forallb plain_tok andb] in Hp.
    now rewrite render_chars, IH.
  - cbn [forallb plain_tok] in Hp. apply andb_true_iff in Hp.
    destruct Hp as [Hk Hp]. cbn [render].
    rewrite render_field_plain, IH by assumption.
    now destruct (dict_get k ctx).
Qed.

Lemma render_strict (ctx : dict) (ts : list tok) :
  forallb plain_tok ts = true ->
  render repr true ctx (pieces_of ts) false
  = match first_missing ctx ts with
    | Some k => Raise (KeyError k)
    | None => Ok (filled repr ctx ts)
    end.
Proof.
  unfold filled.
  induction ts as [|[s|k] ts IH]; intros Hp;
    cbn [pieces_of map Str.join fill first_missing].
  - reflexivity.
  - cbn [forallb plain_tok andb] in Hp.
    rewrite render_chars, IH by exact Hp.
    now destruct (first_missing ctx ts).
  - cbn [forallb plain_tok] in Hp. apply andb_true_iff in Hp.
    destruct Hp as [Hk Hp]. cbn [render].
    rewrite render_field_plain, IH by assumption.
    destruct (dict_get k ctx); [|reflexivity].
    now destruct (first_missing ctx ts).
Qed.

Lemma first_missing_none (ctx : dict) (ts : list tok) :
  first_missing ctx ts = None
  <-> forall k, In k (var_keys ts) -> dict_get k ctx <> None.
Proof.
  unfold var_keys.
  induction ts as [|[s|k] ts IH]; cbn [first_missing flat_map app].
  - split; [intros _ k []|reflexivity].
  - exact IH.
  - destruct (dict_get k ctx) eqn:Hk.
    + rewrite IH. split.
      * intros H k' [<-|Hin]; [congruence|now apply H].
      * intros H k' Hin. apply H. now right.
    + split; [discriminate|]. intros H. now destruct (H k (or_introl eq_refl)).
Qed.

End Rendering.

Lemma first_missing_some (ctx : dict) (ts : list tok) (k : string) :
  first_missing ctx ts = Some k ->
  In k (var_keys ts) /\ dict_get k ctx = None.
Proof.
  unfold var_keys.
  induction ts as [|[s|k'] ts IH]; cbn [first_missing flat_map app].
  - discriminate.
  - exact IH.
  - destruct (dict_get k' ctx) eqn:Hk.
    + intros H. destruct (IH H) as [Hin Hn]. split; [now right|exact Hn].
    + intros [= <-]. split; [now left|exact Hk].
Qed.

(** ** Lenient resolution *)

Definition hl2 : ConfigContext := Example.context [("node", VStr "hl2")].

(** C5, as stated, fails: lenient resolution of a template with an
    unmatched brace raises [ValueError], and of one with an empty
    placeholder raises [IndexError]; only the missing-key case is
    caught by [SafeFormatter.get_value]. *)
Lemma lenient_resolution_raises :
  Example.resolve_str hl2 (VStr "{") None false = Raise ValueError
  /\ Example.resolve_str hl2 (VStr "nodes/{node}/}") None false
     = Raise ValueError
  /\ Example.resolve_str hl2 (VStr "{}") None false = Raise IndexError.
Proof. repeat split; reflexivity. Qed.

Section Resolution.

Variable upper : string -> string.
Variable repr : value -> string.

(** C5, amended: on a template made of literal text (its braces
    doubled) and placeholders with plain keys, lenient resolution
    returns, and its result is the template with each placeholder whose
    key the merged context holds replaced by [str] of the value, and
    each placeholder whose key it lacks left exactly as written. *)
Theorem lenient_resolution_fills (self : ConfigContext)
    (extra_ctx : option dict) (ts : list tok) :
  forallb plain_tok ts = true ->
  resolve_str upper repr self (VStr (template_of ts)) extra_ctx false
  = Ok (VStr (filled repr (merged_context upper repr self extra_ctx) ts)).
Proof.
  intros Hp. unfold resolve_str, format.
  rewrite parse_template by exact Hp.
  now rewrite render_lenient by exact Hp.
Qed.

(** C6, amended: on a template made of literal text (its braces
    doubled) and placeholders with plain keys, strict resolution raises
    [CollectorError] naming the first placeholder key the merged context
    lacks, and does so exactly when there is such a key; otherwise it
    returns the template with every placeholder replaced by [str] of its
    value.  That result holds no placeholder provided neither the
    literal text nor the substituted values contain a brace. *)
Theorem strict_resolution_fills_or_names_key (self : ConfigContext)
    (extra_ctx : option dict) (ts : list tok) :
  forallb plain_tok ts = true ->
  let ctx := merged_context upper repr self extra_ctx in
  let r := resolve_str upper repr self (VStr (template_of ts)) extra_ctx true in
  r = match first_missing ctx ts with
      | Some k => Raise (CollectorError (missing_message repr k (template_of ts)))
      | None => Ok (VStr (filled repr ctx ts))
      end
  /\ (is_ok r = false
      <-> exists k, In k (var_keys ts) /\ dict_get k ctx = None)
  /\ (forall out, r = Ok (VStr out) ->
      (forall t, In t ts -> brace_free (fill repr ctx t) = true) ->
      placeholders out = []).
Proof.
  intros Hp ctx r.
  assert (Hr : r = match first_missing ctx ts with
                   | Some k => Raise (CollectorError
                                 (missing_message repr k (template_of ts)))
                   | None => Ok (VStr (filled repr ctx ts))
                   end).
  { unfold r, resolve_str, format. rewrite parse_template by exact Hp.
    fold ctx. rewrite render_strict by exact Hp.
    now destruct (first_missing ctx ts). }
  split; [exact Hr|]. rewrite Hr. split.
  - destruct (first_missing ctx ts) as [k|] eqn:Hm.
    + split; [|reflexivity]. intros _. exists k.
      now apply first_missing_some.
    + split; [discriminate|]. intros (k & Hin & Hk).
      now destruct (proj1 (first_missing_none ctx ts) Hm k Hin).
  - intros out Hout Hfree.
    destruct (first_missing ctx ts); [discriminate|].
    injection Hout as <-. apply placeholders_brace_free.
    unfold filled. apply brace_free_join.
    intros s Hs. apply in_map_iff in Hs. destruct Hs as (t & <- & Ht).
    now apply Hfree.
Qed.

End Resolution.

Definition status_path : list tok :=
  [TLit "/api2/json/nodes/"; TVar "node"; TLit "/status/"; TVar "id"].

Lemma lenient_resolution_fills_witness :
  forallb plain_tok status_path = true
  /\ Example.resolve_str hl2 (VStr "/api2/json/nodes/{node}/status/{id}")
       None false
     = Ok (VStr "/api2/json/nodes/hl2/status/{id}").
Proof.
  split; [reflexivity|].
  exact (lenient_resolution_fills Example.upper Example.repr hl2 None
           status_path eq_refl).
Defined.

(** ** Strict resolution *)

(** C6, as stated, fails in its last part: a doubled brace of the
    template comes out single, and a substituted value is not scanned
    again, so a successful strict resolution can return text that still
    holds a placeholder. *)
Lemma strict_resolution_leaves_placeholders :
  Example.resolve_str hl2 (VStr "{{id}}") None true = Ok (VStr "{id}")
  /\ placeholders "{id}" = ["id"]
  /\ Example.resolve_str (Example.context [("path", VStr "/vm/{vmid}")])
       (VStr "{path}") None true
     = Ok (VStr "/vm/{vmid}")
  /\ placeholders "/vm/{vmid}" = ["vmid"].
Proof. repeat split; reflexivity. Qed.

Lemma strict_resolution_fills_or_names_key_witness :
  forallb plain_tok status_path = true
  /\ Example.resolve_str hl2 (VStr "/api2/json/nodes/{node}/status/{id}")
       None true
     = Raise (CollectorError
         "Configuration variable 'id' missing during resolution of string: '/api2/json/nodes/{node}/status/{id}'").
Proof.
  split; [reflexivity|].
  exact (proj1 (strict_resolution_fills_or_names_key Example.upper
                  Example.repr hl2 None status_path eq_refl)).
Defined.

(** ** Documents *)

Section ValueInduction.

Variable P : value -> Prop.
Variable Q : dict -> Prop.
Hypothesis Hleaf : forall v, Tree.is_leaf v = true -> P v.
Hypothesis Hstr : forall s, P (VStr s).
Hypothesis Hdict : forall d, Q d -> P (VDict d).
Hypothesis Hnil : Q [].
Hypothesis Hcons : forall k v d, P v -> Q d -> Q ((k, v) :: d).

Fixpoint value_dict_ind (v : value) : P v :=
  match v with
  | VNone => Hleaf VNone eq_refl
  | VBool b => Hleaf (VBool b) eq_refl
  | VInt z => Hleaf (VInt z) eq_refl
  | VStr s => Hstr s
  | VList l => Hleaf (VList l) eq_refl
  | VDict d =>
      Hdict d
        ((fix go (d : list (string * value)) : Q d :=
            match d with
            | [] => Hnil
            | (k, x) :: r => Hcons k x r (value_dict_ind x) (go r)
            end) d)
  | VFloat q => Hleaf (VFloat q) eq_refl
  end.

End ValueInduction.

Lemma distinct_NoDup (l : list string) :
  Tree.distinct l = true <-> NoDup l.
Proof.
  induction l as [|x l IH]; cbn [Tree.distinct].
  - split; [constructor|reflexivity].
  - rewrite andb_true_iff, negb_true_iff, IH. split.
    + intros [Hx Hl]. constructor; [|exact Hl]. intros Hin.
      assert (existsb (String.eqb x) l = true) as E
        by (apply existsb_exists; exists x; split;
            [exact Hin|apply String.eqb_refl]).
      congruence.
    + intros H. inversion H as [|? ? Hx Hl]; subst. split; [|exact Hl].
      destruct (existsb (String.eqb x) l) eqn:E; [|reflexivity].
      apply existsb_exists in E. destruct E as (y & Hy & Heq).
      apply String.eqb_eq in Heq. subst. contradiction.
Qed.

Lemma dict_set_fresh (k : string) (v : value) (acc : dict) :
  ~ In k (keys acc) -> dict_set k v acc = (acc ++ [(k, v)])%list.
Proof.
  induction acc as [|[k' v'] acc IH]; cbn [dict_set keys map fst app In];
    intros Hk; [reflexivity|].
  destruct (String.eqb_spec k k') as [->|_]; [now destruct Hk; left|].
  rewrite IH; [reflexivity|]. intros Hin. apply Hk. now right.
Qed.

Lemma resolved_items_keys upper repr self extra_ctx strict (d d' : dict) :
  Tree.resolved_items upper repr self extra_ctx strict d d' ->
  keys d' = keys d.
Proof.
  revert d'. induction d as [|[k v] d IH]; intros d' H; inversion H; subst.
  - reflexivity.
  - cbn [keys map fst]. f_equal. now apply IH.
Qed.

Section Documents.

Variable upper : string -> string.
Variable repr : value -> string.
Variable self : ConfigContext.
Variable extra_ctx : option dict.
Variable strict : bool.

Local Abbreviation rv := (resolve_value upper repr self extra_ctx strict).
Local Abbreviation ri := (resolve_items upper repr self extra_ctx strict).
Local Abbreviation R := (Tree.resolved upper repr self extra_ctx strict).
Local Abbreviation RI :=
  (Tree.resolved_items upper repr self extra_ctx strict).

Lemma resolve_value_dict (d : dict) : rv (VDict d) = ri d [].
Proof. reflexivity. Qed.

Lemma resolve_items_cons (k : string) (x : value) (d acc : dict) :
  ri ((k, x) :: d) acc = (x' <- rv x ;; ri d (dict_set k x' acc)).
Proof. reflexivity. Qed.

Lemma unique_keys_dict (d : dict) :
  Tree.unique_keys (VDict d)
  = Tree.distinct (keys d) && Tree.unique_items d.
Proof. reflexivity. Qed.

Lemma unique_items_cons (k : string) (x : value) (d : dict) :
  Tree.unique_items ((k, x) :: d)
  = Tree.unique_keys x && Tree.unique_items d.
Proof. reflexivity. Qed.

Lemma resolve_value_resolved (v : value) :
  Tree.unique_keys v = true ->
  forall v', rv v = Ok v' <-> R v v'.
Proof.
  apply (value_dict_ind
    (fun v => Tree.unique_keys v = true ->
              forall v', rv v = Ok v' <-> R v v')
    (fun d => Tree.unique_items d = true ->
              forall acc, NoDup (keys acc ++ keys d) ->
              forall r, ri d acc = Ok r
                        <-> exists d', r = VDict (acc ++ d') /\ RI d d')).
  - intros w Hw _ v'.
    destruct w; try discriminate; (split; intros H;
      [injection H as <-; now constructor
      |inversion H; subst; reflexivity]).
  - intros s _ v'. cbn [resolve_value]. split; intros H.
    + now constructor.
    + inversion H; subst; [assumption|discriminate].
  - intros d IH Hu v'. rewrite unique_keys_dict in Hu.
    apply andb_true_iff in Hu. destruct Hu as [Hd Hi].
    apply distinct_NoDup in Hd.
    rewrite resolve_value_dict, (IH Hi [] Hd v'). split.
    + intros (d' & -> & H). now constructor.
    + intros H. inversion H; subst; [|discriminate].
      eexists. split; [reflexivity|assumption].
  - intros _ acc _ r. cbn [resolve_items]. split.
    + intros [= <-]. exists []. rewrite app_nil_r. split; constructor.
    + intros (d' & -> & H). inversion H; subst. now rewrite app_nil_r.
  - intros k x d IHx IHd Hu acc Hnd r.
    rewrite unique_items_cons in Hu. apply andb_true_iff in Hu.
    destruct Hu as [Hx Hd]. rewrite resolve_items_cons.
    cbn [keys map fst] in Hnd.
    assert (Hk : ~ In k (keys acc)).
    { intros Hin. apply NoDup_remove_2 in Hnd. apply Hnd.
      apply in_or_app. now left. }
    assert (Hnd' : forall x' : value,
               NoDup (keys (acc ++ [(k, x')]) ++ keys d)%list).
    { intros x'. unfold keys. rewrite map_app, <- app_assoc. exact Hnd. }
    split.
    + destruct (rv x) as [x'|e] eqn:Ex; [|discriminate].
      cbn [bind]. rewrite dict_set_fresh by exact Hk.
      intros H. apply (IHd Hd _ (Hnd' x')) in H.
      destruct H as (d' & -> & H). exists ((k, x') :: d'). split.
      * now rewrite <- app_assoc.
      * constructor; [now apply (IHx Hx)|exact H].
    + intros (d' & -> & H). inversion H as [|? ? x' ? d'' Hxx Hdd]; subst.
      apply (IHx Hx) in Hxx. rewrite Hxx. cbn [bind].
      rewrite dict_set_fresh by exact Hk.
      apply (IHd Hd _ (Hnd' x')). exists d''. split; [|exact Hdd].
      now rewrite <- app_assoc.
Qed.

(** C4, amended: [resolve_dict] returns a document [d'] exactly when
    [d'] has the keys of [d] in the same order, with every string value
    replaced by its resolution, every nested mapping resolved in the
    same way, and every other value, a sequence and all it holds
    included, as it is in [d]; in particular it returns whenever each
    such string resolves. *)
Theorem resolve_dict_resolves_through_mappings (d : dict) :
  Tree.unique_keys (VDict d) = true ->
  forall d',
    resolve_dict upper repr self d extra_ctx strict = Ok d'
    <-> RI d d'.
Proof.
  intros Hu d'. unfold resolve_dict.
  split.
  - destruct (rv (VDict d)) as [v|e] eqn:E; [|discriminate].
    cbn [bind]. apply (resolve_value_resolved (VDict d) Hu v) in E.
    inversion E; subst; [|discriminate]. now intros [= <-].
  - intros HR. assert (E : rv (VDict d) = Ok (VDict d'))
      by (apply (resolve_value_resolved (VDict d) Hu); now constructor).
    now rewrite E.
Qed.

End Documents.

(** C4, as stated, fails: a string inside a sequence value is left
    unresolved, though the same string as a direct value is resolved. *)
Lemma sequence_elements_not_resolved :
  Example.resolve_dict hl2
    [("url", VStr "/nodes/{node}"); ("urls", VList [VStr "/nodes/{node}"])]
    None true
  = Ok [("url", VStr "/nodes/hl2"); ("urls", VList [VStr "/nodes/{node}"])].
Proof. reflexivity. Qed.

Definition nested_doc : dict :=
  [("endpoint", VStr "/nodes/{node}/qemu/{id}");
   ("timeout", VInt 10);
   ("tags", VList [VStr "{node}"]);
   ("headers", VDict [("X-Node", VStr "{NODE}")])].

Definition nested_doc_resolved : dict :=
  [("endpoint", VStr "/nodes/hl2/qemu/{id}");
   ("timeout", VInt 10);
   ("tags", VList [VStr "{node}"]);
   ("headers", VDict [("X-Node", VStr "HL2")])].

Lemma resolve_dict_resolves_through_mappings_witness :
  Tree.unique_keys (VDict nested_doc) = true
  /\ Tree.resolved_items Example.upper Example.repr hl2 None false
       nested_doc nested_doc_resolved.
Proof.
  split; [reflexivity|].
  exact (proj1 (resolve_dict_resolves_through_mappings Example.upper
                  Example.repr hl2 None false nested_doc eq_refl
                  nested_doc_resolved) eq_refl).
Defined.

End InterpFacts.

(* ================================================================= *)
(** * Properties: dictionaries                                        *)
(* ================================================================= *)

Module DictFacts.

Lemma dict_get_set_same (k : string) (v : value) (d : dict) :
  dict_get k (dict_set k v d) = Some v.
Proof.
  induction d as [|[k' v'] d IH]; cbn [dict_set dict_get].
  - now rewrite String.eqb_refl.
  - destruct (String.eqb k k') eqn:E; cbn [dict_get]; now rewrite E.
Qed.

Lemma dict_get_set_other (k k' : string) (v : value) (d : dict) :
  k' <> k -> dict_get k' (dict_set k v d) = dict_get k' d.
Proof.
  intros Hk. induction d as [|[k0 v0] d IH]; cbn [dict_set dict_get].
  - destruct (String.eqb_spec k' k); [contradiction|reflexivity].
  - destruct (String.eqb_spec k k0) as [->|Hne]; cbn [dict_get].
    + destruct (String.eqb_spec k' k0); [contradiction|reflexivity].
    + now rewrite IH.
Qed.

Lemma dict_get_app (k : string) (d e : dict) :
  dict_get k (d ++ e)%list
  = match dict_get k d with Some v => Some v | None => dict_get k e end.
Proof.
  induction d as [|[k' v'] d IH]; cbn [app dict_get]; [reflexivity|].
  now destruct (String.eqb k k').
Qed.

Lemma dict_get_none (k : string) (d : dict) :
  dict_get k d = None <-> ~ In k (keys d).
Proof.
  induction d as [|[k' v'] d IH]; cbn [dict_get keys map fst In].
  - tauto.
  - destruct (String.eqb_spec k k') as [->|Hne].
    + split; [discriminate|]. intros H. destruct H. now left.
    + rewrite IH. unfold keys. split.
      * intros H [Heq|Hin]; [congruence|contradiction].
      * intros H Hin. apply H. now right.
Qed.

(** The value [d.update(e)] holds for [k] is the last one [e] binds to
    it, or else the one [d] had. *)
Lemma dict_get_update_last (k : string) (e : dict) :
  forall d,
  dict_get k (dict_update d e)
  = match dict_get k (rev e) with
    | Some v => Some v
    | None => dict_get k d
    end.
Proof.
  unfold dict_update.
  induction e as [|[k1 v1] e IH]; intros d; cbn [fold_left rev fst snd].
  - reflexivity.
  - rewrite IH, dict_get_app. destruct (dict_get k (rev e)); [reflexivity|].
    cbn [dict_get]. destruct (String.eqb_spec k k1) as [->|Hne].
    + apply dict_get_set_same.
    + now apply dict_get_set_other.
Qed.

Lemma dict_get_rev (k : string) (e : dict) :
  NoDup (keys e) -> dict_get k (rev e) = dict_get k e.
Proof.
  induction e as [|[k1 v1] e IH]; intros Hnd; [reflexivity|].
  cbn [keys map fst] in Hnd. inversion Hnd as [|? ? Hk He]; subst.
  cbn [rev dict_get]. rewrite dict_get_app, (IH He). cbn [dict_get].
  destruct (String.eqb_spec k k1) as [->|Hne].
  - apply dict_get_none in Hk. now rewrite Hk.
  - now destruct (dict_get k e).
Qed.

Lemma dict_get_update (k : string) (d e : dict) :
  NoDup (keys e) ->
  dict_get k (dict_update d e)
  = match dict_get k e with
    | Some v => Some v
    | None => dict_get k d
    end.
Proof. intros H. now rewrite dict_get_update_last, dict_get_rev. Qed.

Lemma keys_set (k : string) (v : value) (d : dict) :
  keys (dict_set k v d)
  = match dict_get k d with
    | Some _ => keys d
    | None => (keys d ++ [k])%list
    end.
Proof.
  unfold keys.
  induction d as [|[k' v'] d IH]; cbn [dict_set dict_get map fst app].
  - reflexivity.
  - destruct (String.eqb k k'); cbn [map fst]; [reflexivity|].
    rewrite IH. now destruct (dict_get k d).
Qed.

Lemma NoDup_keys_set (k : string) (v : value) (d : dict) :
  NoDup (keys d) -> NoDup (keys (dict_set k v d)).
Proof.
  intros H. rewrite keys_set. destruct (dict_get k d) eqn:E; [exact H|].
  apply dict_get_none in E.
  apply NoDup_app; [exact H|repeat constructor; intros []|].
  intros x Hx [<-|[]]. contradiction.
Qed.

End DictFacts.

(* ================================================================= *)
(** * Properties: blob paths                                          *)
(* ================================================================= *)

Module BronzePathFacts.

Import BronzePath.

Lemma append_cancel_l (a b c : string) : a ++ b = a ++ c -> b = c.
Proof.
  induction a as [|x a IH]; cbn [append]; intros H; [exact H|].
  injection H as H. now apply IH.
Qed.

(** The configuration [cfg] with [collect.node] set to [node]. *)
Definition set_node (node : value) (collect cfg : dict) : dict :=
  dict_set "collect" (VDict (dict_set "node" node collect)) cfg.

Section WithRepr.

Variable repr : value -> string.

Local Abbreviation str := (Interp.py_str repr).

Lemma get_mapping_set_other (k k' : string) (v : value) (cfg : dict) :
  k' <> k -> get_mapping k' (dict_set k v cfg) = get_mapping k' cfg.
Proof.
  intros H. unfold get_mapping. now rewrite DictFacts.dict_get_set_other.
Qed.

Lemma get_or_none_set_other (k k' : string) (v : value) (cfg : dict) :
  k' <> k -> get_or_none k' (dict_set k v cfg) = get_or_none k' cfg.
Proof.
  intros H. unfold get_or_none. now rewrite DictFacts.dict_get_set_other.
Qed.

Lemma get_or_none_set_same (k : string) (v : value) (d : dict) :
  get_or_none k (dict_set k v d) = v.
Proof. unfold get_or_none. now rewrite DictFacts.dict_get_set_same. Qed.

(** The path of a configuration whose node is set and truthy. *)
Lemma path_with_node (cfg collect storage : dict) (dt : string)
    (node : value) :
  get_mapping "storage" cfg = Ok storage ->
  truthy node = true ->
  build_bronze_path repr (set_node node collect cfg) dt
  = Ok ((str (get_default "bronze_prefix" (VStr "bronze") storage) ++ "/"
         ++ str (py_or (get_or_none "system" storage)
                       (get_or_none "source" cfg)) ++ "/"
         ++ str (py_or (get_or_none "dataset" storage)
                       (get_or_none "entity" cfg))
         ++ "/dt=" ++ dt ++ "/" ++ str (get_or_none "entity" cfg) ++ "_")
        ++ str node ++ "_" ++ dt ++ ".jsonl").
Proof.
  intros Hs Hn. unfold build_bronze_path, set_node.
  rewrite get_mapping_set_other, Hs by discriminate. cbn [bind].
  rewrite !get_or_none_set_other by discriminate.
  unfold get_mapping at 1. rewrite DictFacts.dict_get_set_same. cbn [bind].
  rewrite !get_or_none_set_same, Hn.
  now rewrite !Str.append_assoc.
Qed.

(** X1. Every path [build_bronze_path] returns ends in [.jsonl], so
    the directory [write_to_spool] keeps for it is one the pattern of
    the untargeted sweep of [flush_spool] matches. *)
Theorem bronze_path_is_swept (cfg : dict) (dt path : string) :
  build_bronze_path repr cfg dt = Ok path ->
  Str.ends_with ".jsonl" path = true
  /\ Storage.is_parts_dir (Storage.parts_dir_of path) = true.
Proof.
  intros H. rewrite StorageFacts.parts_dir_matches.
  assert (Hend : Str.ends_with ".jsonl" path = true); [|now split].
  unfold build_bronze_path in H.
  destruct (get_mapping "storage" cfg) as [storage|]; [|discriminate].
  destruct (get_mapping "collect" cfg) as [collect|]; [|discriminate].
  cbn [bind] in H. injection H as <-.
  assert (Hsuf : forall a s, Str.ends_with ".jsonl" s = true ->
                             Str.ends_with ".jsonl" (a ++ s) = true).
  { intros a s Hs. apply StorageFacts.ends_with_iff in Hs.
    destruct Hs as [pre ->]. apply StorageFacts.ends_with_iff.
    exists (a ++ pre). now rewrite Str.append_assoc. }
  assert (Hdt : Str.ends_with ".jsonl" (dt ++ ".jsonl") = true)
    by (apply StorageFacts.ends_with_iff; now exists dt).
  assert (Hcons : forall c s, Str.ends_with ".jsonl" s = true ->
                              Str.ends_with ".jsonl" (String c s) = true)
    by (intros c s Hs; apply (Hsuf (String c "") s Hs)).
  destruct (truthy (get_or_none "node" collect));
    repeat first [exact Hdt | apply Hcons | apply Hsuf].
Qed.

(** X2. Two configurations that differ only in a truthy [collect.node]
    are given the same path exactly when the two nodes have the same
    [str]: collectors of different nodes never share a blob. *)
Theorem nodes_get_their_own_path (cfg collect : dict) (dt : string)
    (n1 n2 : value) (p1 p2 : string) :
  truthy n1 = true -> truthy n2 = true ->
  build_bronze_path repr (set_node n1 collect cfg) dt = Ok p1 ->
  build_bronze_path repr (set_node n2 collect cfg) dt = Ok p2 ->
  (p1 = p2 <-> str n1 = str n2).
Proof.
  intros H1 H2 Hp1 Hp2.
  destruct (get_mapping "storage" cfg) as [storage|e] eqn:Hs.
  - rewrite (path_with_node cfg collect storage dt n1 Hs H1) in Hp1.
    rewrite (path_with_node cfg collect storage dt n2 Hs H2) in Hp2.
    injection Hp1 as <-. injection Hp2 as <-. split.
    + intros H. apply append_cancel_l in H.
      apply (StorageFacts.append_cancel_r _ _ ("_" ++ dt ++ ".jsonl")).
      exact H.
    + now intros ->.
  - unfold build_bronze_path, set_node in Hp1.
    rewrite get_mapping_set_other, Hs in Hp1 by discriminate.
    discriminate Hp1.
Qed.

End WithRepr.

Definition pve_nodes : dict :=
  [("source", VStr "proxmox"); ("entity", VStr "node_status");
   ("storage", VDict [("system", VStr "pve")]);
   ("collect", VDict [("mode", VStr "single")])].

Lemma bronze_path_is_swept_witness :
  Str.ends_with ".jsonl"
    "bronze/pve/node_status/dt=2024-01-01/node_status_2024-01-01.jsonl" = true
  /\ Storage.is_parts_dir
       (Storage.parts_dir_of
          "bronze/pve/node_status/dt=2024-01-01/node_status_2024-01-01.jsonl")
     = true.
Proof.
  exact (bronze_path_is_swept Example.repr pve_nodes "2024-01-01" _ eq_refl).
Defined.

Lemma nodes_get_their_own_path_witness :
  "bronze/pve/node_status/dt=2024-01-01/node_status_hl1_2024-01-01.jsonl"
  = "bronze/pve/node_status/dt=2024-01-01/node_status_hl2_2024-01-01.jsonl"
  <-> "hl1" = "hl2".
Proof.
  exact (nodes_get_their_own_path Example.repr pve_nodes
           [("mode", VStr "single")] "2024-01-01" (VStr "hl1") (VStr "hl2")
           _ _ eq_refl eq_refl eq_refl eq_refl).
Defined.

End BronzePathFacts.

(* ================================================================= *)
(** * Properties: record wrapper                                      *)
(* ================================================================= *)

Module WrapperFacts.

Import Wrapper.

(** X3. A tag passed as [meta_tags] takes the place of the standard
    metadata field of the same name, lineage fields such as [source]
    and [collected_at_utc] included; every field no tag names is as it
    is without tags, and the payload is stored as given. *)
Theorem meta_tags_override (h : host) (source entity schema_version : value)
    (host_name payload : value) (tags : dict) (k : string) :
  NoDup (keys tags) ->
  dict_get k (meta_of (build_wrapper h source entity schema_version
                         host_name payload (Some tags)))
  = match dict_get k tags with
    | Some v => Some v
    | None =>
        dict_get k (meta_of (build_wrapper h source entity schema_version
                               host_name payload None))
    end
  /\ dict_get "payload" (build_wrapper h source entity schema_version
                           host_name payload (Some tags))
     = Some payload.
Proof.
  intros Hnd. split; [|reflexivity].
  unfold build_wrapper, meta_of. cbn [dict_get String.eqb Ascii.eqb Bool.eqb].
  cbn [tags_or_empty]. now rewrite DictFacts.dict_get_update.
Qed.

Definition lab_host : host :=
  {| iso_utc_now := "2024-01-01T00:00:00+00:00";
     gethostname := Ok "collector-1";
     ENVIRONMENT := None |}.

Lemma meta_tags_override_witness :
  dict_get "source"
    (meta_of (build_wrapper lab_host (VStr "proxmox") (VStr "node_status")
                (VInt 1) (VStr "https://pve:8006") (VDict [])
                (Some [("source", VStr "manual")])))
  = Some (VStr "manual")
  /\ dict_get "payload"
       (build_wrapper lab_host (VStr "proxmox") (VStr "node_status")
          (VInt 1) (VStr "https://pve:8006") (VDict [])
          (Some [("source", VStr "manual")]))
     = Some (VDict []).
Proof.
  apply (meta_tags_override lab_host (VStr "proxmox") (VStr "node_status")
           (VInt 1) (VStr "https://pve:8006") (VDict [])
           [("source", VStr "manual")] "source").
  repeat constructor. intros [].
Defined.

End WrapperFacts.

(* ================================================================= *)
(** * Properties: the flush, whatever fails                           *)
(* ================================================================= *)

Module FlushFacts.

Import Storage StorageFacts.

(** The number of part files in a directory. *)
Definition parts_in (files : directory) : nat :=
  length (filter is_part (map fst files)).

Lemma length_list_parts (d : string) (s : spool) (files : directory) :
  lookup d s = Some files -> length (list_parts d s) = parts_in files.
Proof.
  intros H. unfold list_parts, parts_in. rewrite H.
  apply Permutation_length, sorted_perm.
Qed.

Lemma filter_drop_one (p : string) (l : list string) :
  NoDup l -> In p l -> is_part p = true ->
  S (length (filter is_part
               (filter (fun x => negb (String.eqb p x)) l)))
  = length (filter is_part l).
Proof.
  induction l as [|x l IH]; intros Hnd Hin Hp; [contradiction|].
  inversion Hnd as [|? ? Hx Hl]; subst. cbn [filter].
  destruct (String.eqb_spec p x) as [->|Hne]; cbn [negb].
  - rewrite Hp. cbn [length]. do 2 f_equal. f_equal.
    apply forallb_filter_id, forallb_forall. intros y Hy.
    destruct (String.eqb_spec x y) as [->|_]; [contradiction|reflexivity].
  - destruct Hin as [->|Hin]; [contradiction|].
    cbn [filter]. destruct (is_part x); cbn [length];
      now rewrite <- (IH Hl Hin Hp).
Qed.

Lemma parts_in_remove (p : string) (files : directory) :
  NoDup (map fst files) -> In p (map fst files) -> is_part p = true ->
  S (parts_in (remove p files)) = parts_in files.
Proof.
  intros Hnd Hin Hp. unfold parts_in. rewrite map_fst_remove.
  now apply filter_drop_one.
Qed.

(** One part: either it is counted failed and the spool is as before,
    or it is counted flushed and its file, which was there, is gone. *)
Lemma flush_part_step (F : faults) (b d : string) (w : world) (n : counts)
    (files : directory) (p : string) :
  lookup d (fs w) = Some files ->
  (snd (flush_part F b d (w, n) p) = add_failed n
   /\ fs (fst (flush_part F b d (w, n) p)) = fs w)
  \/ (snd (flush_part F b d (w, n) p) = add_flushed n
      /\ fs (fst (flush_part F b d (w, n) p))
         = store d (remove p files) (fs w)
      /\ lookup p files <> None).
Proof.
  intros Hd. unfold flush_part. rewrite Hd.
  destruct (read_fails F d p); [now left|].
  destruct (lookup p files) as [data|]; [|now left].
  destruct (append_fails F b p); [now left|].
  destruct (append_block b data (remote w)); [|now left].
  destruct (unlink_fails F d p); [now left|].
  right. cbn [fst snd fs]. unfold unlink. rewrite Hd.
  repeat split. discriminate.
Qed.

Lemma fold_flush_part_counts (F : faults) (b d : string) (ps : list string) :
  forall (w : world) (n : counts) (files : directory),
  lookup d (fs w) = Some files ->
  NoDup (map fst files) ->
  NoDup ps ->
  (forall q, In q ps -> In q (map fst files) /\ is_part q = true) ->
  exists files2,
    lookup d (fs (fst (fold_left (flush_part F b d) ps (w, n))))
    = Some files2
    /\ parts_in files2 + fst (snd (fold_left (flush_part F b d) ps (w, n)))
       = parts_in files + fst n
    /\ fst (snd (fold_left (flush_part F b d) ps (w, n)))
       + snd (snd (fold_left (flush_part F b d) ps (w, n)))
       = fst n + snd n + length ps.
Proof.
  induction ps as [|p ps IH]; intros w n files Hd Hnd Hps Hin;
    cbn [fold_left].
  - exists files. cbn [fst snd length]. repeat split; [exact Hd|lia].
  - inversion Hps as [|? ? Hp Hps']; subst.
    destruct (flush_part_step F b d w n files p Hd)
      as [[Hn Hfs]|(Hn & Hfs & Hthere)];
      destruct (flush_part F b d (w, n) p) as [w1 n1];
      cbn [fst snd] in Hn, Hfs; subst n1.
    + destruct (IH w1 (add_failed n) files) as (files2 & H1 & H2 & H3);
        [now rewrite Hfs|exact Hnd|exact Hps'
        |intros q Hq; apply Hin; now right|].
      exists files2. split; [exact H1|].
      cbn [add_failed fst snd length] in *. lia.
    + destruct (Hin p (or_introl eq_refl)) as [Hpin Hpart].
      destruct (IH w1 (add_flushed n) (remove p files))
        as (files2 & H1 & H2 & H3).
      * rewrite Hfs. apply lookup_store_same.
      * rewrite map_fst_remove. now apply NoDup_filter.
      * exact Hps'.
      * intros q Hq. destruct (Hin q (or_intror Hq)) as [Hq1 Hq2].
        split; [|exact Hq2]. rewrite map_fst_remove. apply filter_In.
        split; [exact Hq1|].
        destruct (String.eqb_spec p q) as [->|_]; [contradiction|reflexivity].
      * exists files2. split; [exact H1|].
        pose proof (parts_in_remove p files Hnd Hpin Hpart) as Hdrop.
        cbn [add_flushed fst snd length] in *. lia.
Qed.

Lemma flush_dir_counts (F : faults) (target_path : option string) (w : world)
    (n : counts) (d : string) :
  (forall files, lookup d (fs w) = Some files -> NoDup (map fst files)) ->
  length (list_parts d (fs (fst (flush_dir F target_path (w, n) d))))
  + fst (snd (flush_dir F target_path (w, n) d))
  = length (list_parts d (fs w)) + fst n
  /\ (fst (snd (flush_dir F target_path (w, n) d))
      + snd (snd (flush_dir F target_path (w, n) d))
      = fst n + snd n + length (list_parts d (fs w))
      \/ flush_dir F target_path (w, n) d = (w, add_failed n)).
Proof.
  intros Hwf. unfold flush_dir. fold (blob_of target_path d).
  set (b := blob_of target_path d).
  destruct (list_parts d (fs w)) as [|p ps] eqn:Hparts.
  - cbn [fst snd fs length]. rewrite list_parts_cleanup, Hparts.
    cbn [length]. split; [reflexivity|left; lia].
  - destruct (exists_fails F b).
    { cbn [fst snd]. rewrite Hparts. split; [reflexivity|now right]. }
    destruct (if blob_exists b (remote w) then Some (remote w)
              else if create_fails F b then None
              else Some (store b empty_append_blob (remote w))) as [c|].
    2:{ cbn [fst snd]. rewrite Hparts. split; [reflexivity|now right]. }
    destruct (lookup d (fs w)) as [files|] eqn:Hd;
      [|unfold list_parts in Hparts; rewrite Hd in Hparts; discriminate].
    assert (Hperm : Permutation (p :: ps) (filter is_part (map fst files))).
    { rewrite <- Hparts. unfold list_parts. rewrite Hd. apply sorted_perm. }
    destruct (fold_flush_part_counts F b d (p :: ps)
                {| fs := fs w; remote := c; stdout := stdout w |} n files)
      as (files2 & H1 & H2 & H3).
    + exact Hd.
    + now apply Hwf.
    + eapply Permutation_NoDup; [symmetry; exact Hperm|].
      apply NoDup_filter. now apply Hwf.
    + intros q Hq. eapply Permutation_in in Hq; [|exact Hperm].
      now apply filter_In in Hq.
    + destruct (fold_left (flush_part F b d) (p :: ps)
                  ({| fs := fs w; remote := c; stdout := stdout w |}, n))
        as [w2 n2].
      cbn [fst snd fs] in *. rewrite list_parts_cleanup.
      rewrite (length_list_parts d (fs w2) files2 H1).
      assert (Hlen : length (p :: ps) = parts_in files)
        by (unfold parts_in; now apply Permutation_length).
      split; [lia|left; lia].
Qed.

(** X4. A flush that names its target counts every part of the target's
    directory exactly once: the parts counted flushed are the ones that
    left the directory, and the others are counted failed and stay, so
    the two counters add up to the number of parts found; the one
    exception is a failure on the blob itself, which is counted as a
    single failure and leaves everything where it was. *)
Theorem every_part_counted_once (E : env) (F : faults) (t : string)
    (w w' : world) (flushed failed : nat) :
  available E -> t <> "" ->
  (forall files, lookup (parts_dir_of t) (fs w) = Some files ->
                 NoDup (map fst files)) ->
  flush_spool E F (Some t) w = Ok ((flushed, failed), w') ->
  length (list_parts (parts_dir_of t) (fs w')) + flushed
  = length (list_parts (parts_dir_of t) (fs w))
  /\ (flushed + failed = length (list_parts (parts_dir_of t) (fs w))
      \/ (flushed = 0 /\ failed = 1 /\ w' = w)).
Proof.
  intros (Hc & Hs & He) Ht Hwf. unfold flush_spool, parts_dirs.
  rewrite Hc, Hs, He. cbn [negb].
  destruct (mkdir_fails F); [discriminate|].
  destruct (String.eqb_spec t "") as [->|_]; [contradiction|].
  destruct (dir_exists (parts_dir_of t) (fs w)) eqn:Hdir; cbn [fold_left].
  - pose proof (flush_dir_counts F (Some t) w (0, 0) (parts_dir_of t) Hwf)
      as [H1 H2].
    destruct (flush_dir F (Some t) (w, (0, 0)) (parts_dir_of t))
      as [w1 [fl fa]].
    cbn [fst snd] in H1, H2. intros [= -> -> ->]. split; [lia|].
    destruct H2 as [H2|[= -> -> ->]]; [left; lia|right; auto].
  - intros [= <- <- <-]. unfold dir_exists in Hdir. unfold list_parts.
    destruct (lookup (parts_dir_of t) (fs w)); [discriminate|].
    cbn [length]. split; [reflexivity|now left].
Qed.

Definition appended_not_deleted : world :=
  {| fs := fs one_part;
     remote := [("bronze/pve/nodes.jsonl",
                 {| btype := AppendBlob; blocks := ["{1}"] |})];
     stdout := [] |}.

Lemma every_part_counted_once_witness :
  length (list_parts (parts_dir_of "bronze/pve/nodes.jsonl")
            (fs appended_not_deleted)) + 0
  = length (list_parts (parts_dir_of "bronze/pve/nodes.jsonl") (fs one_part))
  /\ (0 + 1
      = length (list_parts (parts_dir_of "bronze/pve/nodes.jsonl")
                  (fs one_part))
      \/ (0 = 0 /\ 1 = 1 /\ appended_not_deleted = one_part)).
Proof.
  apply (every_part_counted_once ready unlink_faults "bronze/pve/nodes.jsonl"
           one_part appended_not_deleted 0 1).
  - repeat split; reflexivity.
  - discriminate.
  - intros files H. cbn in H. injection H as <-.
    repeat constructor. intros [].
  - reflexivity.
Defined.


(** ** Nothing is lost *)

(** The file [name] of directory [d] holds [data]. *)
Definition held (d name : string) (data : bytes) (s : spool) : Prop :=
  exists files, lookup d s = Some files /\ lookup name files = Some data.

(** Some blob has [data] among its blocks. *)
Definition uploaded (data : bytes) (c : container) : Prop :=
  exists path b, lookup path c = Some b /\ In data (blocks b).

(** Every blob of [c] is in [c'] with the same type and the same blocks,
    possibly followed by more. *)
Definition extends (c c' : container) : Prop :=
  forall path b, lookup path c = Some b ->
  exists b' more, lookup path c' = Some b' /\ btype b' = btype b
                  /\ blocks b' = (blocks b ++ more)%list.

Definition kept (w w' : world) : Prop :=
  (forall d name data, held d name data (fs w) ->
     held d name data (fs w') \/ uploaded data (remote w'))
  /\ extends (remote w) (remote w').

Lemma extends_refl (c : container) : extends c c.
Proof. intros path b H. exists b, []. now rewrite app_nil_r. Qed.

Lemma extends_trans (c1 c2 c3 : container) :
  extends c1 c2 -> extends c2 c3 -> extends c1 c3.
Proof.
  intros H12 H23 path b H.
  destruct (H12 path b H) as (b2 & m2 & Hb2 & Ht2 & Hbl2).
  destruct (H23 path b2 Hb2) as (b3 & m3 & Hb3 & Ht3 & Hbl3).
  exists b3, (m2 ++ m3)%list. split; [exact Hb3|]. split; [congruence|].
  now rewrite Hbl3, Hbl2, app_assoc.
Qed.

Lemma uploaded_extends (data : bytes) (c c' : container) :
  extends c c' -> uploaded data c -> uploaded data c'.
Proof.
  intros He (path & b & Hb & Hin).
  destruct (He path b Hb) as (b' & more & Hb' & _ & Hbl).
  exists path, b'. split; [exact Hb'|]. rewrite Hbl. apply in_or_app. now left.
Qed.

Lemma kept_refl (w : world) : kept w w.
Proof. split; [now left|apply extends_refl]. Qed.

Lemma kept_trans (w1 w2 w3 : world) : kept w1 w2 -> kept w2 w3 -> kept w1 w3.
Proof.
  intros [H12 E12] [H23 E23]. split; [|now apply (extends_trans _ _ _ E12)].
  intros d name data H. destruct (H12 d name data H) as [H2|H2].
  - now apply H23.
  - right. now apply (uploaded_extends data _ _ E23).
Qed.

Lemma append_block_extends (path : string) (data : bytes) (c c' : container) :
  append_block path data c = Some c' ->
  extends c c' /\ uploaded data c'.
Proof.
  unfold append_block. destruct (lookup path c) as [b|] eqn:Hb; [|discriminate].
  destruct (is_append b) eqn:Happ; [|discriminate]. intros [= <-]. split.
  - intros q b0 Hq. destruct (String.eqb_spec q path) as [->|Hne].
    + rewrite lookup_store_same. eexists. exists [data].
      split; [reflexivity|]. assert (b0 = b) as -> by congruence.
      cbn [btype blocks]. split; [|reflexivity].
      unfold is_append in Happ. now destruct (btype b).
    + rewrite lookup_store_other by exact Hne. exists b0, [].
      now rewrite app_nil_r.
  - exists path. eexists. rewrite lookup_store_same. split; [reflexivity|].
    cbn [blocks]. apply in_or_app. right. now left.
Qed.

Lemma flush_part_kept (F : faults) (b d : string) (w : world) (n : counts)
    (p : string) :
  kept w (fst (flush_part F b d (w, n) p)).
Proof.
  unfold flush_part.
  destruct (read_fails F d p); [apply kept_refl|].
  destruct (lookup d (fs w)) as [files|] eqn:Hd; [|apply kept_refl].
  destruct (lookup p files) as [data|] eqn:Hp; [|apply kept_refl].
  destruct (append_fails F b p); [apply kept_refl|].
  destruct (append_block b data (remote w)) as [c|] eqn:Hc; [|apply kept_refl].
  destruct (append_block_extends b data (remote w) c Hc) as [Hext Hup].
  destruct (unlink_fails F d p); cbn [fst fs remote].
  - split; cbn [fs remote]; [now left|exact Hext].
  - split; cbn [fs remote]; [|exact Hext].
    intros d0 name data0 (files0 & Hd0 & Hname).
    unfold held, unlink. rewrite Hd.
    destruct (String.eqb_spec d0 d) as [->|Hne].
    + assert (files0 = files) as -> by congruence.
      destruct (String.eqb_spec name p) as [->|Hnp].
      * right. assert (data0 = data) as -> by congruence. exact Hup.
      * left. exists (remove p files). rewrite lookup_store_same.
        split; [reflexivity|]. now rewrite lookup_remove_other.
    + left. exists files0. now rewrite lookup_store_other.
Qed.

Lemma fold_flush_part_kept (F : faults) (b d : string) (ps : list string) :
  forall (w : world) (n : counts),
  kept w (fst (fold_left (flush_part F b d) ps (w, n))).
Proof.
  induction ps as [|p ps IH]; intros w n; cbn [fold_left].
  - apply kept_refl.
  - pose proof (flush_part_kept F b d w n p) as H1.
    destruct (flush_part F b d (w, n) p) as [w1 n1].
    eapply kept_trans; [exact H1|apply IH].
Qed.


Lemma cleanup_kept (d : string) (w : world) :
  kept w {| fs := cleanup_dir d (fs w); remote := remote w;
            stdout := stdout w |}.
Proof.
  split; cbn [fs remote]; [|apply extends_refl].
  intros d0 name data (files & Hd0 & Hname). left. exists files.
  split; [|exact Hname]. unfold cleanup_dir.
  destruct (lookup d (fs w)) as [[|f fl]|] eqn:Hd; try exact Hd0.
  destruct (String.eqb_spec d0 d) as [->|Hne].
  - assert (files = []) as -> by congruence. discriminate Hname.
  - now rewrite lookup_remove_other.
Qed.

Lemma create_extends (F : faults) (b : string) (c0 c : container) :
  (if blob_exists b c0 then Some c0
   else if create_fails F b then None
   else Some (store b empty_append_blob c0)) = Some c ->
  extends c0 c.
Proof.
  unfold blob_exists. destruct (lookup b c0) eqn:Hb.
  - intros [= <-]. apply extends_refl.
  - destruct (create_fails F b); [discriminate|]. intros [= <-].
    intros q b0 Hq. exists b0, []. rewrite app_nil_r.
    rewrite lookup_store_other by congruence. auto.
Qed.

Lemma flush_dir_kept (F : faults) (target_path : option string) (w : world)
    (n : counts) (d : string) :
  kept w (fst (flush_dir F target_path (w, n) d)).
Proof.
  unfold flush_dir. fold (blob_of target_path d).
  set (b := blob_of target_path d).
  destruct (list_parts d (fs w)) as [|p ps]; [apply cleanup_kept|].
  destruct (exists_fails F b); [apply kept_refl|].
  destruct (if blob_exists b (remote w) then Some (remote w)
            else if create_fails F b then None
            else Some (store b empty_append_blob (remote w)))
    as [c|] eqn:Hc; [|apply kept_refl].
  apply create_extends in Hc.
  pose proof (fold_flush_part_kept F b d (p :: ps)
                {| fs := fs w; remote := c; stdout := stdout w |} n) as Hfold.
  destruct (fold_left (flush_part F b d) (p :: ps)
              ({| fs := fs w; remote := c; stdout := stdout w |}, n))
    as [w2 n2].
  cbn [fst] in *.
  apply (kept_trans w {| fs := fs w; remote := c; stdout := stdout w |});
    [split; cbn [fs remote]; [now left|exact Hc]|].
  eapply kept_trans; [exact Hfold|apply cleanup_kept].
Qed.

Lemma fold_flush_dir_kept (F : faults) (target_path : option string)
    (ds : list string) :
  forall (w : world) (n : counts),
  kept w (fst (fold_left (flush_dir F target_path) ds (w, n))).
Proof.
  induction ds as [|d ds IH]; intros w n; cbn [fold_left].
  - apply kept_refl.
  - pose proof (flush_dir_kept F target_path w n d) as H1.
    destruct (flush_dir F target_path (w, n) d) as [w1 n1].
    eapply kept_trans; [exact H1|apply IH].
Qed.

(** X5. Whatever fails during a flush, no spooled data is lost and no
    blob is rewritten: every file the spool held before is either still
    there with the same content or has its content among the blocks of
    a blob, and every blob that existed keeps its type and its blocks,
    with new blocks only added after them. *)
Theorem flush_loses_nothing (E : env) (F : faults)
    (target_path : option string) (w w' : world) (n : nat * nat) :
  flush_spool E F target_path w = Ok (n, w') ->
  (forall d name data, held d name data (fs w) ->
     held d name data (fs w') \/ uploaded data (remote w'))
  /\ extends (remote w) (remote w').
Proof.
  unfold flush_spool.
  destruct (negb (conn_str_set E)); [intros [= <- <-]; apply kept_refl|].
  destruct (negb (sdk_installed E)); [intros [= <- <-]; apply kept_refl|].
  destruct (client_error E).
  { intros [= <- <-]. split; cbn [fs remote]; [now left|apply extends_refl]. }
  destruct (mkdir_fails F); [discriminate|].
  pose proof (fold_flush_dir_kept F target_path
                (parts_dirs target_path (fs w)) w (0, 0)) as H.
  destruct (fold_left (flush_dir F target_path)
              (parts_dirs target_path (fs w)) (w, (0, 0))) as [w1 n1].
  intros [= <- <-]. exact H.
Qed.

Lemma flush_loses_nothing_witness :
  (forall d name data, held d name data (fs one_part) ->
     held d name data (fs appended_not_deleted)
     \/ uploaded data (remote appended_not_deleted))
  /\ extends (remote one_part) (remote appended_not_deleted).
Proof.
  exact (flush_loses_nothing ready unlink_faults
           (Some "bronze/pve/nodes.jsonl") one_part appended_not_deleted
           (0, 1) eq_refl).
Defined.


(** ** A second flush *)

Lemma cleanup_dir_idem (d : string) (s : spool) :
  cleanup_dir d (cleanup_dir d s) = cleanup_dir d s.
Proof.
  unfold cleanup_dir.
  destruct (lookup d s) as [[|f fl]|] eqn:Hd;
    rewrite ?Hd, ?lookup_remove_same; reflexivity.
Qed.

Lemma flush_dir_cleaned (t : string) (w : world) (n : counts) :
  cleanup_dir (parts_dir_of t)
    (fs (fst (flush_dir no_faults (Some t) (w, n) (parts_dir_of t))))
  = fs (fst (flush_dir no_faults (Some t) (w, n) (parts_dir_of t))).
Proof.
  unfold flush_dir.
  destruct (list_parts (parts_dir_of t) (fs w)) as [|p ps].
  - cbn [fst fs]. apply cleanup_dir_idem.
  - change (exists_fails no_faults) with (fun _ : string => false).
    change (create_fails no_faults) with (fun _ : string => false).
    cbv beta.
    destruct (blob_exists _ (remote w));
      destruct (fold_left _ (p :: ps) _) as [w2 n2];
      cbn [fst fs]; apply cleanup_dir_idem.
Qed.

Lemma flush_dir_idle (F : faults) (t : string) (w : world) :
  list_parts (parts_dir_of t) (fs w) = [] ->
  cleanup_dir (parts_dir_of t) (fs w) = fs w ->
  flush_dir F (Some t) (w, (0, 0)) (parts_dir_of t) = (w, (0, 0)).
Proof.
  intros Hparts Hclean. unfold flush_dir. rewrite Hparts, Hclean.
  now destruct w.
Qed.

(** X6. With the store reachable, nothing failing and the target free
    or an append blob, a flush that names its target counts no failure
    and leaves no part behind, and a second flush of the same target
    finds nothing to do: it answers [(0, 0)] and changes nothing. *)
Theorem second_flush_is_idle (E : env) (t : string) (w w1 : world)
    (n1 : nat * nat) :
  available E -> t <> "" ->
  (forall files, lookup (parts_dir_of t) (fs w) = Some files ->
                 NoDup (map fst files)) ->
  appendable t (remote w) = true ->
  flush_spool E no_faults (Some t) w = Ok (n1, w1) ->
  snd n1 = 0
  /\ list_parts (parts_dir_of t) (fs w1) = []
  /\ flush_spool E no_faults (Some t) w1 = Ok ((0, 0), w1).
Proof.
  intros HE Ht Hwf Happ Hrun.
  assert (Hidle : forall w0, list_parts (parts_dir_of t) (fs w0) = [] ->
            cleanup_dir (parts_dir_of t) (fs w0) = fs w0 ->
            flush_spool E no_faults (Some t) w0 = Ok ((0, 0), w0)).
  { intros w0 Hp Hc.
    destruct (dir_exists (parts_dir_of t) (fs w0)) eqn:Hd.
    - rewrite (flush_spool_target E no_faults t w0 HE Ht eq_refl Hd).
      now rewrite flush_dir_idle.
    - destruct HE as (Hc1 & Hs & He). unfold flush_spool, parts_dirs.
      rewrite Hc1, Hs, He, Hd. cbn [negb].
      destruct (String.eqb_spec t "") as [->|_]; [contradiction|reflexivity]. }
  destruct (dir_exists (parts_dir_of t) (fs w)) eqn:Hd.
  - rewrite (flush_spool_target E no_faults t w HE Ht eq_refl Hd) in Hrun.
    injection Hrun as <- <-.
    pose proof (flush_dir_cleaned t w (0, 0)) as Hclean.
    assert (Hres : snd (snd (flush_dir no_faults (Some t) (w, (0, 0))
                               (parts_dir_of t))) = 0
                   /\ list_parts (parts_dir_of t)
                        (fs (fst (flush_dir no_faults (Some t) (w, (0, 0))
                                    (parts_dir_of t)))) = []).
    { destruct (list_parts (parts_dir_of t) (fs w)) as [|p ps] eqn:Hparts.
      - unfold flush_dir. rewrite Hparts. cbn [fst snd fs].
        now rewrite list_parts_cleanup.
      - unfold dir_exists in Hd.
        destruct (lookup (parts_dir_of t) (fs w)) as [files|] eqn:Hl;
          [|discriminate].
        destruct (flush_dir_pass no_faults t Ht (fun _ => eq_refl)
                    (fun _ => eq_refl) eq_refl eq_refl w (0, 0) files p ps
                    Hl (Hwf files eq_refl) Hparts Happ)
          as (w' & b' & Hfd & Hlist & _).
        rewrite Hfd. cbn [fst snd].
        assert (Hall : filter (accepted no_faults t) (p :: ps) = p :: ps)
          by (apply forallb_filter_id, forallb_forall; reflexivity).
        assert (Hnone : filter (rejected no_faults t) (p :: ps) = [])
          by (apply filter_none; reflexivity).
        rewrite Hnone. split; [reflexivity|].
        rewrite Hlist, Hall, map_fst_remove_all, filter_comm.
        rewrite filter_everything; [reflexivity|].
        intros x Hx. rewrite <- Hparts. unfold list_parts. rewrite Hl.
        eapply Permutation_in; [symmetry; apply sorted_perm|exact Hx]. }
    destruct Hres as [Hfail Hnone].
    split; [exact Hfail|]. split; [exact Hnone|].
    now apply Hidle.
  - destruct HE as (Hc1 & Hs & He). unfold flush_spool, parts_dirs in Hrun.
    rewrite Hc1, Hs, He, Hd in Hrun. cbn [negb] in Hrun.
    destruct (String.eqb_spec t "") as [->|_]; [contradiction|].
    cbn [fold_left] in Hrun. change (mkdir_fails no_faults) with false in Hrun.
    injection Hrun as <- <-. split; [reflexivity|].
    unfold dir_exists in Hd.
    destruct (lookup (parts_dir_of t) (fs w)) eqn:Hl; [discriminate|].
    assert (Hp : list_parts (parts_dir_of t) (fs w) = [])
      by (unfold list_parts; now rewrite Hl).
    split; [exact Hp|]. apply Hidle; [exact Hp|].
    unfold cleanup_dir. now rewrite Hl.
Qed.


Definition all_flushed : world :=
  {| fs := [];
     remote := [("bronze/pve/nodes.jsonl",
                 {| btype := AppendBlob; blocks := ["{1}"] |})];
     stdout := [] |}.

Lemma second_flush_is_idle_witness :
  snd (1, 0) = 0
  /\ list_parts (parts_dir_of "bronze/pve/nodes.jsonl") (fs all_flushed) = []
  /\ flush_spool ready no_faults (Some "bronze/pve/nodes.jsonl") all_flushed
     = Ok ((0, 0), all_flushed).
Proof.
  apply (second_flush_is_idle ready "bronze/pve/nodes.jsonl" one_part
           all_flushed (1, 0)).
  - repeat split; reflexivity.
  - discriminate.
  - intros files H. cbn in H. injection H as <-.
    repeat constructor. intros [].
  - reflexivity.
  - reflexivity.
Defined.


(** ** What the flush prints *)

Lemma flush_part_stdout (F : faults) (b d : string) (w : world) (n : counts)
    (p : string) :
  stdout (fst (flush_part F b d (w, n) p)) = stdout w.
Proof.
  unfold flush_part.
  destruct (read_fails F d p); [reflexivity|].
  destruct (lookup d (fs w)); [|reflexivity].
  destruct (lookup p _); [|reflexivity].
  destruct (append_fails F b p); [reflexivity|].
  destruct (append_block b _ (remote w)); [|reflexivity].
  now destruct (unlink_fails F d p).
Qed.

Lemma fold_flush_part_stdout (F : faults) (b d : string) (ps : list string) :
  forall (w : world) (n : counts),
  stdout (fst (fold_left (flush_part F b d) ps (w, n))) = stdout w.
Proof.
  induction ps as [|p ps IH]; intros w n; cbn [fold_left]; [reflexivity|].
  pose proof (flush_part_stdout F b d w n p) as H1.
  destruct (flush_part F b d (w, n) p) as [w1 n1]. cbn [fst] in H1.
  now rewrite IH.
Qed.

Lemma flush_dir_stdout (F : faults) (target_path : option string) (w : world)
    (n : counts) (d : string) :
  stdout (fst (flush_dir F target_path (w, n) d)) = stdout w.
Proof.
  unfold flush_dir. fold (blob_of target_path d).
  destruct (list_parts d (fs w)) as [|p ps]; [reflexivity|].
  destruct (exists_fails F _); [reflexivity|].
  destruct (if blob_exists _ (remote w) then _ else _) as [c|];
    [|reflexivity].
  pose proof (fold_flush_part_stdout F (blob_of target_path d) d (p :: ps)
                {| fs := fs w; remote := c; stdout := stdout w |} n) as H.
  destruct (fold_left _ (p :: ps) _) as [w2 n2]. exact H.
Qed.

Lemma fold_flush_dir_stdout (F : faults) (target_path : option string)
    (ds : list string) :
  forall (w : world) (n : counts),
  stdout (fst (fold_left (flush_dir F target_path) ds (w, n))) = stdout w.
Proof.
  induction ds as [|d ds IH]; intros w n; cbn [fold_left]; [reflexivity|].
  pose proof (flush_dir_stdout F target_path w n d) as H1.
  destruct (flush_dir F target_path (w, n) d) as [w1 n1]. cbn [fst] in H1.
  now rewrite IH.
Qed.

(** A flush prints nothing unless the storage client cannot be made. *)
Lemma flush_spool_stdout (E : env) (F : faults) (target_path : option string)
    (w w' : world) (n : nat * nat) :
  client_error E = None ->
  flush_spool E F target_path w = Ok (n, w') -> stdout w' = stdout w.
Proof.
  intros He. unfold flush_spool. rewrite He.
  destruct (negb (conn_str_set E)); [now intros [= <- <-]|].
  destruct (negb (sdk_installed E)); [now intros [= <- <-]|].
  destruct (mkdir_fails F); [discriminate|].
  pose proof (fold_flush_dir_stdout F target_path
                (parts_dirs target_path (fs w)) w (0, 0)) as H.
  destruct (fold_left _ _ _) as [w1 n1]. now intros [= <- <-].
Qed.

(** ** A record spooled, then flushed by name *)

Lemma write_then_flush (E : env) (t stamp uid : string) (line : bytes)
    (s : spool) (c : container) (out : list string) :
  available E -> t <> "" -> well_formed s -> appendable t c = true ->
  exists flushed w' b',
    flush_spool E no_faults (Some t)
      {| fs := write_to_spool t stamp uid line s; remote := c; stdout := out |}
    = Ok ((flushed, 0), w')
    /\ 1 <= flushed
    /\ list_parts (parts_dir_of t) (fs w') = []
    /\ lookup t (remote w') = Some b'
    /\ In line (blocks b')
    /\ stdout w' = out.
Proof.
  intros HE Ht Hwf Happ.
  set (w := {| fs := write_to_spool t stamp uid line s; remote := c;
               stdout := out |}).
  destruct (written_directory t stamp uid line s Hwf)
    as (files & Hdir & Hnd & Hline & _).
  assert (Hin : In (part_name stamp uid) (list_parts (parts_dir_of t) (fs w))).
  { unfold list_parts. cbn [fs w]. rewrite Hdir.
    eapply Permutation_in; [symmetry; apply sorted_perm|].
    apply filter_In. split; [|apply part_name_is_part].
    apply lookup_In. rewrite Hline. discriminate. }
  destruct (list_parts (parts_dir_of t) (fs w)) as [|p ps] eqn:Hparts;
    [contradiction|].
  assert (Hd : dir_exists (parts_dir_of t) (fs w) = true)
    by (unfold dir_exists; cbn [fs w]; now rewrite Hdir).
  pose proof (flush_spool_target E no_faults t w HE Ht eq_refl Hd) as Hrun.
  destruct (flush_dir_pass no_faults t Ht (fun _ => eq_refl)
              (fun _ => eq_refl) eq_refl eq_refl w (0, 0) files p ps
              Hdir Hnd Hparts Happ)
    as (w1 & b1 & Hfd & Hlist & _ & Hb1 & _ & Hbl1).
  assert (Hall : filter (accepted no_faults t) (p :: ps) = p :: ps)
    by (apply forallb_filter_id, forallb_forall; reflexivity).
  assert (Hnone : filter (rejected no_faults t) (p :: ps) = [])
    by (apply filter_none; reflexivity).
  rewrite Hfd, Hall, Hnone in Hrun. cbn [fst snd length Nat.add] in Hrun.
  exists (S (length ps)), w1, b1. split; [exact Hrun|].
  split; [lia|]. split; [|split; [exact Hb1|split]].
  - rewrite Hlist, Hall, map_fst_remove_all, filter_comm.
    rewrite filter_everything; [reflexivity|].
    intros x Hx. rewrite <- Hparts. unfold list_parts. cbn [fs w].
    rewrite Hdir.
    eapply Permutation_in; [symmetry; apply sorted_perm|exact Hx].
  - rewrite Hbl1, Hall. apply in_or_app. right.
    replace line with (content files (part_name stamp uid))
      by (unfold content; now rewrite Hline).
    now apply in_map.
  - destruct HE as (_ & _ & He).
    now rewrite (flush_spool_stdout E no_faults (Some t) w w1 _ He Hrun).
Qed.


(** ** The flush after a write *)

Lemma flush_spool_kept (E : env) (F : faults) (target_path : option string)
    (w w' : world) (n : nat * nat) :
  flush_spool E F target_path w = Ok (n, w') -> kept w w'.
Proof.
  unfold flush_spool.
  destruct (negb (conn_str_set E)); [intros [= <- <-]; apply kept_refl|].
  destruct (negb (sdk_installed E)); [intros [= <- <-]; apply kept_refl|].
  destruct (client_error E).
  { intros [= <- <-]. split; cbn [fs remote]; [now left|apply extends_refl]. }
  destruct (mkdir_fails F); [discriminate|].
  pose proof (fold_flush_dir_kept F target_path
                (parts_dirs target_path (fs w)) w (0, 0)) as H.
  destruct (fold_left _ _ _) as [w1 n1]. now intros [= <- <-].
Qed.

(** Unless the spool root cannot be made, a flush returns. *)
Lemma flush_spool_returns (E : env) (F : faults) (target_path : option string)
    (w : world) :
  mkdir_fails F = false ->
  exists n w', flush_spool E F target_path w = Ok (n, w').
Proof.
  intros Hm. unfold flush_spool. rewrite Hm.
  destruct (negb (conn_str_set E)); [eauto|].
  destruct (negb (sdk_installed E)); [eauto|].
  destruct (client_error E); [eauto|].
  destruct (fold_left _ _ _) as [w1 n1]. eauto.
Qed.

Lemma held_after_write (t stamp uid : string) (line : bytes) (s : spool) :
  held (parts_dir_of t) (part_name stamp uid) line
    (write_to_spool t stamp uid line s).
Proof.
  unfold held, write_to_spool, write_file, mkdir, dir_exists.
  destruct (lookup (parts_dir_of t) s) as [files|] eqn:E.
  - rewrite E. eexists. rewrite lookup_store_same. split; [reflexivity|].
    apply lookup_store_same.
  - rewrite lookup_store_same, store_store. eexists.
    rewrite lookup_store_same. split; [reflexivity|].
    cbn. now rewrite String.eqb_refl.
Qed.


End FlushFacts.

(* ================================================================= *)
(** * Properties: the merged context                                  *)
(* ================================================================= *)

Module ContextFacts.

Import Interp.

Lemma NoDup_keys_update (e : dict) :
  forall d, NoDup (keys d) -> NoDup (keys (dict_update d e)).
Proof.
  unfold dict_update.
  induction e as [|[k v] e IH]; intros d Hd; cbn [fold_left]; [exact Hd|].
  apply IH. now apply DictFacts.NoDup_keys_set.
Qed.

Section WithBuiltins.

Variable upper : string -> string.
Variable repr : value -> string.

(** [full_ctx] after steps 1 and 2 of [resolve_str]. *)
Definition full_ctx (self : ConfigContext) (extra_ctx : option dict) : dict :=
  match extra_ctx with
  | Some e => dict_update (base_context self) e
  | None => base_context self
  end.

(** One entry of the upper-cased context. *)
Definition upper_entry (kv : string * value) : string * value :=
  (upper (fst kv), VStr (upper (py_str repr (snd kv)))).

Lemma merged_context_full (self : ConfigContext) (extra_ctx : option dict) :
  merged_context upper repr self extra_ctx
  = dict_update (full_ctx self extra_ctx)
                (upper_ctx upper repr (full_ctx self extra_ctx)).
Proof. unfold merged_context, full_ctx. now destruct extra_ctx. Qed.

Lemma upper_ctx_update (full : dict) :
  upper_ctx upper repr full = dict_update [] (map upper_entry full).
Proof.
  unfold upper_ctx, dict_update. generalize (@nil (string * value)).
  induction full as [|kv full IH]; intros acc; cbn [fold_left map];
    [reflexivity|apply IH].
Qed.

Lemma dict_get_upper_entries (l : dict) (k : string) (v : value) :
  dict_get k l = Some v ->
  (forall k', In k' (keys l) -> upper k' = upper k -> k' = k) ->
  dict_get (upper k) (map upper_entry l)
  = Some (VStr (upper (py_str repr v))).
Proof.
  induction l as [|[k0 v0] l IH]; cbn [dict_get map keys fst];
    [discriminate|].
  intros Hk Huniq. unfold upper_entry at 1. cbn [fst snd dict_get].
  destruct (String.eqb_spec k k0) as [->|Hne].
  - rewrite String.eqb_refl. congruence.
  - destruct (String.eqb_spec (upper k) (upper k0)) as [Heq|_].
    + exfalso. apply Hne. symmetry. apply Huniq; [now left|congruence].
    + apply IH; [exact Hk|]. intros k' Hin. apply Huniq. now right.
Qed.

Lemma dict_get_upper_entries_none (l : dict) (K : string) :
  (forall k', In k' (keys l) -> upper k' <> K) ->
  dict_get K (map upper_entry l) = None.
Proof.
  induction l as [|[k0 v0] l IH]; intros H; cbn [map dict_get];
    [reflexivity|].
  unfold upper_entry at 1. cbn [fst snd].
  destruct (String.eqb_spec K (upper k0)) as [->|_].
  - exfalso. apply (H k0); [now left|reflexivity].
  - apply IH. intros k' Hin. apply H. now right.
Qed.

Lemma keys_rev (l : dict) : keys (rev l) = rev (keys l).
Proof. unfold keys. apply map_rev. Qed.

Lemma upper_ctx_lookup (full : dict) (K : string) :
  dict_get K (rev (upper_ctx upper repr full))
  = dict_get K (map upper_entry (rev full)).
Proof.
  rewrite DictFacts.dict_get_rev
    by (rewrite upper_ctx_update; apply NoDup_keys_update; constructor).
  rewrite upper_ctx_update, DictFacts.dict_get_update_last, map_rev.
  now destruct (dict_get K (rev (map upper_entry full))).
Qed.

(** A name that is the upper-case form of no key holds in the merged
    context what the context held before the upper-case pass. *)
Lemma merged_context_plain (self : ConfigContext) (extra_ctx : option dict)
    (k : string) :
  (forall k', In k' (keys (full_ctx self extra_ctx)) -> upper k' <> k) ->
  dict_get k (merged_context upper repr self extra_ctx)
  = dict_get k (full_ctx self extra_ctx).
Proof.
  intros H. rewrite merged_context_full, DictFacts.dict_get_update_last.
  rewrite upper_ctx_lookup, dict_get_upper_entries_none; [reflexivity|].
  intros k' Hin. apply H. rewrite keys_rev in Hin. now apply in_rev.
Qed.

(** X7. In the context [resolve_str] formats with, the upper-case form
    of a key holds the upper-cased [str] of the key's value, provided no
    other key has the same upper-case form; this is so even for a key
    that is its own upper-case form, whose value is thereby replaced.
    A name that is the upper-case form of no key holds what the
    context held for it. *)
Theorem upper_case_variants (self : ConfigContext) (extra_ctx : option dict)
    (k : string) (v : value) :
  NoDup (keys (base_context self)) ->
  dict_get k (full_ctx self extra_ctx) = Some v ->
  ((forall k', In k' (keys (full_ctx self extra_ctx)) ->
               upper k' = upper k -> k' = k) ->
   dict_get (upper k) (merged_context upper repr self extra_ctx)
   = Some (VStr (upper (py_str repr v))))
  /\ ((forall k', In k' (keys (full_ctx self extra_ctx)) -> upper k' <> k) ->
      dict_get k (merged_context upper repr self extra_ctx) = Some v).
Proof.
  intros Hbase Hk.
  assert (Hfull : NoDup (keys (full_ctx self extra_ctx))).
  { unfold full_ctx. destruct extra_ctx; [|exact Hbase].
    now apply NoDup_keys_update. }
  split; intros H.
  - rewrite merged_context_full, DictFacts.dict_get_update_last.
    rewrite upper_ctx_lookup.
    rewrite (dict_get_upper_entries (rev (full_ctx self extra_ctx)) k v);
      [reflexivity| |].
    + now rewrite DictFacts.dict_get_rev.
    + intros k' Hin. apply H. rewrite keys_rev in Hin. now apply in_rev.
  - now rewrite merged_context_plain.
Qed.

End WithBuiltins.

Lemma upper_case_variants_witness :
  dict_get "NODE"
    (merged_context Example.upper Example.repr InterpFacts.hl2 None)
  = Some (VStr "HL2")
  /\ dict_get "node"
       (merged_context Example.upper Example.repr InterpFacts.hl2 None)
     = Some (VStr "hl2").
Proof.
  destruct (upper_case_variants Example.upper Example.repr InterpFacts.hl2
              None "node" (VStr "hl2")) as [H1 H2].
  - repeat constructor. intros [].
  - reflexivity.
  - split.
    + apply H1. intros k' [<-|[]] _. reflexivity.
    + apply H2. intros k' [<-|[]]. discriminate.
Defined.


End ContextFacts.

(* ================================================================= *)
(** * Properties: the context of one loop item                        *)
(* ================================================================= *)

Module LoopContextFacts.

Import Interp Template LoopContext.

Lemma dict_get_map_values (g : value -> value) (k : string) (l : dict) :
  dict_get k (map (fun kv => (fst kv, g (snd kv))) l)
  = option_map g (dict_get k l).
Proof.
  induction l as [|[k0 v0] l IH]; cbn [map dict_get fst snd]; [reflexivity|].
  now destruct (String.eqb k k0).
Qed.

Section WithBuiltins.

Variable upper : string -> string.
Variable repr : value -> string.

Local Abbreviation str := (py_str repr).

Lemma safe_item_update (item : dict) :
  Collector.safe_item repr item
  = dict_update [] (map (fun kv => (fst kv, VStr (str (snd kv)))) item).
Proof.
  unfold Collector.safe_item, dict_update. generalize (@nil (string * value)).
  induction item as [|kv item IH]; intros acc; cbn [fold_left map];
    [reflexivity|apply IH].
Qed.

Lemma safe_item_lookup (item : dict) (k : string) :
  NoDup (keys item) ->
  dict_get k (rev (Collector.safe_item repr item))
  = option_map (fun v => VStr (str v)) (dict_get k item).
Proof.
  intros Hnd. rewrite safe_item_update.
  rewrite DictFacts.dict_get_rev
    by (apply ContextFacts.NoDup_keys_update; constructor).
  rewrite DictFacts.dict_get_update_last, <- map_rev.
  rewrite (dict_get_map_values (fun v => VStr (str v))).
  rewrite DictFacts.dict_get_rev by exact Hnd.
  now destruct (dict_get k item).
Qed.

(** What the item's context holds for ["id"]. *)
Lemma item_ctx_id (item_id : value) (item : dict) :
  NoDup (keys item) ->
  dict_get "id" (item_ctx repr item_id item)
  = Some (match dict_get "id" item with
          | Some y => VStr (str y)
          | None => item_id
          end).
Proof.
  intros Hnd. unfold item_ctx.
  rewrite DictFacts.dict_get_update_last, safe_item_lookup by exact Hnd.
  now destruct (dict_get "id" item).
Qed.

Lemma item_ctx_keys (item_id : value) (item : dict) :
  NoDup (keys (item_ctx repr item_id item)).
Proof.
  unfold item_ctx. apply ContextFacts.NoDup_keys_update.
  repeat constructor. intros [].
Qed.

Lemma escape_brace_free (s : string) : brace_free s = true -> escape s = s.
Proof.
  induction s as [|c s IH]; cbn [brace_free escape]; [reflexivity|].
  intros H. apply andb_true_iff in H. destruct H as [Hc Hs].
  apply negb_true_iff in Hc. now rewrite Hc, IH.
Qed.

(** A text without braces is a template that stands for itself. *)
Lemma literal_template (s : string) :
  brace_free s = true -> template_of [TLit s] = s.
Proof.
  intros H. unfold template_of. cbn [map show_tok Str.join].
  now rewrite (escape_brace_free s H), Str.append_nil_r.
Qed.

Lemma id_template (pre : string) :
  brace_free pre = true ->
  template_of [TLit pre; TVar "id"] = pre ++ "{id}".
Proof.
  intros H. unfold template_of. cbn [map show_tok Str.join].
  now rewrite (escape_brace_free pre H).
Qed.

(** The item pass, on a template that ends in [{id}]. *)
Lemma item_pass_fills_id (ctx : ConfigContext) (pre : string)
    (item_id : value) (item : dict) :
  NoDup (keys item) ->
  (forall k, upper k <> "id") ->
  brace_free pre = true ->
  resolve_str upper repr ctx (VStr (pre ++ "{id}"))
    (Some (item_ctx repr item_id item)) true
  = Ok (VStr (pre ++ str (match dict_get "id" item with
                          | Some y => y
                          | None => item_id
                          end))).
Proof.
  intros Hitem Hupper Hpre.
  assert (Hid : dict_get "id"
                  (merged_context upper repr ctx
                     (Some (item_ctx repr item_id item)))
                = Some (match dict_get "id" item with
                        | Some y => VStr (str y)
                        | None => item_id
                        end)).
  { rewrite ContextFacts.merged_context_plain by (intros k' _; apply Hupper).
    unfold ContextFacts.full_ctx.
    rewrite DictFacts.dict_get_update by apply item_ctx_keys.
    now rewrite item_ctx_id. }
  unfold resolve_str, format.
  rewrite <- (id_template pre Hpre).
  rewrite InterpFacts.parse_template by reflexivity.
  rewrite InterpFacts.render_strict by reflexivity.
  cbn [first_missing]. rewrite Hid. unfold filled. cbn [map fill Str.join].
  rewrite Hid, Str.append_nil_r. now destruct (dict_get "id" item).
Qed.

(** The configuration pass, on the same template. *)
Lemma config_pass_on_id (ctx : ConfigContext) (pre : string) :
  (forall k, upper k <> "id") ->
  brace_free pre = true ->
  resolve_str upper repr ctx (VStr (pre ++ "{id}")) None false
  = Ok (VStr (pre ++ match dict_get "id" (base_context ctx) with
                     | Some v => str v
                     | None => "{id}"
                     end)).
Proof.
  intros Hupper Hpre.
  assert (Hid : dict_get "id" (merged_context upper repr ctx None)
                = dict_get "id" (base_context ctx)).
  { now rewrite ContextFacts.merged_context_plain
      by (intros k' _; apply Hupper). }
  unfold resolve_str, format.
  rewrite <- (id_template pre Hpre).
  rewrite InterpFacts.parse_template by reflexivity.
  rewrite InterpFacts.render_lenient by reflexivity.
  cbn [bind]. unfold filled. cbn [map fill Str.join].
  now rewrite Hid, Str.append_nil_r.
Qed.

(** A text without braces goes through the item pass unchanged. *)
Lemma item_pass_on_literal (ctx : ConfigContext) (s : string)
    (extra_ctx : option dict) :
  brace_free s = true ->
  resolve_str upper repr ctx (VStr s) extra_ctx true = Ok (VStr s).
Proof.
  intros Hs. unfold resolve_str, format.
  rewrite <- (literal_template s Hs) at 1.
  rewrite InterpFacts.parse_template by reflexivity.
  rewrite InterpFacts.render_strict by reflexivity.
  cbn [first_missing]. unfold filled. cbn [map fill Str.join].
  now rewrite Str.append_nil_r.
Qed.

(** What [resolve_dict] leaves under a key. *)
Lemma resolved_items_get (self : ConfigContext) (extra_ctx : option dict)
    (strict : bool) (d d' : dict) (k : string) (v : value) :
  Tree.resolved_items upper repr self extra_ctx strict d d' ->
  dict_get k d = Some v ->
  exists v', dict_get k d' = Some v'
             /\ Tree.resolved upper repr self extra_ctx strict v v'.
Proof.
  revert d'. induction d as [|[k0 v0] d IH]; intros d' H Hk;
    inversion H; subst; [discriminate|].
  cbn [dict_get] in *. destruct (String.eqb k k0).
  - injection Hk as <-. eauto.
  - now apply IH.
Qed.


End WithBuiltins.

Lemma upper_char_not_i (c : ascii) : Example.upper_char c <> "i"%char.
Proof.
  destruct c as [[] [] [] [] [] [] [] []]; vm_compute; discriminate.
Qed.

Lemma upper_not_id (k : string) : Example.upper k <> "id".
Proof.
  destruct k as [|c k]; cbn [Example.upper]; [discriminate|].
  intros H. injection H as Hc _. now apply upper_char_not_i in Hc.
Qed.

(** A job that lists guests, and the same job with an ["id"] of its
    own in the [collect] block. *)
Definition guests : dict :=
  [("entity", VStr "guest_status");
   ("collect", VDict [("mode", VStr "loop");
                      ("item_endpoint_template", VStr "/items/{id}")])].

Definition guests_with_id : dict :=
  [("entity", VStr "guest_status");
   ("collect", VDict [("mode", VStr "loop"); ("id", VInt 5);
                      ("item_endpoint_template", VStr "/items/{id}")])].

Definition context_for (cfg collect : dict) : ConfigContext :=
  {| Interp.cfg := cfg; base_context := collect |}.

Definition guest_101 : dict := [("vmid", VInt 101); ("id", VStr "qemu/101")].


End LoopContextFacts.

(* ================================================================= *)
(** * Properties: HTTP client                                         *)
(* ================================================================= *)

Module HttpFacts.

Import BronzePath Http.

(** ** Trailing slashes *)

Fixpoint slashes (n : nat) : string :=
  match n with
  | O => ""
  | S k => String "/" (slashes k)
  end.

Lemma rstrip_slash_no_slash (s pre : string) : rstrip_slash s <> pre ++ "/".
Proof.
  revert pre. induction s as [|c r IH]; intros pre; cbn [rstrip_slash].
  - destruct pre; discriminate.
  - destruct (rstrip_slash r) as [|x r'] eqn:Hr.
    + destruct (Ascii.eqb_spec c "/") as [->|Hc].
      * destruct pre; discriminate.
      * destruct pre as [|y [|z pre]]; cbn [append]; try discriminate.
        intros [= ->]. contradiction.
    + destruct pre as [|y pre]; cbn [append]; [discriminate|].
      intros [= _ H]. now apply (IH pre).
Qed.

Lemma rstrip_slash_ends (s : string) :
  Str.ends_with "/" (rstrip_slash s) = false.
Proof.
  destruct (Str.ends_with "/" (rstrip_slash s)) eqn:E; [|reflexivity].
  apply StorageFacts.ends_with_iff in E. destruct E as [pre E].
  now apply rstrip_slash_no_slash in E.
Qed.

Lemma rstrip_slash_only (s : string) :
  exists n, s = rstrip_slash s ++ slashes n.
Proof.
  induction s as [|c r [n IH]]; cbn [rstrip_slash]; [now exists 0|].
  destruct (rstrip_slash r) as [|x r'] eqn:Hr.
  - cbn [append] in IH. destruct (Ascii.eqb_spec c "/") as [->|Hc].
    + exists (S n). cbn [slashes append]. now rewrite <- IH.
    + exists n. cbn [append]. now rewrite <- IH.
  - exists n. cbn [append] in *. now rewrite <- IH.
Qed.

Section WithBuiltins.

Variable repr : value -> string.
Variable exn_str : exn -> string.
Variable strip : string -> string.
Variable lower : string -> string.
Variable environ : string -> option string.
Variable network : list request -> request -> result response.

Local Abbreviation get := (Http.get repr exn_str network).
Local Abbreviation init := (Http.init repr exn_str strip lower environ network).

(** The request [get] sends for [endpoint]. *)
Definition get_request (c : HttpClient) (endpoint : string) : request :=
  {| method := GET; url := url_of c endpoint; json_body := None;
     verify_arg := verify c; timeout_arg := timeout c |}.

(** X9. [HttpClient.get] on a string endpoint sends exactly one request,
    a GET to the URL built from the endpoint.  It returns the decoded
    body exactly when the request is answered with a status below 400
    and a JSON body; every other outcome is a [CollectorError], a
    [SystemExit] of the transport apart, which is let through. *)
Theorem get_returns_json_or_collector_error (c : HttpClient)
    (endpoint : string) :
  sent (snd (get c (VStr endpoint))) = (sent c ++ [get_request c endpoint])%list
  /\ (forall v, fst (get c (VStr endpoint)) = Ok v
                <-> exists resp,
                      network (sent c) (get_request c endpoint) = Ok resp
                      /\ (status_code resp < 400)%Z
                      /\ json resp = Some v)
  /\ (forall x, fst (get c (VStr endpoint)) = Raise x ->
                (exists msg, x = CollectorError msg)
                \/ (exists m, x = SystemExit m
                              /\ network (sent c) (get_request c endpoint)
                                 = Raise (SystemExit m))).
Proof.
  unfold Http.get, send. fold (get_request c endpoint).
  destruct (network (sent c) (get_request c endpoint)) as [resp|e] eqn:Hnet.
  - destruct (Z.leb_spec 400 (status_code resp)) as [Hs|Hs].
    + cbn [fst snd sent]. split; [reflexivity|]. split.
      * intros v. split; [discriminate|].
        intros (r & [= <-] & Hlt & _). lia.
      * intros x [= <-]. left. eauto.
    + destruct (json resp) as [v0|] eqn:Hj; cbn [fst snd sent];
        (split; [reflexivity|]); split.
      * intros v. split.
        -- intros [= <-]. now exists resp.
        -- intros (r & [= <-] & _ & Hv). congruence.
      * discriminate.
      * intros v. split; [discriminate|].
        intros (r & [= <-] & _ & Hv). congruence.
      * intros x [= <-]. left. eauto.
  - assert (Hno : forall v, (exists resp : response,
                     Raise e = Ok resp /\ (status_code resp < 400)%Z
                     /\ json resp = Some v) -> False)
      by (intros v (r & Hr & _); discriminate Hr).
    destruct e; cbn [fst snd sent]; (split; [reflexivity|]);
      (split; [intros v; split; [discriminate|intros H; destruct (Hno v H)]|]);
      intros x [= <-]; eauto.
Qed.

(** ** What authentication sends *)

Local Abbreviation authenticate :=
  (Http.authenticate repr exn_str strip lower environ network).
Local Abbreviation auth_unifi_os_session :=
  (Http.auth_unifi_os_session repr exn_str lower environ network).

(** The settings [__init__] fixes. *)
Definition same_settings (c c' : HttpClient) : Prop :=
  base_url c' = base_url c /\ verify c' = verify c
  /\ timeout c' = timeout c.

Lemma auth_proxmox_settings (c c' : HttpClient) :
  auth_proxmox repr lower environ c = Ok c' ->
  same_settings c c' /\ sent c' = sent c.
Proof.
  unfold auth_proxmox.
  destruct (getenv environ _) as [token_id|]; [|discriminate]. cbn [bind].
  destruct (if truthy _ then _ else _) as [token_secret|]; [|discriminate].
  cbn [bind]. destruct (unset token_id || unset token_secret); [discriminate|].
  intros [= <-]. now repeat split.
Qed.

Lemma auth_unifi_api_key_settings (c c' : HttpClient) :
  auth_unifi_api_key repr lower environ c = Ok c' ->
  same_settings c c' /\ sent c' = sent c.
Proof.
  unfold auth_unifi_api_key.
  destruct (getenv environ _) as [key|]; [|discriminate]. cbn [bind].
  destruct (unset key); [discriminate|].
  intros [= <-]. now repeat split.
Qed.

(** The session login sends nothing, or one POST to the login URL. *)
Lemma auth_unifi_os_session_sends (c : HttpClient)
    (r : result HttpClient) (log : list request) :
  auth_unifi_os_session c = (r, log) ->
  (log = sent c /\ is_ok r = false)
  \/ (exists rq, log = (sent c ++ [rq])%list /\ method rq = POST
                 /\ url rq
                    = base_url c
                      ++ Interp.py_str repr
                           (get_default "login_path" (VStr "/api/auth/login")
                              (auth_cfg c))
                 /\ base_url c <> ""
                 /\ forall c', r = Ok c' ->
                      same_settings c c' /\ sent c' = log).
Proof.
  unfold Http.auth_unifi_os_session, fail, done.
  destruct (getenv environ _) as [username|];
    [|intros [= <- <-]; now left].
  destruct (getenv environ _) as [password|];
    [|intros [= <- <-]; now left].
  destruct (unset username || unset password);
    [intros [= <- <-]; now left|].
  destruct (String.eqb_spec (base_url c) "") as [|Hbase];
    [intros [= <- <-]; now left|].
  unfold send. set (rq := {| method := POST |}).
  intros H. right. exists rq.
  destruct (network (sent c) rq) as [resp|e].
  - destruct (400 <=? status_code resp)%Z.
    + injection H as <- <-. cbn [sent]. repeat split; auto; discriminate.
    + destruct (unset _); injection H as <- <-; cbn [sent];
        repeat split; auto; intros;
        match goal with Hc : Ok _ = Ok _ |- _ => injection Hc as <- end;
        reflexivity.
  - destruct e; injection H as <- <-; cbn [sent]; repeat split; auto;
      discriminate.
Qed.


Lemma authenticate_sends (c : HttpClient) (r : result HttpClient)
    (log : list request) :
  authenticate c = (r, log) ->
  (forall c', r = Ok c' -> same_settings c c' /\ sent c' = log)
  /\ (log = sent c
      \/ exists rq m,
           log = (sent c ++ [rq])%list /\ method rq = POST
           /\ get_default "mode" (VStr "none") (auth_cfg c) = VStr m
           /\ strip m = "unifi_os_session").
Proof.
  unfold Http.authenticate, fail, done, quietly.
  destruct (get_default "mode" (VStr "none") (auth_cfg c)) as [| | |m| | |]
    eqn:Hmode; try (intros [= <- <-]; split; [discriminate|now left]).
  destruct (String.eqb_spec (strip m) "none") as [_|_].
  { intros [= <- <-]. split; [|now left].
    intros c' [= <-]. now repeat split. }
  destruct (String.eqb_spec (strip m) "proxmox_token") as [_|_].
  { intros [= <- <-]. split; [|now left].
    intros c' H. now destruct (auth_proxmox_settings c c' H). }
  destruct (String.eqb_spec (strip m) "unifi_api_key") as [_|_].
  { intros [= <- <-]. split; [|now left].
    intros c' H. now destruct (auth_unifi_api_key_settings c c' H). }
  destruct (String.eqb_spec (strip m) "unifi_os_session") as [Hm|_].
  2:{ intros [= <- <-]. split; [discriminate|now left]. }
  intros H. apply auth_unifi_os_session_sends in H.
  destruct H as [[-> Hr]|(rq & -> & Hpost & _ & _ & Hok)].
  - split; [|now left]. intros c' ->. discriminate Hr.
  - split; [exact Hok|]. right. now exists rq, m.
Qed.

(** X10. Constructing an [HttpClient] sends nothing, with one
    exception: in mode [unifi_os_session] it may send one request, a
    POST, and nothing else.  No other mode, and no failure to
    authenticate in any mode, touches the network. *)
Theorem construction_sends_at_most_a_login (default_headers : headers)
    (cfg : dict) (r : result HttpClient) (log : list request) :
  init default_headers cfg = (r, log) ->
  log = []
  \/ exists rq auth m,
       log = [rq] /\ method rq = POST
       /\ get_mapping "auth" cfg = Ok auth
       /\ get_default "mode" (VStr "none") auth = VStr m
       /\ strip m = "unifi_os_session".
Proof.
  unfold Http.init.
  destruct (get_mapping "http" cfg) as [http|]; [|intros [= <- <-]; now left].
  destruct (Scheduler.py_int _) as [seconds|]; [|intros [= <- <-]; now left].
  destruct (get_mapping "auth" cfg) as [auth|]; [|intros [= <- <-]; now left].
  intros H. apply authenticate_sends in H.
  destruct H as [_ [->|(rq & m & -> & Hpost & Hmode & Hm)]]; [now left|].
  right. now exists rq, auth, m.
Qed.


(** X11. The client's base URL is [http.base_url] with its trailing
    slashes removed and nothing else changed.  An absolute endpoint is
    asked for as it is, whatever the base URL.  Any other endpoint is
    appended to the base URL: as it is written when it starts with a
    slash, after one added slash when it does not.  So an endpoint
    written with no or one leading slash is joined by exactly one
    slash, and further leading slashes are kept: [//x] is asked for as
    [<base>//x]. *)
Theorem endpoint_appended_to_base (default_headers : headers)
    (cfg http : dict) (c : HttpClient) (log : list request) :
  init default_headers cfg = (Ok c, log) ->
  get_mapping "http" cfg = Ok http ->
  (exists n, Interp.py_str repr (get_default "base_url" (VStr "") http)
             = base_url c ++ slashes n)
  /\ Str.ends_with "/" (base_url c) = false
  /\ (forall e, String.prefix "http://" e || String.prefix "https://" e = true ->
                url_of c e = e)
  /\ (forall e, String.prefix "http://" e || String.prefix "https://" e = false ->
                (String.prefix "/" e = true -> url_of c e = base_url c ++ e)
                /\ (String.prefix "/" e = false ->
                    url_of c e = base_url c ++ "/" ++ e))
  /\ (forall e, url_of c ("//" ++ e) = base_url c ++ "//" ++ e).
Proof.
  unfold Http.init. intros H Hhttp. rewrite Hhttp in H.
  destruct (Scheduler.py_int _) as [seconds|]; [|discriminate].
  destruct (get_mapping "auth" cfg) as [auth|]; [|discriminate].
  apply authenticate_sends in H. destruct H as [H _].
  destruct (H c eq_refl) as [(Hbase & _ & _) _]. cbn [base_url] in Hbase.
  split; [|split; [|split; [|split]]].
  - rewrite Hbase. apply rstrip_slash_only.
  - rewrite Hbase. apply rstrip_slash_ends.
  - intros e He. unfold url_of. now rewrite He.
  - intros e He. unfold url_of. rewrite He.
    split; intros Hslash; now rewrite Hslash.
  - intros e. unfold url_of.
    change (String.prefix "http://" ("//" ++ e)) with false.
    change (String.prefix "https://" ("//" ++ e)) with false.
    cbn. now destruct e.
Qed.


(** ** Proxmox token *)

Lemma get_set_header (name v : string) (h : headers) :
  get_header lower name (set_header lower name v h) = Some v.
Proof.
  unfold get_header, set_header. now rewrite StorageFacts.lookup_store_same.
Qed.

Lemma unset_false (x : option string) :
  unset x = false <-> exists s, x = Some s /\ s <> "".
Proof.
  destruct x as [s|]; cbn [unset].
  - destruct (String.eqb_spec s "") as [->|Hs].
    + split; [discriminate|]. intros (s & [= <-] & H). contradiction.
    + split; [|reflexivity]. intros _. now exists s.
  - split; [discriminate|]. intros (s & H & _). discriminate.
Qed.

(** X12. Proxmox token authentication succeeds exactly when the
    variable named by [token_id_env] (by default
    [PROXMOX_API_TOKEN_ID]) is set and not empty, [token_secret_env] is
    configured, and the variable it names is set and not empty; the
    client then carries [Authorization: PVEAPIToken=<id>=<secret>] and
    is otherwise unchanged.  With no [token_secret_env] configured it
    never succeeds: there is no default name for the secret. *)
Theorem proxmox_token_needs_both (c : HttpClient) :
  (forall c',
     auth_proxmox repr lower environ c = Ok c'
     <-> exists n1 n2 id secret,
           get_default "token_id_env" (VStr "PROXMOX_API_TOKEN_ID")
             (auth_cfg c) = VStr n1
           /\ environ n1 = Some id /\ id <> ""
           /\ get_or_none "token_secret_env" (auth_cfg c) = VStr n2
           /\ n2 <> ""
           /\ environ n2 = Some secret /\ secret <> ""
           /\ c' = with_header lower "Authorization"
                     ("PVEAPIToken=" ++ id ++ "=" ++ secret) c)
  /\ (dict_get "token_secret_env" (auth_cfg c) = None ->
      is_ok (auth_proxmox repr lower environ c) = false)
  /\ (forall v,
        get_header lower "Authorization"
          (session_headers (with_header lower "Authorization" v c))
        = Some v).
Proof.
  split; [|split].
  - intros c'. unfold auth_proxmox. split.
    + destruct (get_default "token_id_env" _ (auth_cfg c))
        as [| | |n1| | |] eqn:H1; try discriminate.
      cbn [getenv bind].
      destruct (get_or_none "token_secret_env" (auth_cfg c))
        as [|b|z|n2|l|d|q] eqn:H2; cbn [truthy].
      * cbn [bind unset]. rewrite orb_true_r. discriminate.
      * destruct b; [discriminate|].
        cbn [bind unset]. rewrite orb_true_r. discriminate.
      * destruct (negb (z =? 0)%Z); [discriminate|].
        cbn [bind unset]. rewrite orb_true_r. discriminate.
      * destruct (String.eqb_spec n2 "") as [->|Hn2]; cbn [negb].
        { cbn [bind unset]. rewrite orb_true_r. discriminate. }
        cbn [getenv bind].
        destruct (unset (environ n1)) eqn:U1; [discriminate|].
        destruct (unset (environ n2)) eqn:U2; [discriminate|].
        apply unset_false in U1, U2.
        destruct U1 as (id & E1 & Hid). destruct U2 as (secret & E2 & Hsec).
        cbn [orb]. rewrite E1, E2. cbn [env_str]. intros [= <-].
        exists n1, n2, id, secret. auto 10.
      * destruct l; [|discriminate].
        cbn [bind unset]. rewrite orb_true_r. discriminate.
      * destruct d; [|discriminate].
        cbn [bind unset]. rewrite orb_true_r. discriminate.
      * destruct (negb (Qeq_bool q 0)); [discriminate|].
        cbn [bind unset]. rewrite orb_true_r. discriminate.
    + intros (n1 & n2 & id & secret & H1 & E1 & Hid & H2 & Hn2 & E2 & Hsec & ->).
      rewrite H1, H2. cbn [getenv bind truthy].
      destruct (String.eqb_spec n2 "") as [|_]; [contradiction|].
      cbn [negb getenv bind]. rewrite E1, E2. cbn [unset env_str].
      destruct (String.eqb_spec id "") as [|_]; [contradiction|].
      destruct (String.eqb_spec secret "") as [|_]; [contradiction|].
      reflexivity.
  - intros Hnone. unfold auth_proxmox, get_or_none. rewrite Hnone.
    cbn [truthy]. destruct (getenv environ _); [|reflexivity].
    cbn [bind unset]. now rewrite orb_true_r.
  - intros v. cbn [with_header session_headers]. apply get_set_header.
Qed.


End WithBuiltins.

(** ** A worked configuration *)

(** [str.lower] on ASCII letters. *)
Definition lower_char (c : ascii) : ascii :=
  let n := nat_of_ascii c in
  if ((65 <=? n) && (n <=? 90))%nat then ascii_of_nat (n + 32) else c.

Fixpoint lower (s : string) : string :=
  match s with
  | EmptyString => ""
  | String c r => String (lower_char c) (lower r)
  end.

(** [str.strip] where the only white space is the blank. *)
Fixpoint lstrip (s : string) : string :=
  match s with
  | String " " r => lstrip r
  | _ => s
  end.

Fixpoint rstrip (s : string) : string :=
  match s with
  | EmptyString => ""
  | String c r =>
      match rstrip r with
      | EmptyString => if Ascii.eqb c " " then "" else String c ""
      | r' => String c r'
      end
  end.

Definition strip (s : string) : string := rstrip (lstrip s).

Definition lab_environ (name : string) : option string :=
  if String.eqb name "UNIFI_OS_USERNAME" then Some "admin"
  else if String.eqb name "UNIFI_OS_PASSWORD" then Some "secret"
  else None.

Definition exn_name (e : exn) : string :=
  match e with
  | OSError => "connection refused"
  | _ => "error"
  end.

(** A network that answers every request with an empty JSON object. *)
Definition accepting (_ : list request) (_ : request) : result response :=
  Ok {| status_code := 200; text := "{}"; json := Some (VDict []);
        header := fun _ => None |}.

Definition unifi_cfg : dict :=
  [("http", VDict [("base_url", VStr "https://unifi.lan/")]);
   ("auth", VDict [("mode", VStr " unifi_os_session ")])].

Definition pve_cfg : dict :=
  [("http", VDict [("base_url", VStr "https://pve.lan:8006//")])].

Definition pve_client : HttpClient :=
  {| http_cfg := [("base_url", VStr "https://pve.lan:8006//")];
     auth_cfg := [];
     base_url := "https://pve.lan:8006";
     verify := true;
     timeout := 20;
     session_headers := [];
     sent := [] |}.

Lemma construction_sends_at_most_a_login_witness :
  snd (Http.init Example.repr exn_name strip lower lab_environ accepting
         [] unifi_cfg) = []
  \/ exists rq auth m,
       snd (Http.init Example.repr exn_name strip lower lab_environ accepting
              [] unifi_cfg) = [rq]
       /\ method rq = POST
       /\ get_mapping "auth" unifi_cfg = Ok auth
       /\ get_default "mode" (VStr "none") auth = VStr m
       /\ strip m = "unifi_os_session".
Proof.
  apply (construction_sends_at_most_a_login Example.repr exn_name strip lower
           lab_environ accepting [] unifi_cfg
           (fst (Http.init Example.repr exn_name strip lower lab_environ
                   accepting [] unifi_cfg))).
  apply surjective_pairing.
Defined.

Lemma endpoint_appended_to_base_witness :
  (exists n, "https://pve.lan:8006//" = base_url pve_client ++ slashes n)
  /\ Str.ends_with "/" (base_url pve_client) = false
  /\ url_of pve_client "https://other.lan/x" = "https://other.lan/x"
  /\ url_of pve_client "api2/json/nodes"
     = "https://pve.lan:8006/api2/json/nodes"
  /\ url_of pve_client "/api2/json/nodes"
     = "https://pve.lan:8006/api2/json/nodes"
  /\ url_of pve_client "//api2/json/nodes"
     = "https://pve.lan:8006//api2/json/nodes".
Proof.
  destruct (endpoint_appended_to_base Example.repr exn_name strip lower
              lab_environ accepting [] pve_cfg
              [("base_url", VStr "https://pve.lan:8006//")] pve_client []
              eq_refl eq_refl) as (Hbase & Hend & Habs & Hrel & Htwo).
  split; [exact Hbase|]. split; [exact Hend|].
  split; [now apply Habs|].
  split; [now apply (Hrel "api2/json/nodes")|].
  split; [now apply (Hrel "/api2/json/nodes")|].
  exact (Htwo "api2/json/nodes").
Defined.

Example login_is_sent :
  snd (Http.init Example.repr exn_name strip lower lab_environ accepting
         [] unifi_cfg)
  = [{| method := POST; url := "https://unifi.lan/api/auth/login";
        json_body := Some (VDict [("username", VStr "admin");
                                  ("password", VStr "secret")]);
        verify_arg := true; timeout_arg := 20 |}].
Proof. reflexivity. Qed.


End HttpFacts.

(* ================================================================= *)
(** * Properties: picking the items                                   *)
(* ================================================================= *)

Module ItemsFacts.

Import BronzePath Items.

Lemma descend_non_mapping (path : list string) (v : value) :
  (forall d, v <> VDict d) -> descend path v = v.
Proof.
  intros H. destruct path as [|k path]; [reflexivity|].
  destruct v; try reflexivity. now destruct (H d).
Qed.

Lemma descend_app (pre post : list string) (v : value) :
  post <> [] ->
  descend (pre ++ post) v = descend post (descend pre v).
Proof.
  intros Hpost. revert v.
  induction pre as [|k pre IH]; intros v; cbn [app descend]; [reflexivity|].
  destruct v; try (now rewrite descend_non_mapping by discriminate).
  apply IH.
Qed.

Section WithRepr.

Variable repr : value -> string.

(** X13. A JSON path that names a key the response does not have
    yields no items and no warning: the missing key reads as the empty
    list, and what remains of the path is not looked at. *)
Theorem missing_key_gives_no_items (p : string) (list_data : value)
    (pre post : list string) (key : string) (d : dict) :
  p <> "" ->
  split_on "." p = (pre ++ key :: post)%list ->
  descend pre list_data = VDict d ->
  dict_get key d = None ->
  select_items repr (VStr p) list_data = Ok ([], []).
Proof.
  intros Hp Hsplit Hpre Hkey. unfold select_items. cbn [truthy].
  destruct (String.eqb_spec p "") as [|_]; [contradiction|]. cbn [negb bind].
  rewrite Hsplit, descend_app by discriminate. rewrite Hpre.
  cbn [descend]. unfold get_default. rewrite Hkey.
  now rewrite descend_non_mapping by discriminate.
Qed.

(** X14. The walk along a JSON path stops at the first value that is
    not a mapping: once a list is reached it is the list of items,
    whatever components the path still has. In particular a response
    that is itself a list is used as it is, whatever the path. *)
Theorem path_stops_at_a_list (p : string) (list_data : value)
    (pre post : list string) (l : list value) :
  p <> "" ->
  split_on "." p = (pre ++ post)%list ->
  descend pre list_data = VList l ->
  select_items repr (VStr p) list_data = Ok (l, []).
Proof.
  intros Hp Hsplit Hpre. unfold select_items. cbn [truthy].
  destruct (String.eqb_spec p "") as [|_]; [contradiction|]. cbn [negb bind].
  rewrite Hsplit. destruct post as [|k post].
  - now rewrite app_nil_r, Hpre.
  - rewrite descend_app by discriminate. rewrite Hpre.
    now rewrite descend_non_mapping by discriminate.
Qed.

End WithRepr.

Definition vm_list : value :=
  VDict [("data", VList [VDict [("vmid", VInt 101)]])].

Lemma missing_key_gives_no_items_witness :
  select_items Example.repr (VStr "result.items") vm_list = Ok ([], []).
Proof.
  apply (missing_key_gives_no_items Example.repr "result.items" vm_list
           [] ["items"] "result" [("data", VList [VDict [("vmid", VInt 101)]])]).
  - discriminate.
  - reflexivity.
  - reflexivity.
  - reflexivity.
Defined.

Lemma path_stops_at_a_list_witness :
  select_items Example.repr (VStr "data.items") vm_list
  = Ok ([VDict [("vmid", VInt 101)]], []).
Proof.
  apply (path_stops_at_a_list Example.repr "data.items" vm_list
           ["data"] ["items"] [VDict [("vmid", VInt 101)]]).
  - discriminate.
  - reflexivity.
  - reflexivity.
Defined.

End ItemsFacts.

(* ================================================================= *)
(** * Properties: one collection run                                  *)
(* ================================================================= *)

Module RunnerFacts.

Import BronzePath Runner.

Section Run.

Variable upper : string -> string.
Variable repr : value -> string.
Variable exn_str : exn -> string.
Variable strip : string -> string.
Variable lower : string -> string.
Variable environ : string -> option string.
Variable network : list Http.request -> Http.request -> result Http.response.
Variable dumps : value -> string.
Variable default_headers : Http.headers.
Variable E : Storage.env.
Variable F : Storage.faults.
Variable today : string.
Variable stamp_at : nat -> string.
Variable uid_at : nat -> string.
Variable host_at : nat -> Wrapper.host.
Variable parts_mkdir_fails : nat -> bool.
Variable write_fails : nat -> bool.

Local Abbreviation run_collector :=
  (Runner.run_collector upper repr exn_str strip lower environ network dumps
     default_headers E F today stamp_at uid_at host_at parts_mkdir_fails
     write_fails).
Local Abbreviation init :=
  (Http.init repr exn_str strip lower environ network default_headers).
Local Abbreviation str := (Interp.py_str repr).

(** The line printed before anything is fetched. *)
Definition running (resolved_cfg : dict) (mode : value) : string :=
  "Running " ++ str (get_or_none "entity" resolved_cfg) ++ " in mode: "
  ++ str mode.

Lemma init_sent (cfg : dict) (c : Http.HttpClient)
    (log : list Http.request) :
  init cfg = (Ok c, log) -> Http.sent c = log.
Proof.
  unfold Http.init.
  destruct (get_mapping "http" cfg); [|discriminate].
  destruct (Scheduler.py_int _); [|discriminate].
  destruct (get_mapping "auth" cfg); [|discriminate].
  intros H. apply HttpFacts.authenticate_sends in H.
  destruct H as [H _]. now destruct (H c eq_refl).
Qed.

(** X15. A [collect.mode] that is neither ["single"] nor ["loop"] is
    not an error: the run fetches nothing and spools nothing, still
    flushes whatever the spool holds for the path of the
    configuration, and reports zero records collected. *)
Theorem unknown_mode_collects_nothing (cfg : dict) (w : Storage.world)
    (ctx : Interp.ConfigContext) (resolved_cfg collect : dict)
    (client : Http.HttpClient) (log : list Http.request) (mode : value)
    (blob_path : string) (n : nat * nat) (w' : Storage.world) :
  context_of cfg = Ok ctx ->
  Interp.resolve_dict upper repr ctx cfg None false = Ok resolved_cfg ->
  init resolved_cfg = (Ok client, log) ->
  get_mapping "collect" resolved_cfg = Ok collect ->
  get_default "mode" (VStr "single") collect = mode ->
  mode <> VStr "single" -> mode <> VStr "loop" ->
  build_bronze_path repr resolved_cfg today = Ok blob_path ->
  Storage.flush_spool E F (Some blob_path) (say (running resolved_cfg mode) w)
  = Ok (n, w') ->
  run_collector cfg w
  = (Ok tt,
     Some {| disk := say (finished repr resolved_cfg 0 (fst n) (snd n)) w';
             wire := log |}).
Proof.
  intros Hctx Hres Hinit Hcollect Hmode Hs Hl Hpath Hflush.
  unfold Runner.run_collector. rewrite Hctx, Hres, Hinit, Hcollect, Hmode.
  assert (Hg : gather upper repr exn_str network ctx resolved_cfg collect mode
                 client = (Ok [], Some client, [])).
  { unfold gather. destruct mode as [| | |m| | |]; try reflexivity.
    destruct (String.eqb_spec m "single") as [->|_]; [contradiction|].
    destruct (String.eqb_spec m "loop") as [->|_]; [contradiction|].
    reflexivity. }
  rewrite Hg. unfold store_records. rewrite Hpath. cbn [spool_all].
  fold (running resolved_cfg mode).
  assert (Hw : with_fs (Storage.fs (says [] (say (running resolved_cfg mode) w)))
                 (says [] (say (running resolved_cfg mode) w))
               = say (running resolved_cfg mode) w).
  { unfold with_fs, says, say. cbn. now rewrite app_nil_r. }
  rewrite Hw, Hflush. destruct n as [flushed failed]. cbn [fst snd].
  now rewrite (init_sent resolved_cfg client log Hinit).
Qed.

(** X16. In mode ["single"] a configuration with no [endpoint], at the
    top level or in the [collect] block, is refused with a
    [CollectorError], but only after the client has been constructed:
    the requests of the authentication have been sent by then.
    Nothing is spooled or flushed. *)
Theorem single_mode_needs_endpoint (cfg : dict) (w : Storage.world)
    (ctx : Interp.ConfigContext) (resolved_cfg collect : dict)
    (client : Http.HttpClient) (log : list Http.request) :
  context_of cfg = Ok ctx ->
  Interp.resolve_dict upper repr ctx cfg None false = Ok resolved_cfg ->
  init resolved_cfg = (Ok client, log) ->
  get_mapping "collect" resolved_cfg = Ok collect ->
  get_default "mode" (VStr "single") collect = VStr "single" ->
  truthy (get_or_none "endpoint" resolved_cfg) = false ->
  truthy (get_or_none "endpoint" collect) = false ->
  run_collector cfg w
  = (Raise (CollectorError "Mode 'single' requires 'endpoint' in config"),
     Some {| disk := say (running resolved_cfg (VStr "single")) w;
             wire := log |}).
Proof.
  intros Hctx Hres Hinit Hcollect Hmode He1 He2.
  unfold Runner.run_collector. rewrite Hctx, Hres, Hinit, Hcollect, Hmode.
  unfold gather. cbn [String.eqb Ascii.eqb Bool.eqb].
  unfold gather_single, py_or. rewrite He1, He2. cbn [negb].
  unfold stop, says, say, running. cbn [Storage.fs Storage.remote Storage.stdout].
  rewrite app_nil_r. now rewrite (init_sent resolved_cfg client log Hinit).
Qed.

Lemma bronze_path_nonempty (cfg : dict) (dt path : string) :
  build_bronze_path repr cfg dt = Ok path -> path <> "".
Proof.
  unfold build_bronze_path.
  destruct (get_mapping "storage" cfg) as [storage|]; [|discriminate].
  destruct (get_mapping "collect" cfg) as [collect|]; [|discriminate].
  cbn [bind]. intros [= <-].
  destruct (str (get_default "bronze_prefix" (VStr "bronze") storage));
    discriminate.
Qed.

(** X17. A run in mode ["single"] whose request is answered delivers
    the answer: with the store reachable, nothing failing on the way
    and the path free or an append blob, the run returns having sent
    that one request more, the wrapped record is among the blocks of
    the blob of the configuration's path, no part is left in the
    path's directory, no failure is reported, and one record is
    reported collected. *)
Theorem single_mode_delivers (cfg : dict) (w : Storage.world)
    (ctx : Interp.ConfigContext) (resolved_cfg collect : dict)
    (client c1 : Http.HttpClient) (log : list Http.request)
    (endpoint ep data : value) (blob_path : string) :
  F = Storage.no_faults ->
  parts_mkdir_fails 0 = false -> write_fails 0 = false ->
  StorageFacts.available E ->
  StorageFacts.well_formed (Storage.fs w) ->
  context_of cfg = Ok ctx ->
  Interp.resolve_dict upper repr ctx cfg None false = Ok resolved_cfg ->
  init resolved_cfg = (Ok client, log) ->
  get_mapping "collect" resolved_cfg = Ok collect ->
  get_default "mode" (VStr "single") collect = VStr "single" ->
  py_or (get_or_none "endpoint" resolved_cfg) (get_or_none "endpoint" collect)
  = endpoint ->
  truthy endpoint = true ->
  Interp.resolve_str upper repr ctx endpoint None true = Ok ep ->
  Http.get repr exn_str network client ep = (Ok data, c1) ->
  build_bronze_path repr resolved_cfg today = Ok blob_path ->
  StorageFacts.appendable blob_path (Storage.remote w) = true ->
  exists flushed w' b',
    run_collector cfg w
    = (Ok tt,
       Some {| disk := say (finished repr resolved_cfg 1 flushed 0) w';
               wire := Http.sent c1 |})
    /\ 1 <= flushed
    /\ Storage.list_parts (Storage.parts_dir_of blob_path) (Storage.fs w') = []
    /\ Storage.lookup blob_path (Storage.remote w') = Some b'
    /\ In (line_of dumps (wrap host_at resolved_cfg c1 0 data))
          (Storage.blocks b')
    /\ Storage.stdout w'
       = (Storage.stdout w ++ [running resolved_cfg (VStr "single")])%list.
Proof.
  intros HF Hmk Hwr HE Hwf Hctx Hres Hinit Hcollect Hmode Hend Htrue Hep Hget
    Hpath Happ.
  destruct (FlushFacts.write_then_flush E blob_path (stamp_at 0) (uid_at 0)
              (line_of dumps (wrap host_at resolved_cfg c1 0 data))
              (Storage.fs w) (Storage.remote w)
              (Storage.stdout w ++ [running resolved_cfg (VStr "single")])%list
              HE (bronze_path_nonempty _ _ _ Hpath) Hwf Happ)
    as (flushed & w' & b' & Hflush & Hone & Hparts & Hblob & Hin & Hout).
  exists flushed, w', b'. split; [|auto].
  unfold Runner.run_collector. rewrite Hctx, Hres, Hinit, Hcollect, Hmode.
  unfold gather. cbn [String.eqb Ascii.eqb Bool.eqb].
  unfold gather_single. rewrite Hend, Htrue. cbn [negb].
  rewrite Hep, Hget. unfold store_records. rewrite Hpath.
  cbn [spool_all]. unfold spool_record. rewrite HF.
  change (Storage.mkdir_fails Storage.no_faults) with false. cbv iota.
  rewrite Hmk, Hwr. unfold with_fs, says, say.
  cbn [Storage.fs Storage.remote Storage.stdout].
  rewrite app_nil_r. fold (running resolved_cfg (VStr "single")).
  now rewrite Hflush.
Qed.


(** X18. The spool makes a single-mode run durable: once the answer
    has been fetched and its record written, the run returns whatever
    fails in the flush (the blob unreachable, an append or a deletion
    failing, the store not configured at all), and afterwards the
    record's line is either still in its part file or among the blocks
    of a blob. *)
Theorem spooled_record_survives (cfg : dict) (w : Storage.world)
    (ctx : Interp.ConfigContext) (resolved_cfg collect : dict)
    (client c1 : Http.HttpClient) (log : list Http.request)
    (endpoint ep data : value) (blob_path : string) :
  Storage.mkdir_fails F = false ->
  parts_mkdir_fails 0 = false -> write_fails 0 = false ->
  context_of cfg = Ok ctx ->
  Interp.resolve_dict upper repr ctx cfg None false = Ok resolved_cfg ->
  init resolved_cfg = (Ok client, log) ->
  get_mapping "collect" resolved_cfg = Ok collect ->
  get_default "mode" (VStr "single") collect = VStr "single" ->
  py_or (get_or_none "endpoint" resolved_cfg) (get_or_none "endpoint" collect)
  = endpoint ->
  truthy endpoint = true ->
  Interp.resolve_str upper repr ctx endpoint None true = Ok ep ->
  Http.get repr exn_str network client ep = (Ok data, c1) ->
  build_bronze_path repr resolved_cfg today = Ok blob_path ->
  exists m,
    run_collector cfg w = (Ok tt, Some m)
    /\ (FlushFacts.held (Storage.parts_dir_of blob_path)
          (Storage.part_name (stamp_at 0) (uid_at 0))
          (line_of dumps (wrap host_at resolved_cfg c1 0 data))
          (Storage.fs (disk m))
        \/ FlushFacts.uploaded
             (line_of dumps (wrap host_at resolved_cfg c1 0 data))
             (Storage.remote (disk m))).
Proof.
  intros HF Hmk Hwr Hctx Hres Hinit Hcollect Hmode Hend Htrue Hep Hget Hpath.
  set (line := line_of dumps (wrap host_at resolved_cfg c1 0 data)).
  set (w1 := {| Storage.fs :=
                  Storage.write_to_spool blob_path (stamp_at 0) (uid_at 0)
                    line (Storage.fs w);
                Storage.remote := Storage.remote w;
                Storage.stdout :=
                  (Storage.stdout w
                   ++ [running resolved_cfg (VStr "single")])%list |}).
  destruct (FlushFacts.flush_spool_returns E F (Some blob_path) w1 HF)
    as ([flushed failed] & w' & Hflush).
  exists {| disk := say (finished repr resolved_cfg 1 flushed failed) w';
            wire := Http.sent c1 |}.
  split.
  - unfold Runner.run_collector. rewrite Hctx, Hres, Hinit, Hcollect, Hmode.
    unfold gather. cbn [String.eqb Ascii.eqb Bool.eqb].
    unfold gather_single. rewrite Hend, Htrue. cbn [negb].
    rewrite Hep, Hget. unfold store_records. rewrite Hpath.
    cbn [spool_all]. unfold spool_record. rewrite HF, Hmk, Hwr.
    unfold with_fs, says, say.
    cbn [Storage.fs Storage.remote Storage.stdout].
    rewrite app_nil_r. fold (running resolved_cfg (VStr "single")).
    fold line. fold w1. now rewrite Hflush.
  - destruct (FlushFacts.flush_spool_kept E F (Some blob_path) w1 w' _ Hflush)
      as [Hkept _].
    cbn [disk say Storage.fs Storage.remote].
    apply Hkept. apply FlushFacts.held_after_write.
Qed.


End Run.

(** ** A worked run *)

(** [json.dumps] with the compact separators, on strings that need no
    escaping and on floats with an integral value. *)
Fixpoint dumps (v : value) : string :=
  match v with
  | VNone => "null"
  | VBool true => "true"
  | VBool false => "false"
  | VInt z => NilZero.string_of_int (Z.to_int z)
  | VStr s => String "034"%char (s ++ String "034"%char "")
  | VFloat q =>
      NilZero.string_of_int (Z.to_int (Z.quot (Qnum q) (Zpos (Qden q))))
      ++ ".0"
  | VList l =>
      "[" ++ (fix elements (l : list value) : string :=
                match l with
                | [] => ""
                | [x] => dumps x
                | x :: r => dumps x ++ "," ++ elements r
                end) l ++ "]"
  | VDict d =>
      "{" ++ (fix members (d : list (string * value)) : string :=
                match d with
                | [] => ""
                | [(k, x)] =>
                    String "034"%char (k ++ String "034"%char "") ++ ":"
                    ++ dumps x
                | (k, x) :: r =>
                    String "034"%char (k ++ String "034"%char "") ++ ":"
                    ++ dumps x ++ "," ++ members r
                end) d ++ "}"
  end.

Definition lab_run :=
  Runner.run_collector Example.upper Example.repr HttpFacts.exn_name
    HttpFacts.strip HttpFacts.lower HttpFacts.lab_environ HttpFacts.accepting
    dumps [] StorageFacts.ready Storage.no_faults "2024-01-01"
    (fun _ => "20240101T000000") (fun _ => "aa")
    (fun _ => WrapperFacts.lab_host) (fun _ => false) (fun _ => false).

Definition empty_world : Storage.world :=
  {| Storage.fs := []; Storage.remote := []; Storage.stdout := [] |}.

Definition lab_client : Http.HttpClient :=
  {| Http.http_cfg := [("base_url", VStr "https://pve.lan:8006")];
     Http.auth_cfg := [];
     Http.base_url := "https://pve.lan:8006";
     Http.verify := true;
     Http.timeout := 20;
     Http.session_headers := [];
     Http.sent := [] |}.

Definition cfg_with (collect : dict) : dict :=
  [("source", VStr "proxmox"); ("entity", VStr "node_status");
   ("http", VDict [("base_url", VStr "https://pve.lan:8006")]);
   ("collect", VDict collect)].

Definition lab_path : string :=
  "bronze/proxmox/node_status/dt=2024-01-01/node_status_2024-01-01.jsonl".

Lemma unknown_mode_collects_nothing_witness :
  lab_run (cfg_with [("mode", VStr "batch")]) empty_world
  = (Ok tt,
     Some {| disk :=
               {| Storage.fs := []; Storage.remote := [];
                  Storage.stdout :=
                    ["Running node_status in mode: batch";
                     "Finished node_status: collected 0, flushed 0, failed 0"]
               |};
             wire := [] |}).
Proof.
  exact (unknown_mode_collects_nothing Example.upper Example.repr
           HttpFacts.exn_name HttpFacts.strip HttpFacts.lower
           HttpFacts.lab_environ HttpFacts.accepting dumps []
           StorageFacts.ready Storage.no_faults "2024-01-01"
           (fun _ => "20240101T000000") (fun _ => "aa")
           (fun _ => WrapperFacts.lab_host) (fun _ => false) (fun _ => false)
           (cfg_with [("mode", VStr "batch")]) empty_world
           {| Interp.cfg := cfg_with [("mode", VStr "batch")];
              Interp.base_context := [("mode", VStr "batch")] |}
           (cfg_with [("mode", VStr "batch")]) [("mode", VStr "batch")]
           lab_client [] (VStr "batch") lab_path (0, 0)
           (say "Running node_status in mode: batch" empty_world)
           eq_refl eq_refl eq_refl eq_refl eq_refl
           ltac:(discriminate) ltac:(discriminate) eq_refl eq_refl).
Defined.

Lemma single_mode_needs_endpoint_witness :
  lab_run (cfg_with [("mode", VStr "single")]) empty_world
  = (Raise (CollectorError "Mode 'single' requires 'endpoint' in config"),
     Some {| disk :=
               {| Storage.fs := []; Storage.remote := [];
                  Storage.stdout := ["Running node_status in mode: single"] |};
             wire := [] |}).
Proof.
  exact (single_mode_needs_endpoint Example.upper Example.repr
           HttpFacts.exn_name HttpFacts.strip HttpFacts.lower
           HttpFacts.lab_environ HttpFacts.accepting dumps []
           StorageFacts.ready Storage.no_faults "2024-01-01"
           (fun _ => "20240101T000000") (fun _ => "aa")
           (fun _ => WrapperFacts.lab_host) (fun _ => false) (fun _ => false)
           (cfg_with [("mode", VStr "single")]) empty_world
           {| Interp.cfg := cfg_with [("mode", VStr "single")];
              Interp.base_context := [("mode", VStr "single")] |}
           (cfg_with [("mode", VStr "single")]) [("mode", VStr "single")]
           lab_client []
           eq_refl eq_refl eq_refl eq_refl eq_refl eq_refl eq_refl).
Defined.


Definition single_cfg : dict :=
  cfg_with [("mode", VStr "single"); ("endpoint", VStr "/api2/json/nodes")].

Definition after_get : Http.HttpClient :=
  snd (Http.get Example.repr HttpFacts.exn_name HttpFacts.accepting lab_client
         (VStr "/api2/json/nodes")).

Lemma well_formed_empty : StorageFacts.well_formed [].
Proof. split; [constructor|]. intros d files H. discriminate H. Qed.

Lemma single_mode_delivers_witness :
  exists flushed w' b',
    lab_run single_cfg empty_world
    = (Ok tt,
       Some {| disk := say (finished Example.repr single_cfg 1 flushed 0) w';
               wire := Http.sent after_get |})
    /\ 1 <= flushed
    /\ Storage.list_parts (Storage.parts_dir_of lab_path) (Storage.fs w') = []
    /\ Storage.lookup lab_path (Storage.remote w') = Some b'
    /\ In (line_of dumps
             (wrap (fun _ => WrapperFacts.lab_host) single_cfg after_get 0
                (VDict [])))
          (Storage.blocks b')
    /\ Storage.stdout w'
       = (Storage.stdout empty_world
          ++ [running Example.repr single_cfg (VStr "single")])%list.
Proof.
  exact (single_mode_delivers Example.upper Example.repr
           HttpFacts.exn_name HttpFacts.strip HttpFacts.lower
           HttpFacts.lab_environ HttpFacts.accepting dumps []
           StorageFacts.ready Storage.no_faults "2024-01-01"
           (fun _ => "20240101T000000") (fun _ => "aa")
           (fun _ => WrapperFacts.lab_host) (fun _ => false) (fun _ => false)
           single_cfg empty_world
           {| Interp.cfg := single_cfg;
              Interp.base_context :=
                [("mode", VStr "single");
                 ("endpoint", VStr "/api2/json/nodes")] |}
           single_cfg
           [("mode", VStr "single"); ("endpoint", VStr "/api2/json/nodes")]
           lab_client after_get [] (VStr "/api2/json/nodes")
           (VStr "/api2/json/nodes") (VDict []) lab_path
           eq_refl eq_refl eq_refl
           (conj eq_refl (conj eq_refl eq_refl)) well_formed_empty
           eq_refl eq_refl eq_refl eq_refl eq_refl eq_refl eq_refl eq_refl
           eq_refl eq_refl eq_refl).
Defined.

Example single_run_uploads :
  lab_run single_cfg empty_world
  = (Ok tt,
     Some {| disk :=
               {| Storage.fs := [];
                  Storage.remote :=
                    [(lab_path,
                      {| Storage.btype := Storage.AppendBlob;
                         Storage.blocks :=
                           [line_of dumps
                              (wrap (fun _ => WrapperFacts.lab_host)
                                 single_cfg after_get 0 (VDict []))] |})];
                  Storage.stdout :=
                    ["Running node_status in mode: single";
                     "Finished node_status: collected 1, flushed 1, failed 0"]
               |};
             wire :=
               [{| Http.method := Http.GET;
                   Http.url := "https://pve.lan:8006/api2/json/nodes";
                   Http.json_body := None;
                   Http.verify_arg := true;
                   Http.timeout_arg := 20 |}] |}).
Proof. reflexivity. Qed.


(** The blob service does not answer. *)
Definition blob_down : Storage.faults :=
  {| Storage.mkdir_fails := false;
     Storage.exists_fails := fun _ => true;
     Storage.create_fails := fun _ => false;
     Storage.read_fails := fun _ _ => false;
     Storage.append_fails := fun _ _ => false;
     Storage.unlink_fails := fun _ _ => false |}.

Lemma spooled_record_survives_witness :
  exists m,
    Runner.run_collector Example.upper Example.repr HttpFacts.exn_name
      HttpFacts.strip HttpFacts.lower HttpFacts.lab_environ HttpFacts.accepting
      dumps [] StorageFacts.ready blob_down "2024-01-01"
      (fun _ => "20240101T000000") (fun _ => "aa")
      (fun _ => WrapperFacts.lab_host) (fun _ => false) (fun _ => false)
      single_cfg empty_world
    = (Ok tt, Some m)
    /\ (FlushFacts.held (Storage.parts_dir_of lab_path)
          (Storage.part_name "20240101T000000" "aa")
          (line_of dumps
             (wrap (fun _ => WrapperFacts.lab_host) single_cfg after_get 0
                (VDict [])))
          (Storage.fs (disk m))
        \/ FlushFacts.uploaded
             (line_of dumps
                (wrap (fun _ => WrapperFacts.lab_host) single_cfg after_get 0
                   (VDict [])))
             (Storage.remote (disk m))).
Proof.
  exact (spooled_record_survives Example.upper Example.repr
           HttpFacts.exn_name HttpFacts.strip HttpFacts.lower
           HttpFacts.lab_environ HttpFacts.accepting dumps []
           StorageFacts.ready blob_down "2024-01-01"
           (fun _ => "20240101T000000") (fun _ => "aa")
           (fun _ => WrapperFacts.lab_host) (fun _ => false) (fun _ => false)
           single_cfg empty_world
           {| Interp.cfg := single_cfg;
              Interp.base_context :=
                [("mode", VStr "single");
                 ("endpoint", VStr "/api2/json/nodes")] |}
           single_cfg
           [("mode", VStr "single"); ("endpoint", VStr "/api2/json/nodes")]
           lab_client after_get [] (VStr "/api2/json/nodes")
           (VStr "/api2/json/nodes") (VDict []) lab_path
           eq_refl eq_refl eq_refl
           eq_refl eq_refl eq_refl eq_refl eq_refl eq_refl eq_refl eq_refl
           eq_refl eq_refl).
Defined.

Example blob_down_keeps_part :
  Runner.run_collector Example.upper Example.repr HttpFacts.exn_name
    HttpFacts.strip HttpFacts.lower HttpFacts.lab_environ HttpFacts.accepting
    dumps [] StorageFacts.ready blob_down "2024-01-01"
    (fun _ => "20240101T000000") (fun _ => "aa")
    (fun _ => WrapperFacts.lab_host) (fun _ => false) (fun _ => false)
    single_cfg empty_world
  = (Ok tt,
     Some {| disk :=
               {| Storage.fs :=
                    [(Storage.parts_dir_of lab_path,
                      [(Storage.part_name "20240101T000000" "aa",
                        line_of dumps
                          (wrap (fun _ => WrapperFacts.lab_host) single_cfg
                             after_get 0 (VDict [])))])];
                  Storage.remote := [];
                  Storage.stdout :=
                    ["Running node_status in mode: single";
                     "Finished node_status: collected 1, flushed 0, failed 1"]
               |};
             wire := Http.sent after_get |}).
Proof. reflexivity. Qed.


End RunnerFacts.

(* ================================================================= *)
(** * Properties: the item loop                                       *)
(* ================================================================= *)

Module LoopFacts.

Import Interp Template Collector.

Section Loop.

Variable upper : string -> string.
Variable repr : value -> string.
Variable exn_str : exn -> string.
Variable client : Type.
Variable client_get : client -> value -> result value * client.

Local Abbreviation item_step :=
  (collect_item upper repr exn_str client client_get).
Local Abbreviation item_loop :=
  (collect_items upper repr exn_str client client_get).

(** The item is fetched: it has a truthy value under [id_field]. *)
Definition has_id (id_field : string) (item : value) : bool :=
  match item with
  | VDict d => truthy (get_or_none id_field d)
  | _ => false
  end.

(** Records and failure lines together. *)
Definition outcomes (st : run client) : nat :=
  length (records client st) + length (printed client st).

(** Strict resolution of a well-formed template returns or raises
    [CollectorError]. *)
Lemma strict_plain_outcome (ctx : ConfigContext) (ts : list tok)
    (extra_ctx : option dict) :
  forallb plain_tok ts = true ->
  (exists s, resolve_str upper repr ctx (VStr (template_of ts)) extra_ctx true
             = Ok (VStr s))
  \/ (exists msg,
        resolve_str upper repr ctx (VStr (template_of ts)) extra_ctx true
        = Raise (CollectorError msg)).
Proof.
  intros Hp. unfold resolve_str, format.
  rewrite InterpFacts.parse_template by exact Hp.
  rewrite InterpFacts.render_strict by exact Hp.
  destruct (first_missing _ ts); eauto.
Qed.

(** The client raises nothing but what [except Exception] catches. *)
Definition raises_exceptions_only : Prop :=
  forall c endpoint m, fst (client_get c endpoint) <> Raise (SystemExit m).

Lemma item_step_outcome (ctx : ConfigContext) (id_field : string)
    (ts : list tok) (st : run client) (d : dict) :
  forallb plain_tok ts = true ->
  raises_exceptions_only ->
  exists st',
    item_step ctx id_field (VStr (template_of ts)) st (VDict d) = Ok st'
    /\ outcomes st'
       = outcomes st + (if has_id id_field (VDict d) then 1 else 0)
    /\ exists more, records client st' = (records client st ++ more)%list.
Proof.
  intros Hp Hex. unfold collect_item, has_id, outcomes.
  destruct (truthy (get_or_none id_field d)); cbn [negb].
  2:{ exists st. split; [reflexivity|]. split; [lia|].
      exists []. now rewrite app_nil_r. }
  destruct (strict_plain_outcome ctx ts
              (Some (dict_update [("id", get_or_none id_field d)]
                       (safe_item repr d))) Hp) as [[s Hs]|[msg Hs]];
    rewrite Hs.
  - pose proof (Hex (http client st) (VStr s)) as Hne.
    destruct (client_get (http client st) (VStr s)) as [[data|e] c];
      cbn [fst] in Hne.
    + eexists. split; [reflexivity|]. cbn [records printed].
      rewrite ?length_app. cbn [length]. split; [lia|]. now exists [data].
    + assert (He : exists st',
                 match e with
                 | SystemExit m => Raise (SystemExit m)
                 | _ => Ok {| http := c; records := records client st;
                              printed := (printed client st
                                ++ [failed_message repr exn_str
                                      (get_or_none id_field d) e])%list |}
                 end = Ok st'
                 /\ records client st' = records client st
                 /\ length (printed client st')
                    = length (printed client st) + 1).
      { destruct e; try (eexists; split; [reflexivity|];
                         cbn [records printed]; rewrite length_app;
                         cbn [length]; split; [reflexivity|lia]).
        now destruct (Hne msg). }
      destruct He as (st' & -> & Hr & Hl). exists st'.
      split; [reflexivity|]. rewrite Hr, Hl. split; [lia|].
      exists []. now rewrite app_nil_r.
  - eexists. split; [reflexivity|]. cbn [records printed].
    rewrite length_app. cbn [length]. split; [lia|].
    exists []. now rewrite app_nil_r.
Qed.

Lemma loop_outcome (ctx : ConfigContext) (id_field : string)
    (ts : list tok) (items : list value) :
  forallb plain_tok ts = true ->
  (forall item, In item items -> exists d, item = VDict d) ->
  raises_exceptions_only ->
  forall st,
  exists st',
    item_loop ctx id_field (VStr (template_of ts)) st items = Ok st'
    /\ outcomes st' = outcomes st + length (filter (has_id id_field) items)
    /\ exists more, records client st' = (records client st ++ more)%list.
Proof.
  intros Hp Hall Hex. induction items as [|item items IH]; intros st.
  - exists st. cbn [collect_items filter length]. split; [reflexivity|].
    split; [lia|]. exists []. now rewrite app_nil_r.
  - destruct (Hall item (or_introl eq_refl)) as [d ->].
    destruct (item_step_outcome ctx id_field ts st d Hp Hex)
      as (st1 & Hstep & Hcount & more1 & Hrec).
    destruct (IH (fun x Hx => Hall x (or_intror Hx)) st1)
      as (st' & Hloop & Hcount' & more2 & Hrec').
    exists st'. cbn [collect_items]. rewrite Hstep. cbn [bind].
    split; [exact Hloop|]. split.
    + rewrite Hcount', Hcount. cbn [filter].
      destruct (has_id id_field (VDict d)); cbn [length]; lia.
    + exists (more1 ++ more2)%list. now rewrite Hrec', Hrec, app_assoc.
Qed.

(** X19. In loop mode an item whose fetch raises an [Exception] does
    not stop the loop: over items that are all mappings, with a
    well-formed item template and a client that raises nothing but
    [Exception]s, the loop returns, and every item that has a truthy id
    gives exactly one record or exactly one failure line; the records
    collected before are kept, in order, with the new ones after them.
    A [SystemExit] raised by the fetch of an item is not caught: it
    ends the loop, whatever items come after. *)
Theorem every_item_gives_a_record_or_a_line (ctx : ConfigContext)
    (id_field : string) (ts : list tok) (items : list value) :
  forallb plain_tok ts = true ->
  (forall item, In item items -> exists d, item = VDict d) ->
  (raises_exceptions_only ->
   forall st,
   exists st',
     item_loop ctx id_field (VStr (template_of ts)) st items = Ok st'
     /\ outcomes st' = outcomes st + length (filter (has_id id_field) items)
     /\ exists more, records client st' = (records client st ++ more)%list)
  /\ (forall st d url m,
        has_id id_field (VDict d) = true ->
        resolve_str upper repr ctx (VStr (template_of ts))
          (Some (dict_update [("id", get_or_none id_field d)]
                   (safe_item repr d))) true = Ok url ->
        fst (client_get (http client st) url) = Raise (SystemExit m) ->
        item_loop ctx id_field (VStr (template_of ts)) st (VDict d :: items)
        = Raise (SystemExit m)).
Proof.
  intros Hp Hall. split.
  - intros Hex. now apply loop_outcome.
  - intros st d url m Hid Hurl Hget. cbn [collect_items].
    unfold collect_item. cbn [has_id] in Hid. rewrite Hid. cbn [negb].
    rewrite Hurl.
    destruct (client_get (http client st) url) as [r c]. cbn [fst] in Hget.
    now rewrite Hget.
Qed.

End Loop.

(** A client that cannot reach item 8. *)
Definition flaky_get (asked : list value) (endpoint : value)
  : result value * list value :=
  match endpoint with
  | VStr "/items/8/b" => (Raise (CollectorError "HTTP 500"),
                          (asked ++ [endpoint])%list)
  | _ => (Ok (VDict [("data", endpoint)]), (asked ++ [endpoint])%list)
  end.

Definition item_path : list tok :=
  [TLit "/items/"; TVar "id"; TLit "/"; TVar "name"].

Definition four_items : list value :=
  [VDict [("id", VInt 7); ("name", VStr "a")];
   VDict [("id", VInt 8); ("name", VStr "b")];
   VDict [("id", VInt 9)];
   VDict [("id", VInt 0); ("name", VStr "d")]].

Lemma every_item_gives_a_record_or_a_line_witness :
  exists st',
    collect_items Example.upper Example.repr (fun _ => "error") (list value)
      flaky_get (Example.context []) "id" (VStr "/items/{id}/{name}")
      CollectorFacts.fresh four_items = Ok st'
    /\ outcomes (list value) st'
       = outcomes (list value) CollectorFacts.fresh
         + length (filter (has_id "id") four_items)
    /\ exists more,
         records (list value) st'
         = (records (list value) CollectorFacts.fresh ++ more)%list.
Proof.
  apply (every_item_gives_a_record_or_a_line Example.upper Example.repr
           (fun _ => "error") (list value) flaky_get (Example.context [])
           "id" item_path four_items eq_refl).
  - intros item [<-|[<-|[<-|[<-|[]]]]]; eauto.
  - intros c endpoint m. unfold flaky_get.
    destruct endpoint as [| | |s| | |]; try discriminate.
    destruct (String.eqb_spec s "/items/8/b") as [->|Hs]; [discriminate|].
    repeat (destruct s as [|[[|] [|] [|] [|] [|] [|] [|] [|]] s];
            try discriminate).
Defined.

(** A client that gives up at item 8 by exiting. *)
Definition exiting_get (asked : list value) (endpoint : value)
  : result value * list value :=
  match endpoint with
  | VStr "/items/8/b" => (Raise (SystemExit "interrupted"),
                          (asked ++ [endpoint])%list)
  | _ => (Ok (VDict [("data", endpoint)]), (asked ++ [endpoint])%list)
  end.

Example exit_ends_the_loop :
  collect_items Example.upper Example.repr (fun _ => "error") (list value)
    exiting_get (Example.context []) "id" (VStr "/items/{id}/{name}")
    CollectorFacts.fresh four_items
  = Raise (SystemExit "interrupted").
Proof. reflexivity. Qed.

Example flaky_loop :
  collect_items Example.upper Example.repr (fun _ => "error") (list value)
    flaky_get (Example.context []) "id" (VStr "/items/{id}/{name}")
    CollectorFacts.fresh four_items
  = Ok {| http := [VStr "/items/7/a"; VStr "/items/8/b"];
          records := [VDict [("data", VStr "/items/7/a")]];
          printed := ["Failed to fetch item 8: error";
                      "Failed to fetch item 9: error"] |}.
Proof. reflexivity. Qed.


End LoopFacts.

(* ================================================================= *)
(** * Properties: one tick of the scheduler                           *)
(* ================================================================= *)

Module TickerFacts.

Import Ticker.

Section Tick.

Variable exn_str : exn -> string.
Variable load : string -> result value.
Variable now_check : string -> Q.
Variable now_mark : string -> Q.

Local Abbreviation tick_file := (Ticker.tick_file exn_str load now_check now_mark).
Local Abbreviation tick_files :=
  (Ticker.tick_files exn_str load now_check now_mark).
Local Abbreviation tick := (Ticker.tick exn_str load now_check now_mark).

(** The path of a file of the directory. *)
Definition path_of (dir name : string) : string := dir ++ "/" ++ name.

Lemma path_of_inj (dir n1 n2 : string) :
  path_of dir n1 = path_of dir n2 -> n1 = n2.
Proof.
  unfold path_of. intros H.
  apply BronzePathFacts.append_cancel_l in H. now injection H.
Qed.

(** Between two states: the time recorded for [p] is the same, every
    job submitted before is still there, and no job for [p] is new. *)
Definition untouched (p : string) (st st' : state) : Prop :=
  Storage.lookup p (last_runs st') = Storage.lookup p (last_runs st)
  /\ (forall job, In job (submitted st) -> In job (submitted st'))
  /\ (forall job, In job (submitted st') -> fst job = p ->
                  In job (submitted st)).

Lemma untouched_refl (p : string) (st : state) : untouched p st st.
Proof. now repeat split. Qed.

Lemma untouched_trans (p : string) (st1 st2 st3 : state) :
  untouched p st1 st2 -> untouched p st2 st3 -> untouched p st1 st3.
Proof.
  intros (H1 & H2 & H3) (H4 & H5 & H6). repeat split.
  - now rewrite H4.
  - auto.
  - auto.
Qed.

Lemma untouched_print (p : string) (lines : list string) (st : state) :
  untouched p st (print_lines lines st).
Proof. now repeat split. Qed.

(** The step of another file leaves [p] untouched. *)
Lemma tick_file_other (dir name p : string) (st : state) :
  p <> path_of dir name ->
  untouched p st (snd (tick_file dir name st)).
Proof.
  intros Hp. unfold Ticker.tick_file. fold (path_of dir name).
  destruct (load_yaml exn_str load (path_of dir name)) as [[cfg|e] lines];
    [|apply untouched_print].
  apply (untouched_trans p st (print_lines lines st));
    [apply untouched_print|].
  generalize (print_lines lines st). clear st. intros st.
  destruct (negb (truthy cfg)); [apply untouched_refl|].
  destruct cfg; try apply untouched_refl.
  destruct (Scheduler.should_run _ _ _) as [[|]|]; try apply untouched_refl.
  cbn [snd]. repeat split; cbn [last_runs submitted].
  - now apply StorageFacts.lookup_store_other.
  - intros job Hjob. apply in_or_app. now left.
  - intros job Hjob Hfst. apply in_app_or in Hjob.
    destruct Hjob as [Hjob|[<-|[]]]; [exact Hjob|].
    cbn [fst] in Hfst. congruence.
Qed.

Lemma tick_files_other (dir p : string) (names : list string) :
  (forall n, In n names -> p <> path_of dir n) ->
  forall st, untouched p st (snd (tick_files dir names st)).
Proof.
  induction names as [|n names IH]; intros Hall st; cbn [Ticker.tick_files].
  - apply untouched_refl.
  - pose proof (tick_file_other dir n p st (Hall n (or_introl eq_refl))) as H1.
    destruct (tick_file dir n st) as [[u|e] st1]; cbn [snd] in *;
      [|exact H1].
    eapply untouched_trans; [exact H1|].
    apply IH. intros x Hx. apply Hall. now right.
Qed.

Lemma should_run_not_yet (d sched : dict) (i : Z) (t now : Q) :
  dict_get "schedule" d = Some (VDict sched) ->
  truthy (get_or_none "interval_seconds" sched) = true ->
  Scheduler.py_int (get_or_none "interval_seconds" sched) = Ok i ->
  (now - t < inject_Z i)%Q ->
  Scheduler.should_run d (Some t) now = Ok false.
Proof.
  intros Hs Ht Hi Hlt. unfold Scheduler.should_run, Scheduler.schedule_of.
  rewrite Hs. cbn [bind]. rewrite Ht, Hi. cbn [negb bind].
  destruct (Qle_bool (inject_Z i) (now - t)) eqn:E; [|reflexivity].
  apply Qle_bool_iff in E. now apply Qlt_not_le in Hlt.
Qed.

Lemma load_yaml_mapping (p : string) (d : dict) :
  load p = Ok (VDict d) ->
  load_yaml exn_str load p
  = (Ok (VDict d), []).
Proof.
  intros H. unfold load_yaml. rewrite H. cbn [truthy]. now destruct d.
Qed.

(** X20. A job for which fewer than [int(interval_seconds)] seconds
    have passed since the time recorded for it is left alone by a tick,
    whatever else the directory holds and whether or not the tick runs
    to its end: it is not submitted again and its recorded time stays.
    [int] drops the fraction of a fractional interval, so the bound is
    the truncated interval, not the interval as written. *)
Theorem job_not_due_is_left_alone (dir name : string) (names : list string)
    (st : state) (d sched : dict) (i : Z) (t : Q) :
  load (path_of dir name) = Ok (VDict d) ->
  dict_get "schedule" d = Some (VDict sched) ->
  truthy (get_or_none "interval_seconds" sched) = true ->
  Scheduler.py_int (get_or_none "interval_seconds" sched) = Ok i ->
  Storage.lookup (path_of dir name) (last_runs st) = Some t ->
  (now_check (path_of dir name) - t < inject_Z i)%Q ->
  Storage.lookup (path_of dir name) (last_runs (snd (tick dir names st)))
  = Some t
  /\ forall cfg, In (path_of dir name, cfg) (submitted (snd (tick dir names st)))
                 -> In (path_of dir name, cfg) (submitted st).
Proof.
  intros Hload Hs Htr Hi Hlast Hlt. unfold Ticker.tick.
  assert (H : untouched (path_of dir name) st
                (snd (tick_files dir (Storage.sorted (glob_yaml names)) st))).
  { revert st Hlast.
    induction (Storage.sorted (glob_yaml names)) as [|n l IH];
      intros st Hlast; cbn [Ticker.tick_files]; [apply untouched_refl|].
    assert (H1 : untouched (path_of dir name) st (snd (tick_file dir n st))).
    { destruct (String.eqb_spec n name) as [->|Hn].
      - unfold Ticker.tick_file. fold (path_of dir name).
        rewrite (load_yaml_mapping _ d Hload). cbn [truthy].
        destruct d as [|kv d']; [apply untouched_print|]. cbn [negb].
        cbn [print_lines last_runs]. rewrite Hlast.
        rewrite (should_run_not_yet _ sched i t _ Hs Htr Hi Hlt).
        apply untouched_print.
      - apply tick_file_other. intros Heq. apply Hn. symmetry.
        now apply (path_of_inj dir). }
    destruct (tick_file dir n st) as [[u|e] st1]; cbn [snd] in *;
      [|exact H1].
    eapply untouched_trans; [exact H1|]. apply IH.
    destruct H1 as [H1 _]. now rewrite H1. }
  destruct H as (H1 & _ & H3). split; [now rewrite H1|].
  intros cfg Hin. now apply H3.
Qed.

(** X21. A configuration file whose document is neither empty nor a
    mapping (a list, a string, a number) stops the tick with an
    exception: none of the files after it in sorted order is looked at,
    so no job of theirs is submitted. *)
Theorem malformed_file_stops_the_tick (dir name : string)
    (names pre post : list string) (st : state) (v : value) :
  Storage.sorted (glob_yaml names) = (pre ++ name :: post)%list ->
  load (path_of dir name) = Ok v ->
  truthy v = true ->
  (forall d, v <> VDict d) ->
  is_ok (fst (tick dir names st)) = false
  /\ forall job, In job (submitted (snd (tick dir names st))) ->
       In job (submitted st)
       \/ exists n, In n pre /\ fst job = path_of dir n.
Proof.
  intros Hsorted Hload Htrue Hnot. unfold Ticker.tick. rewrite Hsorted.
  clear Hsorted. revert st.
  induction pre as [|n pre IH]; intros st; cbn [app Ticker.tick_files].
  - unfold Ticker.tick_file. fold (path_of dir name).
    unfold load_yaml. rewrite Hload, Htrue. cbv beta iota zeta.
    rewrite Htrue. cbn [negb].
    destruct v as [| | | | |d|];
      try (now destruct (Hnot d));
      cbn [fst snd is_ok submitted print_lines]; auto.
  - assert (Hn : forall job, In job (submitted (snd (tick_file dir n st))) ->
                   In job (submitted st) \/ fst job = path_of dir n).
    { unfold Ticker.tick_file. fold (path_of dir n).
      destruct (load_yaml exn_str load (path_of dir n)) as [[cfg|e] lines];
        [|now left].
      destruct (negb (truthy cfg)); [now left|].
      destruct cfg; try (now left).
      destruct (Scheduler.should_run _ _ _) as [[|]|]; try (now left).
      cbn [snd submitted print_lines]. intros job Hjob.
      apply in_app_or in Hjob. destruct Hjob as [Hjob|[<-|[]]]; auto. }
    destruct (tick_file dir n st) as [[u|e] st1]; cbn [snd] in Hn.
    + destruct (IH st1) as [Hfail Hsub]. split; [exact Hfail|].
      intros job Hjob. destruct (Hsub job Hjob) as [H|(m & Hm & Hfst)].
      * destruct (Hn job H) as [H'|H']; [now left|].
        right. exists n. split; [now left|exact H'].
      * right. exists m. split; [now right|exact Hfst].
    + cbn [fst snd is_ok]. split; [reflexivity|].
      intros job Hjob. destruct (Hn job Hjob) as [H'|H']; [now left|].
      right. exists n. split; [now left|exact H'].
Qed.


Lemma tick_files_app (dir : string) (a b : list string) (st : state) :
  tick_files dir (a ++ b) st
  = match tick_files dir a st with
    | (Raise e, st1) => (Raise e, st1)
    | (Ok _, st1) => tick_files dir b st1
    end.
Proof.
  revert st. induction a as [|n a IH]; intros st; cbn [app Ticker.tick_files];
    [reflexivity|].
  destruct (tick_file dir n st) as [[u|e] st1]; [apply IH|reflexivity].
Qed.

(** X22. A tick that runs to its end submits each due job and records
    the time: a file of the directory that holds a non-empty mapping
    and is due is, after the tick, among the submitted jobs with its
    configuration, and the time recorded for it is the clock reading
    taken after its submission. *)
Theorem due_job_is_submitted_and_marked (dir name : string)
    (names : list string) (st st' : state) (d : dict) :
  NoDup names -> In name names ->
  Str.ends_with ".yaml" name = true ->
  load (path_of dir name) = Ok (VDict d) ->
  d <> [] ->
  Scheduler.should_run d
    (Storage.lookup (path_of dir name) (last_runs st))
    (now_check (path_of dir name)) = Ok true ->
  tick dir names st = (Ok tt, st') ->
  Storage.lookup (path_of dir name) (last_runs st')
  = Some (now_mark (path_of dir name))
  /\ In (path_of dir name, VDict d) (submitted st').
Proof.
  intros Hnd Hin Hyaml Hload Hd Hdue. unfold Ticker.tick.
  assert (Hperm : Permutation (Storage.sorted (glob_yaml names))
                    (glob_yaml names)) by apply StorageFacts.sorted_perm.
  assert (HinL : In name (Storage.sorted (glob_yaml names))).
  { eapply Permutation_in; [symmetry; exact Hperm|].
    apply filter_In. now split. }
  assert (HndL : NoDup (Storage.sorted (glob_yaml names))).
  { eapply Permutation_NoDup; [symmetry; exact Hperm|].
    now apply NoDup_filter. }
  destruct (in_split _ _ HinL) as (pre & post & HL).
  rewrite HL in HndL |- *. clear HL HinL Hperm.
  assert (Hpre : forall n, In n pre -> path_of dir name <> path_of dir n).
  { intros n Hn Heq. apply path_of_inj in Heq. subst n.
    apply NoDup_remove_2 in HndL. apply HndL, in_or_app. now left. }
  assert (Hpost : forall n, In n post -> path_of dir name <> path_of dir n).
  { intros n Hn Heq. apply path_of_inj in Heq. subst n.
    apply NoDup_remove_2 in HndL. apply HndL, in_or_app. now right. }
  rewrite tick_files_app.
  pose proof (tick_files_other dir (path_of dir name) pre Hpre st) as H1.
  destruct (tick_files dir pre st) as [[u|e] st1]; [|discriminate].
  cbn [snd] in H1. destruct H1 as (Hlast & _ & _).
  cbn [Ticker.tick_files]. unfold Ticker.tick_file at 1.
  fold (path_of dir name). rewrite (load_yaml_mapping _ d Hload).
  cbn [truthy]. destruct d as [|kv d']; [contradiction|]. cbn [negb].
  cbn [print_lines last_runs]. rewrite Hlast, Hdue.
  set (st2 := {| last_runs := _ |}).
  pose proof (tick_files_other dir (path_of dir name) post Hpost st2) as H2.
  destruct (tick_files dir post st2) as [[u2|e2] st3]; [|discriminate].
  cbn [snd] in H2. destruct H2 as (Hlast2 & Hkeep & _).
  intros [= _ <-]. split.
  - rewrite Hlast2. unfold st2. cbn [last_runs].
    apply StorageFacts.lookup_store_same.
  - apply Hkeep. unfold st2. cbn [submitted]. apply in_or_app. right. now left.
Qed.


End Tick.

(** ** A worked directory *)

Definition every_minute : dict :=
  [("schedule", VDict [("interval_seconds", VInt 60)])].

Definition lab_load (path : string) : result value :=
  if String.eqb path "configs/a.yaml" then Ok (VDict every_minute)
  else if String.eqb path "configs/b.yaml" then Ok (VList [VStr "oops"])
  else if String.eqb path "configs/c.yaml"
       then Ok (VDict [("entity", VStr "x")])
  else Raise OSError.

Definition lab_tick :=
  Ticker.tick (fun _ => "error") lab_load (fun _ => 100 # 1)%Q
    (fun _ => 101 # 1)%Q "configs".

Definition half_a_minute_ago : state :=
  {| last_runs := [("configs/a.yaml", (70 # 1)%Q)];
     submitted := []; out := [] |}.

Lemma job_not_due_is_left_alone_witness :
  Storage.lookup (path_of "configs" "a.yaml")
    (last_runs (snd (lab_tick ["c.yaml"; "a.yaml"; "notes.txt"]
                       half_a_minute_ago)))
  = Some (70 # 1)%Q
  /\ forall cfg,
       In (path_of "configs" "a.yaml", cfg)
          (submitted (snd (lab_tick ["c.yaml"; "a.yaml"; "notes.txt"]
                             half_a_minute_ago)))
       -> In (path_of "configs" "a.yaml", cfg) (submitted half_a_minute_ago).
Proof.
  apply (job_not_due_is_left_alone (fun _ => "error") lab_load
           (fun _ => 100 # 1)%Q (fun _ => 101 # 1)%Q "configs" "a.yaml"
           ["c.yaml"; "a.yaml"; "notes.txt"] half_a_minute_ago every_minute
           [("interval_seconds", VInt 60)] 60 (70 # 1)%Q).
  - reflexivity.
  - reflexivity.
  - reflexivity.
  - reflexivity.
  - reflexivity.
  - reflexivity.
Defined.

Lemma malformed_file_stops_the_tick_witness :
  is_ok (fst (lab_tick ["c.yaml"; "b.yaml"; "a.yaml"] half_a_minute_ago))
  = false
  /\ forall job,
       In job (submitted (snd (lab_tick ["c.yaml"; "b.yaml"; "a.yaml"]
                                 half_a_minute_ago))) ->
       In job (submitted half_a_minute_ago)
       \/ exists n, In n ["a.yaml"] /\ fst job = path_of "configs" n.
Proof.
  apply (malformed_file_stops_the_tick (fun _ => "error") lab_load
           (fun _ => 100 # 1)%Q (fun _ => 101 # 1)%Q "configs" "b.yaml"
           ["c.yaml"; "b.yaml"; "a.yaml"] ["a.yaml"] ["c.yaml"]
           half_a_minute_ago (VList [VStr "oops"])).
  - reflexivity.
  - reflexivity.
  - reflexivity.
  - discriminate.
Defined.

Lemma due_job_is_submitted_and_marked_witness :
  Storage.lookup (path_of "configs" "c.yaml")
    (last_runs (snd (lab_tick ["c.yaml"; "a.yaml"; "notes.txt"]
                       half_a_minute_ago)))
  = Some (101 # 1)%Q
  /\ In (path_of "configs" "c.yaml", VDict [("entity", VStr "x")])
        (submitted (snd (lab_tick ["c.yaml"; "a.yaml"; "notes.txt"]
                           half_a_minute_ago))).
Proof.
  apply (due_job_is_submitted_and_marked (fun _ => "error") lab_load
           (fun _ => 100 # 1)%Q (fun _ => 101 # 1)%Q "configs" "c.yaml"
           ["c.yaml"; "a.yaml"; "notes.txt"] half_a_minute_ago
           (snd (lab_tick ["c.yaml"; "a.yaml"; "notes.txt"]
                   half_a_minute_ago))
           [("entity", VStr "x")]).
  - repeat constructor; cbn; intuition discriminate.
  - now left.
  - reflexivity.
  - reflexivity.
  - discriminate.
  - reflexivity.
  - reflexivity.
Defined.

Example tick_example :
  lab_tick ["c.yaml"; "a.yaml"; "notes.txt"] half_a_minute_ago
  = (Ok tt,
     {| last_runs := [("configs/a.yaml", (70 # 1)%Q);
                      ("configs/c.yaml", (101 # 1)%Q)];
        submitted := [("configs/c.yaml", VDict [("entity", VStr "x")])];
        out := ["Triggering c.yaml..."] |}).
Proof. reflexivity. Qed.


End TickerFacts.
